(** * fhevm-react-template: the SDK's decrypt/encrypt helpers and PRSCompute

    A shallow embedding of
    - [packages/fhevm-sdk/src/core/decryption.ts],
    - the React decrypt button and ABI-driven encrypt button,
    - the [useFHEEncryption] hook,
    - [custom-contracts/PRSCompute.sol],
    - the [usePRSComputeWagmi] hook and the genotype form of
      [PRSComputeDemo],
    - [scripts/updateSubmodule.ts],
    together with models, written from the specification, of the two
    collaborators whose code is not part of the sources at hand (the
    encrypted-input builder and the decryption-signature manager). *)

From stdpp Require Import gmap strings list fin_maps sorting pretty.
From Stdlib Require Import ZArith Lia Ascii.

Local Open Scope Z_scope.

(* ===================================================================== *)
(** * Part I: definitions                                                 *)
(* ===================================================================== *)

(** ** JavaScript values, exceptions and asynchronous effects *)

(** What a [catch] clause can observe of a thrown value: an object, with
    or without a [name] and a [message] property, or a primitive. *)
Inductive JsThrown : Type :=
| ThrownObject (name message : option string)
| ThrownPrimitive.

Definition SyntaxError (msg : string) : JsThrown :=
  ThrownObject (Some "SyntaxError") (Some msg).
Definition RangeError (msg : string) : JsThrown :=
  ThrownObject (Some "RangeError") (Some msg).

(** The outcome of evaluating an expression or awaiting a promise. *)
Inductive Outcome (A : Type) : Type :=
| Return (a : A)
| Throw (e : JsThrown).
Arguments Return {A} a.
Arguments Throw {A} e.

(** Effectful code over a state [S]: the state is threaded through, also
    past a throw (what was done before the throw stays done). *)
Definition M (S A : Type) : Type := S -> Outcome A * S.

Definition ret {S A} (a : A) : M S A := fun s => (Return a, s).

Definition throw {S A} (e : JsThrown) : M S A := fun s => (Throw e, s).

Definition bind {S A B} (m : M S A) (k : A -> M S B) : M S B :=
  fun s => match m s with
           | (Return a, s') => k a s'
           | (Throw e, s') => (Throw e, s')
           end.

(** [try { m } catch (e) { h e }] *)
Definition try_catch {S A} (m : M S A) (h : JsThrown -> M S A) : M S A :=
  fun s => match m s with
           | (Return a, s') => (Return a, s')
           | (Throw e, s') => h e s'
           end.

(** [try { m } finally { f }]: [f] runs on both exits; a throw of [f]
    replaces the outcome of [m]. *)
Definition try_finally {S A} (m : M S A) (f : M S unit) : M S A :=
  fun s => match m s with
           | (o, s') => match f s' with
                        | (Return _, s'') => (o, s'')
                        | (Throw e, s'') => (Throw e, s'')
                        end
           end.

(** Lifting of a pure outcome (the settled value of a promise). *)
Definition settle {S A} (o : Outcome A) : M S A := fun s => (o, s).

Definition modify {S} (f : S -> S) : M S unit := fun s => (Return tt, f s).

#[global] Instance M_ret {S} : MRet (M S) := fun A a => ret a.
#[global] Instance M_bind {S} : MBind (M S) := fun A B k m => bind m k.

(** [for (const v of vs) body v] *)
Fixpoint for_of {S A} (vs : list A) (body : A -> M S unit) : M S unit :=
  match vs with
  | [] => ret tt
  | v :: rest => body v ;; for_of rest body
  end.

(** *** Numbers, strings and BigInt conversion *)

(** A JavaScript number, as far as [BigInt(n)] can tell numbers apart: a
    finite value is the rational [num / den]; every double is one. *)
Inductive JsNumber : Type :=
| Finite (num : Z) (den : positive)
| NaN
| Infinity (negative : bool).

Definition int_number (z : Z) : JsNumber := Finite z 1.

(** [BigInt(n)] for a number (NumberToBigInt): a RangeError unless [n] is
    an integral number. *)
Definition BigInt_of_number (n : JsNumber) : Outcome Z :=
  match n with
  | Finite num den =>
      if (num mod Z.pos den =? 0)
      then Return (num / Z.pos den)
      else Throw (RangeError "The number cannot be converted to a BigInt because it is not an integer")
  | NaN | Infinity _ =>
      Throw (RangeError "The number cannot be converted to a BigInt because it is not an integer")
  end.

(** A string is held as its UTF-8 bytes, the way a string literal of
    this file is. White space is what [TrimString] strips: the code
    points of WhiteSpace and LineTerminator. Those below U+0080 are one
    byte each. *)
Definition is_white_space (c : ascii) : bool :=
  let n := nat_of_ascii c in
  ((9 <=? n)%nat && (n <=? 13)%nat) || (n =? 32)%nat.

(** U+00A0, in two bytes. *)
Definition is_white_space2 (c1 c2 : ascii) : bool :=
  (nat_of_ascii c1 =? 194)%nat && (nat_of_ascii c2 =? 160)%nat.

(** In three bytes: U+1680, U+2000 to U+200A, U+2028, U+2029, U+202F,
    U+205F, U+3000 and U+FEFF. *)
Definition is_white_space3 (c1 c2 c3 : ascii) : bool :=
  let n1 := nat_of_ascii c1 in
  let n2 := nat_of_ascii c2 in
  let n3 := nat_of_ascii c3 in
  ((n1 =? 225) && (n2 =? 154) && (n3 =? 128)
   || (n1 =? 226) && (n2 =? 128)
      && ((128 <=? n3) && (n3 <=? 138) || (n3 =? 168) || (n3 =? 169)
          || (n3 =? 175))
   || (n1 =? 226) && (n2 =? 129) && (n3 =? 159)
   || (n1 =? 227) && (n2 =? 128) && (n3 =? 128)
   || (n1 =? 239) && (n2 =? 187) && (n3 =? 191))%nat.

(** The string without the white space at its head; [backwards] when
    the bytes come last first, as in a reversed string. *)
Fixpoint strip_white_space (backwards : bool) (s : string) : string :=
  match s with
  | EmptyString => EmptyString
  | String c1 rest1 =>
      if is_white_space c1 then strip_white_space backwards rest1
      else
        match rest1 with
        | EmptyString => s
        | String c2 rest2 =>
            if (if backwards then is_white_space2 c2 c1
                else is_white_space2 c1 c2)
            then strip_white_space backwards rest2
            else
              match rest2 with
              | EmptyString => s
              | String c3 rest3 =>
                  if (if backwards then is_white_space3 c3 c2 c1
                      else is_white_space3 c1 c2 c3)
                  then strip_white_space backwards rest3
                  else s
              end
        end
  end.

Definition trim_start (s : string) : string := strip_white_space false s.

Definition trim (s : string) : string :=
  String.rev (strip_white_space true (String.rev (trim_start s))).

(** The value of a digit in the given radix, if it is one. *)
Definition digit_value (radix : Z) (c : ascii) : option Z :=
  let n := Z.of_nat (nat_of_ascii c) in
  let v := if (48 <=? n) && (n <=? 57) then Some (n - 48)
           else if (97 <=? n) && (n <=? 102) then Some (n - 87)
           else if (65 <=? n) && (n <=? 70) then Some (n - 55)
           else None in
  match v with
  | Some d => if d <? radix then Some d else None
  | None => None
  end.

Fixpoint digits_value (radix : Z) (acc : Z) (s : string) : option Z :=
  match s with
  | EmptyString => Some acc
  | String c rest =>
      match digit_value radix c with
      | Some d => digits_value radix (acc * radix + d) rest
      | None => None
      end
  end.

(** One or more digits of the radix. *)
Definition parse_digits (radix : Z) (s : string) : option Z :=
  match s with
  | EmptyString => None
  | _ => digits_value radix 0 s
  end.

(** StringToBigInt: white space is trimmed; the empty string is [0n];
    otherwise an optionally signed run of decimal digits, or an unsigned
    literal with a [0x], [0o] or [0b] prefix. *)
Definition StringToBigInt (s : string) : option Z :=
  match trim s with
  | EmptyString => Some 0
  | String "0" (String p rest) =>
      if (p =? "x")%char || (p =? "X")%char then parse_digits 16 rest
      else if (p =? "o")%char || (p =? "O")%char then parse_digits 8 rest
      else if (p =? "b")%char || (p =? "B")%char then parse_digits 2 rest
      else parse_digits 10 (String "0" (String p rest))
  | String "+" rest => parse_digits 10 rest
  | String "-" rest => Z.opp <$> parse_digits 10 rest
  | t => parse_digits 10 t
  end.

(** [BigInt(s)] for a string: a SyntaxError when [s] is no integer literal. *)
Definition BigInt_of_string (s : string) : Outcome Z :=
  match StringToBigInt s with
  | Some z => Return z
  | None => Throw (SyntaxError ("Cannot convert " +:+ s +:+ " to a BigInt"))
  end.

(** Run [m] on a local object [o] (a callback handed a fresh mutable
    object): the caller's state is untouched, a throw propagates, and the
    object as [m] left it is returned. *)
Definition with_object {S O A} (o : O) (m : M O A) : M S (A * O) :=
  fun s => match m o with
           | (Return a, o') => (Return (a, o'), s)
           | (Throw e, _) => (Throw e, s)
           end.

(** ** The engine boundary: instance, relay and encrypted-input builder *)

(** A [Uint8Array]. *)
Abbreviation Bytes := (list Byte.byte).

Record DecryptRequest : Type := {
  handle : string;
  contractAddress : string
}.

(** [string | bigint | boolean] *)
Inductive Cleartext : Type :=
| CString (s : string)
| CBigInt (z : Z)
| CBoolean (b : bool).

(** [Record<string, string | bigint | boolean>] *)
Abbreviation Cleartexts := (gmap string Cleartext).

(** The calls that reach the decryption relay, with their arguments in
    the order of the relay's interface. *)
Inductive RelayCall : Type :=
| CallUserDecrypt (requests : list DecryptRequest)
    (privateKey publicKey signature : string)
    (contractAddresses : list string) (userAddress : string)
    (startTimestamp durationDays : Z)
| CallPublicDecrypt (requests : list DecryptRequest).

(** A plaintext value accumulated by a builder, with its declared type. *)
Inductive Plain : Type :=
| PBool (b : bool)
| PUint (bits : Z) (v : Z)
| PAddress (a : string).

(** [{ handles, inputProof }] *)
Record EncryptedInput : Type := {
  handles : list Bytes;
  inputProof : Bytes
}.

(** Modelled from the spec: the external crypto engine behind the
    builder, which the sources only reach through the instance: whether
    the instance it serves is Ready, how it encrypts the [i]-th value of
    a batch for (contract, user) under the randomness [seed], and the
    one proof it issues for the whole batch, a byte string that is not
    empty: its first byte and the rest. *)
Record Engine : Type := {
  engine_ready : bool;
  engine_handle : N -> string -> string -> nat -> Plain -> Bytes;
  engine_proof : N -> string -> string -> list Plain -> Byte.byte * Bytes
}.

(** [FhevmInstance], used as [any] by the decrypt helpers: the relay's
    answers to [userDecrypt] and [publicDecrypt] (a rejected promise is a
    [Throw]), the engine behind [createEncryptedInput], and the id of the
    key material the instance is bound to. *)
Record FhevmInstance : Type := {
  relay_userDecrypt :
    list DecryptRequest -> string -> string -> string ->
    list string -> string -> Z -> Z -> Outcome Cleartexts;
  relay_publicDecrypt : list DecryptRequest -> Outcome Cleartexts;
  instance_engine : Engine;
  instance_keyId : string
}.

(** Modelled from the spec: the typed payload the wallet is asked to
    sign for a decryption signature (the signing code is absent from the
    sources). *)
Record SigningPayload : Type := {
  payload_publicKey : string;
  payload_contractAddresses : list string;
  payload_startTimestamp : Z;
  payload_durationDays : Z
}.

(** [ethers.JsonRpcSigner], as far as this code uses it: the account's
    address and the wallet prompt (a refusal is a [Throw]). *)
Record Signer : Type := {
  getAddress : Outcome string;
  signTypedData : SigningPayload -> Outcome string
}.

(** A state on which relay calls leave a trace. *)
Class RelayLog (W : Type) : Type := record_call : RelayCall -> W -> W.

#[global] Instance RelayLog_list : RelayLog (list RelayCall) :=
  fun c log => log ++ [c].

(** [(instance as any).userDecrypt(...)]: the call is made, whatever it
    answers. *)
Definition instance_userDecrypt {W} `{RelayLog W} (instance : FhevmInstance)
    (reqs : list DecryptRequest) (privateKey publicKey signature : string)
    (contractAddresses : list string) (userAddress : string)
    (startTimestamp durationDays : Z) : M W Cleartexts :=
  fun w =>
    (relay_userDecrypt instance reqs privateKey publicKey signature
       contractAddresses userAddress startTimestamp durationDays,
     record_call (CallUserDecrypt reqs privateKey publicKey signature
       contractAddresses userAddress startTimestamp durationDays) w).

(** [(instance as any).publicDecrypt(reqs)] *)
Definition instance_publicDecrypt {W} `{RelayLog W} (instance : FhevmInstance)
    (reqs : list DecryptRequest) : M W Cleartexts :=
  fun w => (relay_publicDecrypt instance reqs,
            record_call (CallPublicDecrypt reqs) w).

(** ** core/decryption.ts *)

(** The two [number] fields hold whole seconds and whole days. *)
Record UserDecryptSignature : Type := {
  privateKey : string;
  publicKey : string;
  signature : string;
  contractAddresses : list string;
  userAddress : string;
  startTimestamp : Z;
  durationDays : Z
}.

Definition userDecryptWithSignature {W} `{RelayLog W}
    (instance : FhevmInstance) (requests : list DecryptRequest)
    (sig : UserDecryptSignature) : M W Cleartexts :=
  let mutableReqs :=
    map (fun r => {| handle := handle r;
                     contractAddress := contractAddress r |}) requests in
  instance_userDecrypt instance
    mutableReqs
    (privateKey sig)
    (publicKey sig)
    (signature sig)
    (contractAddresses sig)
    (userAddress sig)
    (startTimestamp sig)
    (durationDays sig).

Definition publicDecrypt {W} `{RelayLog W}
    (instance : FhevmInstance) (requests : list DecryptRequest)
    : M W Cleartexts :=
  let mutableReqs :=
    map (fun r => {| handle := handle r;
                     contractAddress := contractAddress r |}) requests in
  instance_publicDecrypt instance mutableReqs.

(** The check the executor is described as making: every request's
    contract is one of the signature's. *)
Definition in_scope (requests : list DecryptRequest)
    (sig : UserDecryptSignature) : Prop :=
  Forall (fun r => contractAddress r ∈ contractAddresses sig) requests.

Definition is_ScopeMismatch (e : JsThrown) : Prop :=
  match e with
  | ThrownObject (Some n) _ => n = "ScopeMismatch"
  | _ => False
  end.

(** "Fails with ScopeMismatch before any network call, without side
    effect", for one call on the relay log [w]. *)
Definition rejects_out_of_scope (instance : FhevmInstance)
    (requests : list DecryptRequest) (sig : UserDecryptSignature)
    (w : list RelayCall) : Prop :=
  ~ in_scope requests sig ->
  exists e, is_ScopeMismatch e /\
            userDecryptWithSignature instance requests sig w = (Throw e, w).

(** [GenericStringStorage]: the persistent key-value store of decryption
    signatures. Entries are kept as the records they serialize. *)
Abbreviation GenericStringStorage := (gmap string UserDecryptSignature).

(** ** react/components/FHEDecryptButton *)

Definition set_add (acc : list string) (x : string) : list string :=
  if bool_decide (x ∈ acc) then acc else acc ++ [x].

(** [Array.from(new Set(xs))]: the distinct elements of [xs], each at the
    place of its first occurrence. *)
Definition array_from_set (xs : list string) : list string :=
  fold_left set_add xs [].

(** [FhevmDecryptionSignature.loadOrSign], a collaborator of the button:
    it answers with a signature, with [null], or throws. *)
Definition LoadOrSign : Type :=
  FhevmInstance -> list string -> Signer -> GenericStringStorage ->
  Outcome (option UserDecryptSignature).

Record DecryptButtonProps : Type := {
  props_instance : option FhevmInstance;
  props_signer : option Signer;
  props_storage : GenericStringStorage;
  props_requests : option (list DecryptRequest);
  props_onResults : option (Cleartexts -> Outcome unit)
}.

(** What the button does that is visible outside the component. *)
Inductive ButtonEvent : Type :=
| EvLoadOrSign (addresses : list string)
| EvRelay (c : RelayCall)
| EvOnResults (r : Cleartexts).

(** The component's state hooks and the trace of its outside calls. *)
Record DecryptUi : Type := {
  isDecrypting : bool;
  message : string;
  error : option string;
  events : list ButtonEvent
}.

Definition setIsDecrypting (b : bool) : M DecryptUi unit :=
  modify (fun u => {| isDecrypting := b; message := message u;
                      error := error u; events := events u |}).

Definition setMessage (m : string) : M DecryptUi unit :=
  modify (fun u => {| isDecrypting := isDecrypting u; message := m;
                      error := error u; events := events u |}).

Definition setError (e : option string) : M DecryptUi unit :=
  modify (fun u => {| isDecrypting := isDecrypting u; message := message u;
                      error := e; events := events u |}).

Definition emit (ev : ButtonEvent) (u : DecryptUi) : DecryptUi :=
  {| isDecrypting := isDecrypting u; message := message u;
     error := error u; events := events u ++ [ev] |}.

#[global] Instance RelayLog_DecryptUi : RelayLog DecryptUi :=
  fun c u => emit (EvRelay c) u.

Definition call_loadOrSign (loadOrSign : LoadOrSign)
    (instance : FhevmInstance) (addresses : list string) (signer : Signer)
    (storage : GenericStringStorage)
    : M DecryptUi (option UserDecryptSignature) :=
  fun u => (loadOrSign instance addresses signer storage,
            emit (EvLoadOrSign addresses) u).

(** [onResults?.(res)] *)
Definition call_onResults (cb : option (Cleartexts -> Outcome unit))
    (res : Cleartexts) : M DecryptUi unit :=
  match cb with
  | Some f => fun u => (f res, emit (EvOnResults res) u)
  | None => ret tt
  end.

(** The [name] and [message] the [catch] clause reads off what was thrown. *)
Definition error_code (e : JsThrown) : string :=
  match e with
  | ThrownObject (Some n) _ => n
  | _ => "DECRYPT_ERROR"
  end.

Definition error_msg (e : JsThrown) : string :=
  match e with
  | ThrownObject _ (Some m) => m
  | _ => "Decryption failed"
  end.

Definition FHEDecryptButton_onClick (loadOrSign : LoadOrSign)
    (props : DecryptButtonProps) : M DecryptUi unit :=
  match props_instance props, props_signer props, props_requests props with
  | Some instance, Some signer, Some requests =>
      if (length requests =? 0)%nat then ret tt else
      setIsDecrypting true;;
      setMessage "Start decrypt";;
      setError None;;
      try_finally
        (try_catch
           (let uniqueAddresses :=
              array_from_set (map contractAddress requests) in
            sig ← call_loadOrSign loadOrSign instance uniqueAddresses signer
                    (props_storage props);
            match sig with
            | None =>
                setMessage "Unable to build FHEVM decryption signature";;
                setError (Some "SIGNATURE_ERROR: Failed to create decryption signature")
            | Some sig =>
                setMessage "Call FHEVM userDecrypt...";;
                res ← userDecryptWithSignature instance requests
                        {| privateKey := privateKey sig;
                           publicKey := publicKey sig;
                           signature := signature sig;
                           contractAddresses := contractAddresses sig;
                           userAddress := userAddress sig;
                           startTimestamp := startTimestamp sig;
                           durationDays := durationDays sig |};
                call_onResults (props_onResults props) res;;
                setMessage "FHEVM userDecrypt completed!"
            end)
           (fun e =>
              setError (Some (error_code e +:+ ": " +:+ error_msg e));;
              setMessage "FHEVM userDecrypt failed"))
        (setIsDecrypting false)
  | _, _, _ => ret tt
  end.

(** ** The encrypted-input builder *)

(** Modelled from the spec: the encrypted-input builder, which belongs to
    the engine package and is absent from the sources. [createInput]
    gives a builder bound to a contract and a user; the typed add
    operations accumulate plaintext values in call order, an unsigned
    integer outside its declared width failing with [ValueOutOfRange] at
    add-time; [encrypt] produces one handle per accumulated value, in the
    same order, and one proof for the whole batch, under fresh
    randomness, and fails with [NotReady] when the underlying instance
    is not Ready. *)
Record Builder : Type := {
  builder_engine : Engine;
  builder_contract : string;
  builder_user : string;
  builder_values : list Plain
}.

(** Modelled from the spec: [createInput] of the builder component, the
    instance's [createEncryptedInput]: a builder with nothing added. *)
Definition createEncryptedInput (instance : FhevmInstance)
    (contractAddress userAddress : string) : Builder :=
  {| builder_engine := instance_engine instance;
     builder_contract := contractAddress;
     builder_user := userAddress;
     builder_values := [] |}.

Definition ValueOutOfRange : JsThrown :=
  ThrownObject (Some "ValueOutOfRange")
               (Some "value out of range for the declared width").

Definition push_value (v : Plain) : M Builder unit :=
  modify (fun b => {| builder_engine := builder_engine b;
                      builder_contract := builder_contract b;
                      builder_user := builder_user b;
                      builder_values := builder_values b ++ [v] |}).

(** Modelled from the spec: adding an unsigned integer of a declared
    width; a value outside the width fails at add-time and adds nothing. *)
Definition add_uint (bits : Z) (v : Z) : M Builder unit :=
  if (0 <=? v) && (v <? 2 ^ bits)
  then push_value (PUint bits v)
  else throw ValueOutOfRange.

(** The add operations of a builder. *)
Inductive AddCall : Type :=
| AddBool (b : bool)
| Add8 (v : Z)
| Add16 (v : Z)
| Add32 (v : Z)
| Add64 (v : Z)
| Add128 (v : Z)
| Add256 (v : Z)
| AddAddress (a : string).

(** Modelled from the spec: the typed add operations of the builder. *)
Definition Builder_add (c : AddCall) : M Builder unit :=
  match c with
  | AddBool b => push_value (PBool b)
  | Add8 v => add_uint 8 v
  | Add16 v => add_uint 16 v
  | Add32 v => add_uint 32 v
  | Add64 v => add_uint 64 v
  | Add128 v => add_uint 128 v
  | Add256 v => add_uint 256 v
  | AddAddress a => push_value (PAddress a)
  end.

Definition NotReady : JsThrown :=
  ThrownObject (Some "NotReady") (Some "the instance is not ready").

(** Modelled from the spec: [encrypt()] of the builder: one handle per
    accumulated value, in order, and one proof for the batch; it fails
    with [NotReady], producing nothing, when the underlying instance is
    not Ready. The state threaded through is the entropy source, from
    which every encryption draws a fresh seed. *)
Definition Builder_encrypt (b : Builder) : M N EncryptedInput :=
  fun seed =>
    if engine_ready (builder_engine b)
    then
      (Return
         {| handles :=
              imap (engine_handle (builder_engine b) seed
                      (builder_contract b) (builder_user b))
                   (builder_values b);
            inputProof :=
              (engine_proof (builder_engine b) seed
                 (builder_contract b) (builder_user b)
                 (builder_values b)).1
              :: (engine_proof (builder_engine b) seed
                    (builder_contract b) (builder_user b)
                    (builder_values b)).2 |},
       N.succ seed)
    else (Throw NotReady, seed).

(** The part of a builder's interface the components call, for any
    implementation of it. *)
Class EncryptedInputOps (B : Type) : Type := {
  addBool : bool -> M B unit;
  add64 : Z -> M B unit
}.

#[global] Instance Builder_ops : EncryptedInputOps Builder := {|
  addBool b := Builder_add (AddBool b);
  add64 v := Builder_add (Add64 v)
|}.

(** A builder that only records the add-calls made on it, and accepts
    them all. *)
#[global] Instance Recorder_ops : EncryptedInputOps (list AddCall) := {|
  addBool b := modify (fun calls => calls ++ [AddBool b]);
  add64 v := modify (fun calls => calls ++ [Add64 v])
|}.

(** A builder together with the trace of the add-calls made on it:
    every call is recorded, whether it returns or throws, and handed on
    to the builder. *)
Definition traced {B} (c : AddCall) (op : M B unit)
    : M (B * list AddCall) unit :=
  fun s => match op s.1 with
           | (o, b) => (o, (b, s.2 ++ [c]))
           end.

#[global] Instance Traced_ops {B} `{EncryptedInputOps B}
    : EncryptedInputOps (B * list AddCall) := {|
  addBool b := traced (AddBool b) (addBool b);
  add64 v := traced (Add64 v) (add64 v)
|}.

(** ** react/useFHEEncryption *)

Record EncryptionParams : Type := {
  params_instance : option FhevmInstance;
  params_ethersSigner : option Signer;
  params_contractAddress : option string
}.

Definition canEncrypt (params : EncryptionParams) : bool :=
  match params_instance params, params_ethersSigner params,
        params_contractAddress params with
  | Some _, Some _, Some _ => true
  | _, _, _ => false
  end.

Definition encryptWith (params : EncryptionParams)
    (buildFn : M Builder unit) : M N (option EncryptedInput) :=
  match params_instance params, params_ethersSigner params,
        params_contractAddress params with
  | Some instance, Some ethersSigner, Some contractAddress =>
      userAddress ← settle (getAddress ethersSigner);
      let input := createEncryptedInput instance contractAddress userAddress in
      built ← with_object input buildFn;
      enc ← Builder_encrypt built.2;
      mret (Some enc)
  | _, _, _ => mret None
  end.

(** ** react/components/FHEEncryptWithAbi *)

(** An element of [values : (number | string | boolean)[]]. *)
Inductive Value : Type :=
| VNumber (n : JsNumber)
| VString (s : string)
| VBoolean (b : bool).

(** The callback handed to [createEncryptedInputAndEncrypt]; the
    [typeof] test is the choice of constructor. *)
Definition add_values {B} `{EncryptedInputOps B} (values : list Value)
    : M B unit :=
  for_of values (fun v =>
    match v with
    | VBoolean b => addBool b
    | VString s => n ← settle (BigInt_of_string s); add64 n
    | VNumber x => n ← settle (BigInt_of_number x); add64 n
    end).

(** Modelled from the spec: [createEncryptedInputAndEncrypt] of
    core/encryption, absent from the sources: a builder is created for
    the contract and the signer's address, the callback adds the values,
    and a single [encrypt()] follows. *)
Definition createEncryptedInputAndEncrypt (instance : FhevmInstance)
    (signer : Signer) (contractAddress : string)
    (build : M Builder unit) : M N EncryptedInput :=
  userAddress ← settle (getAddress signer);
  built ← with_object
            (createEncryptedInput instance contractAddress userAddress) build;
  Builder_encrypt built.2.

(** The component's state hook, the entropy its encryptions draw on, and
    the trace of its [onEncrypted] calls. *)
Record EncryptUi (Params : Type) : Type := {
  isEncrypting : bool;
  entropy : N;
  encrypted : list Params
}.
Arguments isEncrypting {Params} _.
Arguments entropy {Params} _.
Arguments encrypted {Params} _.

Record EncryptButtonProps (Abi Params : Type) : Type := {
  eprops_instance : option FhevmInstance;
  eprops_signer : option Signer;
  eprops_contractAddress : option string;
  eprops_abi : Abi;
  eprops_fn : string;
  eprops_values : list Value;
  eprops_onEncrypted : option (Params -> Outcome unit)
}.
Arguments eprops_instance {Abi Params} _.
Arguments eprops_signer {Abi Params} _.
Arguments eprops_contractAddress {Abi Params} _.
Arguments eprops_abi {Abi Params} _.
Arguments eprops_fn {Abi Params} _.
Arguments eprops_values {Abi Params} _.
Arguments eprops_onEncrypted {Abi Params} _.

Section FHEEncryptWithAbi.

Context {Abi Params : Type}.

(** [buildParamsFromAbi] of core/encryption, absent from the sources. *)
Variable buildParamsFromAbi : EncryptedInput -> Abi -> string -> Outcome Params.

Definition setIsEncrypting (b : bool) : M (EncryptUi Params) unit :=
  modify (fun u => {| isEncrypting := b; entropy := entropy u;
                      encrypted := encrypted u |}).

(** An awaited encryption, drawing on the component's entropy. *)
Definition await_encryption {A} (m : M N A) : M (EncryptUi Params) A :=
  fun u => match m (entropy u) with
           | (o, n) => (o, {| isEncrypting := isEncrypting u; entropy := n;
                              encrypted := encrypted u |})
           end.

(** [onEncrypted?.(params)] *)
Definition call_onEncrypted (cb : option (Params -> Outcome unit))
    (params : Params) : M (EncryptUi Params) unit :=
  match cb with
  | Some f => fun u => (f params,
                        {| isEncrypting := isEncrypting u;
                           entropy := entropy u;
                           encrypted := encrypted u ++ [params] |})
  | None => ret tt
  end.

Definition FHEEncryptWithAbi_onClick (props : EncryptButtonProps Abi Params)
    : M (EncryptUi Params) unit :=
  match eprops_instance props, eprops_signer props,
        eprops_contractAddress props with
  | Some instance, Some signer, Some contractAddress =>
      setIsEncrypting true;;
      try_finally
        (enc ← await_encryption
                 (createEncryptedInputAndEncrypt instance signer
                    contractAddress (add_values (eprops_values props)));
         params ← settle (buildParamsFromAbi enc (eprops_abi props)
                            (eprops_fn props));
         call_onEncrypted (eprops_onEncrypted props) params)
        (setIsEncrypting false)
  | _, _, _ => ret tt
  end.

End FHEEncryptWithAbi.

(** The plaintext an add-call accumulates. *)
Definition plain_of (c : AddCall) : Plain :=
  match c with
  | AddBool b => PBool b
  | Add8 v => PUint 8 v
  | Add16 v => PUint 16 v
  | Add32 v => PUint 32 v
  | Add64 v => PUint 64 v
  | Add128 v => PUint 128 v
  | Add256 v => PUint 256 v
  | AddAddress a => PAddress a
  end.

(** The add-call an element stands for, when its conversion succeeds. *)
Definition add_call_of (v : Value) : Outcome AddCall :=
  match v with
  | VBoolean b => Return (AddBool b)
  | VString s => match BigInt_of_string s with
                 | Return n => Return (Add64 n)
                 | Throw e => Throw e
                 end
  | VNumber x => match BigInt_of_number x with
                 | Return n => Return (Add64 n)
                 | Throw e => Throw e
                 end
  end.

(** The add-calls of the elements before the first one whose conversion
    throws. *)
Fixpoint add_calls_before_throw (values : list Value) : list AddCall :=
  match values with
  | [] => []
  | v :: rest =>
      match add_call_of v with
      | Return c => c :: add_calls_before_throw rest
      | Throw _ => []
      end
  end.

(** "Every element of [values] produces exactly one add-call, in array
    order", read off a recording builder that starts empty. *)
Definition one_add_call_per_value (values : list Value) : Prop :=
  exists calls,
    snd (add_values values ([] : list AddCall)) = calls
    /\ Forall2 (fun v c => add_call_of v = Return c) values calls.

(** ** The decryption-signature manager *)

(** Modelled from the spec: the validity rule of a decryption signature
    and [loadOrSign] of the signature manager (FhevmDecryptionSignature),
    absent from the sources. A signature is valid at [now] for a list of
    contract addresses iff [now] lies in
    [startTimestamp, startTimestamp + durationDays*86400) and every one
    of the addresses is among its [contractAddresses]. *)
Definition expiry (sig : UserDecryptSignature) : Z :=
  startTimestamp sig + durationDays sig * 86400.

Definition unexpired (sig : UserDecryptSignature) (now : Z) : bool :=
  now <? expiry sig.

Definition covers (sig : UserDecryptSignature) (addresses : list string)
    : bool :=
  forallb (fun a => bool_decide (a ∈ contractAddresses sig)) addresses.

(** Modelled from the spec: the validity of a decryption signature at
    [now] for the contract addresses decrypted against. *)
Definition isValid (sig : UserDecryptSignature) (addresses : list string)
    (now : Z) : bool :=
  (startTimestamp sig <=? now) && unexpired sig now && covers sig addresses.

Definition to_lower_ascii (c : ascii) : ascii :=
  let n := nat_of_ascii c in
  if (65 <=? n)%nat && (n <=? 90)%nat then ascii_of_nat (n + 32) else c.

Fixpoint to_lower (s : string) : string :=
  match s with
  | EmptyString => EmptyString
  | String c rest => String (to_lower_ascii c) (to_lower rest)
  end.

(** Modelled from the spec: the normalization of a contract-address
    set: lower-case, de-duplicate, sort. *)
Definition normalize (addresses : list string) : list string :=
  merge_sort String.le (remove_dups (to_lower <$> addresses)).

(** What the manager is configured with: the stable hash behind the
    cache key, the generator of ephemeral keypairs (private, public) from
    fresh randomness, and the fixed duration policy. *)
Record SignaturePolicy : Type := {
  cache_hash : string -> list string -> string -> string;
  generateKeypair : N -> string * string;
  policy_durationDays : Z
}.

(** The storage, the wallet prompts made so far, and the entropy the
    keypairs are drawn from. *)
Record ManagerWorld : Type := {
  store : GenericStringStorage;
  prompts : list SigningPayload;
  key_entropy : N
}.

Definition storage_get (key : string)
    : M ManagerWorld (option UserDecryptSignature) :=
  fun w => (Return (store w !! key), w).

Definition storage_set (key : string) (sig : UserDecryptSignature)
    : M ManagerWorld unit :=
  modify (fun w => {| store := <[key := sig]> (store w);
                      prompts := prompts w;
                      key_entropy := key_entropy w |}).

Definition storage_remove (key : string) : M ManagerWorld unit :=
  modify (fun w => {| store := delete key (store w);
                      prompts := prompts w;
                      key_entropy := key_entropy w |}).

Definition fresh_keypair (policy : SignaturePolicy)
    : M ManagerWorld (string * string) :=
  fun w => (Return (generateKeypair policy (key_entropy w)),
            {| store := store w; prompts := prompts w;
               key_entropy := N.succ (key_entropy w) |}).

(** The wallet prompt: it is shown, whatever the user answers. *)
Definition request_signature (signer : Signer) (payload : SigningPayload)
    : M ManagerWorld string :=
  fun w => (signTypedData signer payload,
            {| store := store w; prompts := prompts w ++ [payload];
               key_entropy := key_entropy w |}).

(** Modelled from the spec: step 3 of [loadOrSign]: a fresh keypair, the
    payload starting now with the policy's duration, the wallet prompt,
    and on success the signature assembled and persisted. *)
Definition sign_and_persist (policy : SignaturePolicy) (signer : Signer)
    (key user : string) (addresses : list string) (now : Z)
    : M ManagerWorld UserDecryptSignature :=
  keypair ← fresh_keypair policy;
  let payload := {| payload_publicKey := keypair.2;
                    payload_contractAddresses := addresses;
                    payload_startTimestamp := now;
                    payload_durationDays := policy_durationDays policy |} in
  walletSignature ← request_signature signer payload;
  let sig := {| privateKey := keypair.1;
                publicKey := keypair.2;
                signature := walletSignature;
                contractAddresses := addresses;
                userAddress := user;
                startTimestamp := now;
                durationDays := policy_durationDays policy |} in
  storage_set key sig;;
  mret sig.

(** Modelled from the spec: the cache key, a stable hash of the user's
    address, the normalized contract-address set and the instance's key
    id. *)
Definition cache_key (policy : SignaturePolicy) (instance : FhevmInstance)
    (user : string) (contractAddresses : list string) : string :=
  cache_hash policy user (normalize contractAddresses)
    (instance_keyId instance).

(** Modelled from the spec: [loadOrSign] of the signature manager: an
    unexpired entry under the cache key is returned as it is; an expired
    one is removed; without a usable entry a new signature is signed and
    persisted. *)
Definition loadOrSign (policy : SignaturePolicy) (instance : FhevmInstance)
    (contractAddresses : list string) (signer : Signer) (now : Z)
    : M ManagerWorld UserDecryptSignature :=
  let addresses := normalize contractAddresses in
  user ← settle (getAddress signer);
  let key := cache_key policy instance user contractAddresses in
  cached ← storage_get key;
  match cached with
  | Some sig =>
      if unexpired sig now then mret sig
      else storage_remove key;;
           sign_and_persist policy signer key user addresses now
  | None => sign_and_persist policy signer key user addresses now
  end.

(** ** custom-contracts/PRSCompute.sol *)

(** *** The FHE library, symbolically *)

(** An [euint32] handle is determined by how it was obtained: the zero
    handle of uninitialised storage, a trivial encryption, a verified
    external input, or an operation on handles. *)
Inductive euint32 : Type :=
| E32_zero
| E32_trivial (v : Z)
| E32_input (external : N) (proof : Bytes)
| E32_mul (a b : euint32)
| E32_add (a b : euint32).

Inductive ebool : Type :=
| EB_zero
| EB_gt (a b : euint32).

Definition uint32_wrap (z : Z) : Z := z mod 2 ^ 32.

(** The cleartext under a handle, given the cleartexts of the external
    inputs: 32-bit arithmetic wraps around. *)
Fixpoint cleartext32 (inputs : N -> Z) (e : euint32) : Z :=
  match e with
  | E32_zero => 0
  | E32_trivial v => uint32_wrap v
  | E32_input external _ => uint32_wrap (inputs external)
  | E32_mul a b => uint32_wrap (cleartext32 inputs a * cleartext32 inputs b)
  | E32_add a b => uint32_wrap (cleartext32 inputs a + cleartext32 inputs b)
  end.

Definition cleartext_bool (inputs : N -> Z) (e : ebool) : bool :=
  match e with
  | EB_zero => false
  | EB_gt a b => cleartext32 inputs b <? cleartext32 inputs a
  end.

(** *** Storage, events and transactions *)

Definition NUM_SNPS : N := 20.
Definition RISK_THRESHOLD : Z := 50.

Record EncryptedGenotype : Type := {
  snps : list euint32;
  owner : N;
  timestamp : Z;
  riskComputed : bool;
  prsScore : euint32;
  isHighRisk : ebool
}.

(** What a mapping holds at a key never written. *)
Definition empty_genotype : EncryptedGenotype :=
  {| snps := replicate (N.to_nat NUM_SNPS) E32_zero; owner := 0%N;
     timestamp := 0; riskComputed := false;
     prsScore := E32_zero; isHighRisk := EB_zero |}.

Inductive ContractEvent : Type :=
| GenotypeUploaded (individualId : N) (uploader : N) (time : Z)
| RiskComputed (individualId : N) (requester : N) (time : Z)
| PRSComputed (individualId : N) (snpCount : N) (threshold : Z)
| EffectSizeUpdated (snpIndex : N) (newValue : Z).

(** A grant of the access-control list: who may use which handle. *)
Inductive Grant : Type :=
| Grant32 (h : euint32) (account : N)
| GrantBool (h : ebool) (account : N).

Record PRSState : Type := {
  effectSizes : list Z;
  genotypeData : gmap N EncryptedGenotype;
  acl : list Grant;
  emitted : list ContractEvent
}.

Definition initial_state : PRSState :=
  {| effectSizes := [3; 2; 4; 2; 3; 2; 3; 2; 4; 2;
                     3; 2; 3; 2; 4; 2; 3; 2; 3; 2];
     genotypeData := ∅; acl := []; emitted := [] |}.

(** The transaction's environment: sender, the contract's own address,
    block time, and the input verifier's verdict on an external handle
    and its proof. *)
Record TxContext : Type := {
  msg_sender : N;
  this_address : N;
  block_timestamp : Z;
  input_verified : N -> Bytes -> bool
}.

Inductive TxResult (A : Type) : Type :=
| Success (a : A) (s : PRSState)
| Revert (reason : string).
Arguments Success {A} a s.
Arguments Revert {A} reason.

Definition Tx (A : Type) : Type := PRSState -> TxResult A.

#[global] Instance Tx_ret : MRet Tx := fun A a s => Success a s.
#[global] Instance Tx_bind : MBind Tx :=
  fun A B k m s => match m s with
                   | Success a s' => k a s'
                   | Revert reason => Revert reason
                   end.

Definition require (cond : bool) (reason : string) : Tx unit :=
  fun s => if cond then Success tt s else Revert reason.

Definition read {A} (f : PRSState -> A) : Tx A := fun s => Success (f s) s.

Definition write (f : PRSState -> PRSState) : Tx unit :=
  fun s => Success tt (f s).

(** An array read: out of bounds is a panic. *)
Definition index {A} (l : list A) (i : N) : Tx A :=
  fun s => match l !! N.to_nat i with
           | Some x => Success x s
           | None => Revert "Panic(0x32)"
           end.

(** The outcome of a transaction on the chain: a revert leaves the state
    as it was. *)
Definition execute (tx : Tx unit) (s : PRSState) : PRSState * option string :=
  match tx s with
  | Success _ s' => (s', None)
  | Revert reason => (s, Some reason)
  end.

Definition genotype_at (individualId : N) (s : PRSState) : EncryptedGenotype :=
  default empty_genotype (genotypeData s !! individualId).

Definition update_genotype (individualId : N)
    (f : EncryptedGenotype -> EncryptedGenotype) : Tx unit :=
  write (fun s =>
    {| effectSizes := effectSizes s;
       genotypeData :=
         <[individualId := f (genotype_at individualId s)]> (genotypeData s);
       acl := acl s; emitted := emitted s |}).

Definition emit_event (ev : ContractEvent) : Tx unit :=
  write (fun s => {| effectSizes := effectSizes s;
                     genotypeData := genotypeData s;
                     acl := acl s; emitted := emitted s ++ [ev] |}).

Definition grant (g : Grant) : Tx unit :=
  write (fun s => {| effectSizes := effectSizes s;
                     genotypeData := genotypeData s;
                     acl := acl s ++ [g]; emitted := emitted s |}).

(** [for (uint256 i = start; i < start + count; i++) acc = body i acc] *)
Fixpoint for_loop {A} (count : nat) (i : N) (body : N -> A -> Tx A)
    (acc : A) : Tx A :=
  match count with
  | O => mret acc
  | S count' => acc' ← body i acc; for_loop count' (N.succ i) body acc'
  end.

(** *** The FHE library calls of the contract *)

Definition FHE_asEuint32 (v : Z) : euint32 := E32_trivial v.
Definition FHE_mul (a b : euint32) : euint32 := E32_mul a b.
Definition FHE_add (a b : euint32) : euint32 := E32_add a b.
Definition FHE_gt (a b : euint32) : ebool := EB_gt a b.

(** [FHE.fromExternal]: reverts unless the input verifier accepts the
    handle with its proof. *)
Definition FHE_fromExternal (ctx : TxContext) (external : N) (proof : Bytes)
    : Tx euint32 :=
  require (input_verified ctx external proof) "InvalidInputProof";;
  mret (E32_input external proof).

Definition FHE_allow32 (h : euint32) (account : N) : Tx unit :=
  grant (Grant32 h account).
Definition FHE_allowThis32 (ctx : TxContext) (h : euint32) : Tx unit :=
  grant (Grant32 h (this_address ctx)).
Definition FHE_allowBool (h : ebool) (account : N) : Tx unit :=
  grant (GrantBool h account).
Definition FHE_allowThisBool (ctx : TxContext) (h : ebool) : Tx unit :=
  grant (GrantBool h (this_address ctx)).

(** *** The contract's functions *)

Definition set_owner (a : N) (g : EncryptedGenotype) : EncryptedGenotype :=
  {| snps := snps g; owner := a; timestamp := timestamp g;
     riskComputed := riskComputed g; prsScore := prsScore g;
     isHighRisk := isHighRisk g |}.

Definition set_timestamp (t : Z) (g : EncryptedGenotype) : EncryptedGenotype :=
  {| snps := snps g; owner := owner g; timestamp := t;
     riskComputed := riskComputed g; prsScore := prsScore g;
     isHighRisk := isHighRisk g |}.

Definition set_riskComputed (b : bool) (g : EncryptedGenotype)
    : EncryptedGenotype :=
  {| snps := snps g; owner := owner g; timestamp := timestamp g;
     riskComputed := b; prsScore := prsScore g;
     isHighRisk := isHighRisk g |}.

Definition set_prsScore (h : euint32) (g : EncryptedGenotype)
    : EncryptedGenotype :=
  {| snps := snps g; owner := owner g; timestamp := timestamp g;
     riskComputed := riskComputed g; prsScore := h;
     isHighRisk := isHighRisk g |}.

Definition set_isHighRisk (h : ebool) (g : EncryptedGenotype)
    : EncryptedGenotype :=
  {| snps := snps g; owner := owner g; timestamp := timestamp g;
     riskComputed := riskComputed g; prsScore := prsScore g;
     isHighRisk := h |}.

Definition set_snp (i : N) (h : euint32) (g : EncryptedGenotype)
    : EncryptedGenotype :=
  {| snps := <[N.to_nat i := h]> (snps g); owner := owner g;
     timestamp := timestamp g; riskComputed := riskComputed g;
     prsScore := prsScore g; isHighRisk := isHighRisk g |}.

(** [genotype.snps[i] = h], with the bounds check of an array write. *)
Definition store_snp (individualId : N) (i : N) (h : euint32) : Tx unit :=
  g ← read (genotype_at individualId);
  _ ← index (snps g) i;
  update_genotype individualId (set_snp i h).

Definition uploadEncryptedGenotype (ctx : TxContext) (individualId : N)
    (encryptedSnps : list N) (inputProof : Bytes) : Tx unit :=
  require (N.of_nat (length encryptedSnps) =? NUM_SNPS)%N
    "Invalid number of SNPs";;
  g ← read (genotype_at individualId);
  require (owner g =? 0)%N "Individual already exists";;
  update_genotype individualId (set_owner (msg_sender ctx));;
  update_genotype individualId (set_timestamp (block_timestamp ctx));;
  update_genotype individualId (set_riskComputed false);;
  for_loop (N.to_nat NUM_SNPS) 0%N (fun i _ =>
    external ← index encryptedSnps i;
    h ← FHE_fromExternal ctx external inputProof;
    store_snp individualId i h;;
    genotype ← read (genotype_at individualId);
    snp ← index (snps genotype) i;
    FHE_allowThis32 ctx snp;;
    snp' ← index (snps genotype) i;
    FHE_allow32 snp' (msg_sender ctx)) tt;;
  emit_event (GenotypeUploaded individualId (msg_sender ctx)
                (block_timestamp ctx)).

(** One round of the loop of [computePRS]: multiply the genotype by its
    effect size and add the product to the running total. *)
Definition prs_round (individualId : N) (i : N) (encryptedPRS : euint32)
    : Tx euint32 :=
  genotype ← read (genotype_at individualId);
  snp ← index (snps genotype) i;
  sizes ← read effectSizes;
  beta ← index sizes i;
  let weighted := FHE_mul snp (FHE_asEuint32 beta) in
  mret (FHE_add encryptedPRS weighted).

Definition computePRS (ctx : TxContext) (individualId : N) : Tx unit :=
  g ← read (genotype_at individualId);
  require (negb (owner g =? 0)%N) "Individual not found";;
  g ← read (genotype_at individualId);
  require (negb (riskComputed g)) "Risk already computed";;
  encryptedPRS ←
    for_loop (N.to_nat NUM_SNPS) 0%N (prs_round individualId)
      (FHE_asEuint32 0);
  update_genotype individualId (set_prsScore encryptedPRS);;
  update_genotype individualId
    (set_isHighRisk (FHE_gt encryptedPRS (FHE_asEuint32 RISK_THRESHOLD)));;
  update_genotype individualId (set_riskComputed true);;
  genotype ← read (genotype_at individualId);
  FHE_allowThisBool ctx (isHighRisk genotype);;
  FHE_allowBool (isHighRisk genotype) (msg_sender ctx);;
  FHE_allowBool (isHighRisk genotype) (owner genotype);;
  FHE_allowThis32 ctx (prsScore genotype);;
  FHE_allow32 (prsScore genotype) (msg_sender ctx);;
  FHE_allow32 (prsScore genotype) (owner genotype);;
  emit_event (RiskComputed individualId (msg_sender ctx)
                (block_timestamp ctx));;
  emit_event (PRSComputed individualId NUM_SNPS RISK_THRESHOLD).

Definition getRiskResult (individualId : N) : Tx ebool :=
  g ← read (genotype_at individualId);
  require (negb (owner g =? 0)%N) "Individual not found";;
  require (riskComputed g) "Risk not yet computed";;
  mret (isHighRisk g).

Definition getEncryptedPRS (individualId : N) : Tx euint32 :=
  g ← read (genotype_at individualId);
  require (negb (owner g =? 0)%N) "Individual not found";;
  require (riskComputed g) "Risk not yet computed";;
  mret (prsScore g).

Definition isRiskComputed (individualId : N) : Tx bool :=
  g ← read (genotype_at individualId); mret (riskComputed g).

Definition getGenotypeOwner (individualId : N) : Tx N :=
  g ← read (genotype_at individualId); mret (owner g).

Definition updateEffectSize (ctx : TxContext) (snpIndex : N) (newValue : Z)
    : Tx unit :=
  require (snpIndex <? NUM_SNPS)%N "Invalid SNP index";;
  write (fun s => {| effectSizes := <[N.to_nat snpIndex := newValue]> (effectSizes s);
                     genotypeData := genotypeData s;
                     acl := acl s; emitted := emitted s |});;
  emit_event (EffectSizeUpdated snpIndex newValue).

Definition getEffectSizes : Tx (list Z) := read effectSizes.

Definition getRiskThreshold : Tx Z := mret RISK_THRESHOLD.

(** *** What the claims about the contract speak of *)

(** The arrays of a state have their declared length. *)
Definition well_formed (s : PRSState) : Prop :=
  length (effectSizes s) = N.to_nat NUM_SNPS
  /\ forall individualId g,
       genotypeData s !! individualId = Some g ->
       length (snps g) = N.to_nat NUM_SNPS.

(** The transactions the contract accepts, and the chain's state after a
    sequence of them (a reverted one changes nothing). *)
Inductive Call : Type :=
| CallUpload (ctx : TxContext) (individualId : N)
    (encryptedSnps : list N) (inputProof : Bytes)
| CallComputePRS (ctx : TxContext) (individualId : N)
| CallUpdateEffectSize (ctx : TxContext) (snpIndex : N) (newValue : Z).

Definition run_call (c : Call) : Tx unit :=
  match c with
  | CallUpload ctx individualId encryptedSnps inputProof =>
      uploadEncryptedGenotype ctx individualId encryptedSnps inputProof
  | CallComputePRS ctx individualId => computePRS ctx individualId
  | CallUpdateEffectSize ctx snpIndex newValue =>
      updateEffectSize ctx snpIndex newValue
  end.

Definition apply_calls (calls : list Call) (s : PRSState) : PRSState :=
  fold_left (fun s c => fst (execute (run_call c) s)) calls s.

(** [tx] keeps the property [P] of states whenever it succeeds. *)
Definition preserves {A} (P : PRSState -> Prop) (tx : Tx A) : Prop :=
  forall s a s', P s -> tx s = Success a s' -> P s'.

(** The handle of the encrypted dot product, accumulated from the left
    starting from a trivial encryption of zero. *)
Definition prs_handle (genotypes : list euint32) (sizes : list Z) : euint32 :=
  fold_left (fun acc p => FHE_add acc (FHE_mul p.1 (FHE_asEuint32 p.2)))
            (zip genotypes sizes) (FHE_asEuint32 0).

(** The sum over i of snps[i] * effectSizes[i], on cleartexts. *)
Definition weighted_sum (inputs : N -> Z) (genotypes : list euint32)
    (sizes : list Z) : Z :=
  foldr (fun p acc => cleartext32 inputs p.1 * p.2 + acc) 0
        (zip genotypes sizes).

(** *** Sample data for worked evaluations *)

Definition byte_of_nat (n : nat) : Byte.byte :=
  default Byte.x00 (Byte.of_N (N.of_nat n mod 256)%N).

(** A toy engine: a handle records seed, position and kind of value; the
    proof records seed and batch size. *)
Definition toy_engine : Engine := {|
  engine_ready := true;
  engine_handle := fun seed _ _ i v =>
    [byte_of_nat (N.to_nat seed); byte_of_nat i;
     match v with PBool _ => Byte.x00 | PUint _ _ => Byte.x01
                | PAddress _ => Byte.x02 end];
  engine_proof := fun seed _ _ vs =>
    (byte_of_nat (N.to_nat seed), [byte_of_nat (length vs)])
|}.

(** The toy engine behind an instance that is not Ready. *)
Definition stale_engine : Engine := {|
  engine_ready := false;
  engine_handle := engine_handle toy_engine;
  engine_proof := engine_proof toy_engine
|}.

Definition stale_instance : FhevmInstance := {|
  relay_userDecrypt := fun _ _ _ _ _ _ _ _ => Return ∅;
  relay_publicDecrypt := fun _ => Return ∅;
  instance_engine := stale_engine;
  instance_keyId := "key-1"
|}.

(** A relay that answers every request with an empty mapping. *)
Definition lenient_instance : FhevmInstance := {|
  relay_userDecrypt := fun _ _ _ _ _ _ _ _ => Return ∅;
  relay_publicDecrypt := fun _ => Return ∅;
  instance_engine := toy_engine;
  instance_keyId := "key-1"
|}.

Definition request_aa : DecryptRequest :=
  {| handle := "0x01"; contractAddress := "0xaa" |}.

Definition signature_for (addresses : list string) : UserDecryptSignature :=
  {| privateKey := "priv"; publicKey := "pub"; signature := "0xsig";
     contractAddresses := addresses; userAddress := "0xu5e7";
     startTimestamp := 1700000000; durationDays := 365 |}.

Definition request_cc : DecryptRequest :=
  {| handle := "0x02"; contractAddress := "0xcc" |}.

Definition sample_signer : Signer :=
  {| getAddress := Return "0xu5e7";
     signTypedData := fun _ => Return "0xsig" |}.

(** A manager that grants a signature for whatever set it is asked. *)
Definition granting_loadOrSign : LoadOrSign :=
  fun _ addresses _ _ => Return (Some (signature_for addresses)).

Definition sample_requests : list DecryptRequest :=
  [request_aa; request_cc; request_aa].

Definition sample_props : DecryptButtonProps :=
  {| props_instance := Some lenient_instance;
     props_signer := Some sample_signer;
     props_storage := ∅;
     props_requests := Some sample_requests;
     props_onResults := None |}.

Definition idle_ui : DecryptUi :=
  {| isDecrypting := false; message := ""; error := None; events := [] |}.

(** The scenario of the specification: the values true, 5 and 1000000. *)
Definition scenario_adds : list AddCall :=
  [AddBool true; Add64 5; Add64 1000000].

Definition scenario_values : list Value :=
  [VBoolean true; VNumber (int_number 5); VString "1000000"].

Definition sample_policy : SignaturePolicy :=
  {| cache_hash := fun user addresses keyId =>
       user +:+ "|" +:+ String.concat "," addresses +:+ "|" +:+ keyId;
     generateKeypair := fun _ => ("priv", "pub");
     policy_durationDays := 365 |}.

Definition empty_world : ManagerWorld :=
  {| store := ∅; prompts := []; key_entropy := 0 |}.

Definition sample_ctx : TxContext :=
  {| msg_sender := 1001; this_address := 4242;
     block_timestamp := 1700000000;
     input_verified := fun _ _ => true |}.

Definition sample_proof : Bytes := [Byte.x01; Byte.x02].

Definition sample_externals : list N :=
  map N.of_nat (seq 100 (N.to_nat NUM_SNPS)).

(** The record an upload by [sample_ctx] leaves for individual 7. *)
Definition sample_genotype : EncryptedGenotype :=
  {| snps := map (fun h => E32_input h sample_proof) sample_externals;
     owner := 1001; timestamp := 1700000000; riskComputed := false;
     prsScore := E32_zero; isHighRisk := EB_zero |}.

Definition sample_state : PRSState :=
  {| effectSizes := effectSizes initial_state;
     genotypeData := {[ 7%N := sample_genotype ]};
     acl := []; emitted := [] |}.

(** *** What the transactions come to *)

(** The record an upload leaves where [g] was. *)
Definition uploaded_genotype (ctx : TxContext) (encryptedSnps : list N)
    (inputProof : Bytes) (g : EncryptedGenotype) : EncryptedGenotype :=
  {| snps := map (fun e => E32_input e inputProof) encryptedSnps;
     owner := msg_sender ctx; timestamp := block_timestamp ctx;
     riskComputed := false;
     prsScore := prsScore g; isHighRisk := isHighRisk g |}.

(** The grants of an upload: every SNP to the contract, then to the
    sender. *)
Definition upload_grants (ctx : TxContext) (encryptedSnps : list N)
    (inputProof : Bytes) : list Grant :=
  concat (map (fun e => [Grant32 (E32_input e inputProof) (this_address ctx);
                         Grant32 (E32_input e inputProof) (msg_sender ctx)])
              encryptedSnps).

Definition upload_outcome (ctx : TxContext) (individualId : N)
    (encryptedSnps : list N) (inputProof : Bytes) (s : PRSState)
    : TxResult unit :=
  if negb (N.of_nat (length encryptedSnps) =? NUM_SNPS)%N
  then Revert "Invalid number of SNPs"
  else if negb (owner (genotype_at individualId s) =? 0)%N
  then Revert "Individual already exists"
  else if forallb (fun e => input_verified ctx e inputProof) encryptedSnps
  then Success tt
         {| effectSizes := effectSizes s;
            genotypeData :=
              <[individualId :=
                  uploaded_genotype ctx encryptedSnps inputProof
                    (genotype_at individualId s)]> (genotypeData s);
            acl := acl s ++ upload_grants ctx encryptedSnps inputProof;
            emitted := emitted s ++
              [GenotypeUploaded individualId (msg_sender ctx)
                 (block_timestamp ctx)] |}
  else Revert "InvalidInputProof".

(** The record a risk computation with the effect sizes [sizes] leaves
    where [g] was. *)
Definition computed_genotype (sizes : list Z) (g : EncryptedGenotype)
    : EncryptedGenotype :=
  {| snps := snps g; owner := owner g; timestamp := timestamp g;
     riskComputed := true;
     prsScore := prs_handle (snps g) sizes;
     isHighRisk := FHE_gt (prs_handle (snps g) sizes)
                          (FHE_asEuint32 RISK_THRESHOLD) |}.

(** The grants of a risk computation: classification and score, each to
    the contract, the sender and the genotype's owner. *)
Definition computePRS_grants (ctx : TxContext) (g : EncryptedGenotype)
    : list Grant :=
  [GrantBool (isHighRisk g) (this_address ctx);
   GrantBool (isHighRisk g) (msg_sender ctx);
   GrantBool (isHighRisk g) (owner g);
   Grant32 (prsScore g) (this_address ctx);
   Grant32 (prsScore g) (msg_sender ctx);
   Grant32 (prsScore g) (owner g)].

Definition computePRS_outcome (ctx : TxContext) (individualId : N)
    (s : PRSState) : TxResult unit :=
  let g := genotype_at individualId s in
  if (owner g =? 0)%N then Revert "Individual not found"
  else if riskComputed g then Revert "Risk already computed"
  else Success tt
         {| effectSizes := effectSizes s;
            genotypeData :=
              <[individualId := computed_genotype (effectSizes s) g]>
                (genotypeData s);
            acl := acl s
                   ++ computePRS_grants ctx
                        (computed_genotype (effectSizes s) g);
            emitted := emitted s ++
              [RiskComputed individualId (msg_sender ctx)
                 (block_timestamp ctx);
               PRSComputed individualId NUM_SNPS RISK_THRESHOLD] |}.

(** The states the deployed contract can be in. *)
Definition reachable (s : PRSState) : Prop :=
  exists calls, s = apply_calls calls initial_state.

(** What holds of every record whose risk is computed, in the states the
    contract can reach: it has an owner, its classification is the
    comparison of its score with the threshold, and its score is the dot
    product of its SNPs with 20 effect sizes. *)
Definition risk_consistent (s : PRSState) : Prop :=
  forall individualId,
    let g := genotype_at individualId s in
    riskComputed g = true ->
    owner g <> 0%N
    /\ isHighRisk g = FHE_gt (prsScore g) (FHE_asEuint32 RISK_THRESHOLD)
    /\ exists sizes, length sizes = N.to_nat NUM_SNPS
                     /\ prsScore g = prs_handle (snps g) sizes.

(** Individual 7 uploaded; individual 8 uploaded and its risk computed. *)
Definition two_individuals_state : PRSState :=
  apply_calls [CallUpload sample_ctx 8 sample_externals sample_proof;
               CallComputePRS sample_ctx 8] sample_state.

(** ** react/components/FHEDecryptButton and FHEEncryptWithAbi: [canRun] *)

(** [Boolean(instance && signer && requests && requests.length > 0)] *)
Definition FHEDecryptButton_canRun (props : DecryptButtonProps) : bool :=
  match props_instance props, props_signer props, props_requests props with
  | Some _, Some _, Some requests => (0 <? length requests)%nat
  | _, _, _ => false
  end.

(** [Boolean(instance && signer && contractAddress)] *)
Definition FHEEncryptWithAbi_canRun {Abi Params}
    (props : EncryptButtonProps Abi Params) : bool :=
  match eprops_instance props, eprops_signer props,
        eprops_contractAddress props with
  | Some _, Some _, Some _ => true
  | _, _, _ => false
  end.

(** The state the decrypt button is left in when a click reports a
    failure: the flag is down, the message says so, and the error reads
    "name: message". *)
Definition decrypt_failed (e : JsThrown) (evs : list ButtonEvent) : DecryptUi :=
  {| isDecrypting := false;
     message := "FHEVM userDecrypt failed";
     error := Some (error_code e +:+ ": " +:+ error_msg e);
     events := evs |}.

(** A relay that refuses every request. *)
Definition refusing_instance : FhevmInstance := {|
  relay_userDecrypt := fun _ _ _ _ _ _ _ _ =>
    Throw (ThrownObject (Some "AccessDenied") (Some "not allowed"));
  relay_publicDecrypt := fun _ =>
    Throw (ThrownObject (Some "AccessDenied") (Some "not allowed"));
  instance_engine := toy_engine;
  instance_keyId := "key-1"
|}.

Definition refused_props : DecryptButtonProps :=
  {| props_instance := Some refusing_instance;
     props_signer := Some sample_signer;
     props_storage := ∅;
     props_requests := Some sample_requests;
     props_onResults := Some (fun _ => Return tt) |}.

Definition listening_props : DecryptButtonProps :=
  {| props_instance := Some lenient_instance;
     props_signer := Some sample_signer;
     props_storage := ∅;
     props_requests := Some sample_requests;
     props_onResults := Some (fun _ => Return tt) |}.

Definition no_params : EncryptionParams :=
  {| params_instance := None; params_ethersSigner := Some sample_signer;
     params_contractAddress := Some "0xAA" |}.

Definition unready_button : EncryptButtonProps unit unit :=
  {| eprops_instance := None; eprops_signer := Some sample_signer;
     eprops_contractAddress := Some "0xAA"; eprops_abi := tt;
     eprops_fn := "foo"; eprops_values := scenario_values;
     eprops_onEncrypted := None |}.

(** ** hooks/prscompute/usePRSComputeWagmi: the genotype being edited *)

(** [a <= b] on numbers, neither of them NaN. *)
Definition num_leb (a b : JsNumber) : bool :=
  match a, b with
  | Infinity true, _ => true
  | _, Infinity false => true
  | Infinity false, _ => false
  | _, Infinity true => false
  | Finite n d, Finite m e => n * Z.pos e <=? m * Z.pos d
  | _, _ => false
  end.

(** [a === b] on numbers: NaN equals nothing. *)
Definition same_number (a b : JsNumber) : bool :=
  match a, b with
  | Finite n d, Finite m e => n * Z.pos e =? m * Z.pos d
  | Infinity x, Infinity y => Bool.eqb x y
  | _, _ => false
  end.

Definition Math_floor (x : JsNumber) : JsNumber :=
  match x with
  | Finite n d => Finite (n / Z.pos d) 1
  | _ => x
  end.

Definition Math_min (a b : JsNumber) : JsNumber :=
  match a, b with
  | NaN, _ | _, NaN => NaN
  | _, _ => if num_leb a b then a else b
  end.

Definition Math_max (a b : JsNumber) : JsNumber :=
  match a, b with
  | NaN, _ | _, NaN => NaN
  | _, _ => if num_leb a b then b else a
  end.

Definition Number_isFinite (x : JsNumber) : bool :=
  match x with
  | Finite _ _ => true
  | _ => false
  end.

(** [Math.max(0, Math.min(2, Math.floor(val)))] *)
Definition clamp_genotype (val : JsNumber) : JsNumber :=
  Math_max (int_number 0) (Math_min (int_number 2) (Math_floor val)).

(** The updater [onSetSnp] hands to [setSnps]:
    [prev.map((v, i) => (i === idx ? clamp(val) : v))]. *)
Definition onSetSnp (idx val : JsNumber) (prev : list JsNumber)
    : list JsNumber :=
  imap (fun i v => if same_number (int_number (Z.of_nat i)) idx
                   then clamp_genotype val else v) prev.

(** [NUM_SNPS] of the hook. *)
Definition HOOK_NUM_SNPS : nat := 20.

(** [Array(NUM_SNPS).fill(0)], the initial genotype and the one after
    [reset]. *)
Definition blank_snps : list JsNumber := replicate HOOK_NUM_SNPS (int_number 0).

(** The three genotype values. *)
Definition is_genotype (x : JsNumber) : Prop :=
  x = int_number 0 \/ x = int_number 1 \/ x = int_number 2.

(** ** app/_components/PRSComputeDemo *)

(** [for (let i = 0; i < NUM_SNPS; i++) prs.onSetSnp(i, value i)]: the
    updaters queued on the genotype state, applied in order. *)
Definition set_all_snps (value : nat -> JsNumber) (snps : list JsNumber)
    : list JsNumber :=
  fold_left (fun acc i => onSetSnp (int_number (Z.of_nat i)) (value i) acc)
            (seq 0 HOOK_NUM_SNPS) snps.

Definition fillLowRisk : list JsNumber -> list JsNumber :=
  set_all_snps (fun _ => int_number 0).

Definition fillHighRisk : list JsNumber -> list JsNumber :=
  set_all_snps (fun _ => int_number 2).

(** A string as JavaScript has it: UTF-16 code units. *)
Abbreviation JsText := (list N).

(** White space and line terminators, what [trim] strips. *)
Definition is_js_space (c : N) : bool :=
  ((9 <=? c) && (c <=? 13) || (c =? 32) || (c =? 160) || (c =? 5760)
   || (8192 <=? c) && (c <=? 8202) || (c =? 8232) || (c =? 8233)
   || (c =? 8239) || (c =? 8287) || (c =? 12288) || (c =? 65279))%N.

Fixpoint js_trim_start (t : JsText) : JsText :=
  match t with
  | c :: rest => if is_js_space c then js_trim_start rest else t
  | [] => []
  end.

Definition js_trim (t : JsText) : JsText :=
  rev (js_trim_start (rev (js_trim_start t))).

(** [t.split(sep)] for a one-unit separator: the pieces between the
    separators, empty ones included. *)
Fixpoint js_split (sep : N) (t : JsText) : list JsText :=
  match t with
  | [] => [[]]
  | c :: rest =>
      if (c =? sep)%N then [] :: js_split sep rest
      else match js_split sep rest with
           | piece :: pieces => (c :: piece) :: pieces
           | [] => [[c]]
           end
  end.

(** What the demo takes from the platform when it reads a file: how
    [Number] reads a piece of text, what [JSON.parse] followed by
    [Array.isArray] and [map(Number)] gives (nothing when the text is no
    JSON array), and how a thrown value reads as
    [e instanceof Error ? e.message : String(e)]. *)
Record FileReading : Type := {
  Number_of_text : JsText -> JsNumber;
  json_numbers : JsText -> option (list JsNumber);
  thrown_text : JsThrown -> string
}.

(** The CSV reading of a text: line ends become commas, the pieces are
    trimmed, the empty ones dropped, the rest read as numbers. *)
Definition csv_numbers (env : FileReading) (text : JsText) : list JsNumber :=
  let cleaned := map (fun c => if (c =? 10)%N || (c =? 13)%N then 44%N else c)
                     text in
  let parts := filter (fun piece => piece <> [])
                      (map js_trim (js_split 44 cleaned)) in
  map (Number_of_text env) parts.

(** The numbers of a file: its JSON array if it is one, its CSV reading
    otherwise. *)
Definition file_numbers (env : FileReading) (text : JsText)
    : list JsNumber :=
  match json_numbers env text with
  | Some arr => arr
  | None => csv_numbers env text
  end.

Record DemoState : Type := {
  demo_snps : list JsNumber;
  fileError : string;
  fileInputValue : option string
}.

(** [onFileSelected]: [file] is the file's text as [file.text()] settles
    it, or nothing when no file was chosen; [fileInputValue] is the value
    of the input element behind [fileInputRef], if there is one. *)
Definition onFileSelected (env : FileReading)
    (file : option (Outcome JsText)) (st : DemoState) : DemoState :=
  let st := {| demo_snps := demo_snps st; fileError := "";
               fileInputValue := fileInputValue st |} in
  match file with
  | None => st
  | Some text_outcome =>
      let tried :=
        match text_outcome with
        | Throw e =>
            {| demo_snps := demo_snps st; fileError := thrown_text env e;
               fileInputValue := fileInputValue st |}
        | Return text =>
            let arr := file_numbers env text in
            if negb (length arr =? HOOK_NUM_SNPS)%nat
               || existsb (fun n => negb (Number_isFinite n)) arr
            then {| demo_snps := demo_snps st;
                    fileError := "Expected exactly 20 numeric entries";
                    fileInputValue := fileInputValue st |}
            else {| demo_snps :=
                      set_all_snps
                        (fun i => clamp_genotype (default NaN (arr !! i)))
                        (demo_snps st);
                    fileError := fileError st;
                    fileInputValue := fileInputValue st |}
        end in
      {| demo_snps := demo_snps tried; fileError := fileError tried;
         fileInputValue := match fileInputValue tried with
                           | Some _ => Some ""
                           | None => None
                           end |}
  end.

(** A platform that reads no text as a number and no text as JSON. *)
Definition deaf_reading : FileReading :=
  {| Number_of_text := fun _ => NaN; json_numbers := fun _ => None;
     thrown_text := fun _ => "unreadable" |}.

(** A platform whose JSON reader gives twenty 5s. *)
Definition fives_reading : FileReading :=
  {| Number_of_text := fun _ => NaN;
     json_numbers := fun _ => Some (replicate 20 (int_number 5));
     thrown_text := fun _ => "unreadable" |}.

Definition blank_demo : DemoState :=
  {| demo_snps := blank_snps; fileError := "old error";
     fileInputValue := Some "genotype.json" |}.

(** ** hooks/prscompute/usePRSComputeWagmi: upload and compute *)

Module Hook.

(** [prsContract], the deployed contract's entry. *)
Record ContractInfo : Type := {
  info_address : string;
  info_has_abi : bool
}.

(** A call on the write contract. *)
Inductive ContractWrite : Type :=
| WriteUpload (individualIdHash : option string) (hexHandles : list string)
              (inputProof : string)
| WriteComputePRS (individualIdHash : option string).

(** What a render of the hook closes over. [add] is the builder method
    named by [getEncryptionMethod("externalEuint32")], [toHex] and the
    write contract are the SDK's and ethers': a write either throws or
    gives a transaction, whose [wait()] then settles. *)
Record HookEnv : Type := {
  prsContract : option ContractInfo;
  instance : option FhevmInstance;
  ethersSigner : option Signer;
  individualIdHash : option string;
  snps : list JsNumber;
  add : JsNumber -> M Builder unit;
  toHex : Bytes -> string;
  thrown_message : JsThrown -> string;
  write : ContractWrite -> Outcome (Outcome unit);
  refetch : Outcome unit
}.

(** The hook's state, the entropy its encryptions draw on, and the trace
    of its contract writes. *)
Record HookState : Type := {
  isProcessing : bool;
  message : string;
  entropy : N;
  writes : list ContractWrite
}.

Definition setIsProcessing (b : bool) : M HookState unit :=
  modify (fun st => {| isProcessing := b; message := message st;
                       entropy := entropy st; writes := writes st |}).

Definition setMessage (m : string) : M HookState unit :=
  modify (fun st => {| isProcessing := isProcessing st; message := m;
                       entropy := entropy st; writes := writes st |}).

Definition await_encryption {A} (m : M N A) : M HookState A :=
  fun st => match m (entropy st) with
            | (o, n) => (o, {| isProcessing := isProcessing st;
                               message := message st; entropy := n;
                               writes := writes st |})
            end.

(** A call on the write contract: it leaves its trace whether or not it
    throws. *)
Definition send (env : HookEnv) (call : ContractWrite)
    : M HookState (Outcome unit) :=
  fun st => (write env call,
             {| isProcessing := isProcessing st; message := message st;
                entropy := entropy st; writes := writes st ++ [call] |}).

Definition Error (msg : string) : JsThrown :=
  ThrownObject (Some "Error") (Some msg).

Definition truthy (s : option string) : bool :=
  match s with
  | Some s => negb (String.eqb s "")
  | None => false
  end.

Definition hasContract (env : HookEnv) : bool :=
  match prsContract env with
  | Some info => negb (String.eqb (info_address info) "") && info_has_abi info
  | None => false
  end.

Definition hasSigner (env : HookEnv) : bool :=
  match ethersSigner env with
  | Some _ => true
  | None => false
  end.

(** [getContract("write")]: the contract object, if there is one. *)
Definition getContract_write (env : HookEnv) : option ContractInfo :=
  if negb (hasContract env) then None
  else match ethersSigner env with
       | None => None
       | Some _ => prsContract env
       end.

Definition canUpload (env : HookEnv) (st : HookState) : bool :=
  hasContract env
  && match instance env with Some _ => true | None => false end
  && hasSigner env
  && truthy (individualIdHash env)
  && (length (snps env) =? HOOK_NUM_SNPS)%nat
  && negb (isProcessing st).

Definition canCompute (env : HookEnv) (st : HookState) : bool :=
  hasContract env && hasSigner env && truthy (individualIdHash env)
  && negb (isProcessing st).

(** The parameters the hook hands to [useFHEEncryption]. *)
Definition encryption_params (env : HookEnv) : EncryptionParams :=
  {| params_instance := instance env;
     params_ethersSigner := ethersSigner env;
     params_contractAddress := info_address <$> prsContract env |}.

Definition uploadEncryptedGenotype (env : HookEnv) : M HookState unit :=
  fun st =>
    if negb (canUpload env st) then (Return tt, st)
    else
      (setIsProcessing true;;
       setMessage "Encrypting and uploading genotype...";;
       try_finally
         (try_catch
            (match getContract_write env with
             | None => throw (Error "Contract or signer not available")
             | Some _ =>
                 enc ← await_encryption
                         (encryptWith (encryption_params env)
                            (for_of (snps env) (add env)));
                 match enc with
                 | None => throw (Error "Encryption failed")
                 | Some enc =>
                     if (length (handles enc) =? 0)%nat
                        || negb (length (handles enc) =? HOOK_NUM_SNPS)%nat
                     then throw (Error ("Expected 20 handles, got "
                                        +:+ pretty (length (handles enc))))
                     else
                       let hexHandles := map (toHex env) (handles enc) in
                       let inputProof := toHex env (inputProof enc) in
                       tx ← send env (WriteUpload (individualIdHash env)
                                        hexHandles inputProof);
                       setMessage "Waiting for upload transaction...";;
                       settle (tx : Outcome unit);;
                       setMessage "Genotype uploaded successfully"
                 end
             end)
            (fun e => setMessage ("Upload failed: "
                                  +:+ thrown_message env e)))
         (setIsProcessing false)) st.

Definition computePRS (env : HookEnv) : M HookState unit :=
  fun st =>
    if negb (canCompute env st) then (Return tt, st)
    else
      (setIsProcessing true;;
       setMessage "Computing encrypted PRS on-chain...";;
       try_finally
         (try_catch
            (match getContract_write env with
             | None => throw (Error "Contract or signer not available")
             | Some _ =>
                 tx ← send env (WriteComputePRS (individualIdHash env));
                 settle (tx : Outcome unit);;
                 setMessage
                   "PRS computed. You can now decrypt the risk result.";;
                 settle (refetch env)
             end)
            (fun e => setMessage ("Compute failed: "
                                  +:+ thrown_message env e)))
         (setIsProcessing false)) st.

End Hook.

(** A render of the hook with everything in place: the contract is
    deployed, the wallet connected, an individual chosen, the genotype
    all 1s; numbers are added as 32-bit values, writes are mined, and the
    refetch after a computation fails. *)
Definition ready_hook : Hook.HookEnv :=
  {| Hook.prsContract := Some {| Hook.info_address := "0xAA";
                                 Hook.info_has_abi := true |};
     Hook.instance := Some lenient_instance;
     Hook.ethersSigner := Some sample_signer;
     Hook.individualIdHash := Some "0x1d";
     Hook.snps := replicate 20 (int_number 1);
     Hook.add := fun v => match v with
                          | Finite n 1 => Builder_add (Add32 n)
                          | _ => throw (RangeError "not an integer")
                          end;
     Hook.toHex := fun _ => "0x";
     Hook.thrown_message := fun _ => "network error";
     Hook.write := fun _ => Return (Return tt);
     Hook.refetch := Throw ThrownPrimitive |}.

Definition idle_hook : Hook.HookState :=
  {| Hook.isProcessing := false; Hook.message := "";
     Hook.entropy := 7%N; Hook.writes := [] |}.

(** ** scripts/updateSubmodule *)

(** A path below [ROOT_DIR], as its segments; [ROOT_DIR] itself is the
    empty path. *)
Abbreviation Path := (list string).

(** What is at a path: a file with its text, or a directory. *)
Inductive FsNode : Type :=
| FsFile (content : JsText)
| FsDir.

Abbreviation FileSystem := (gmap Path FsNode).

(** The lines the script prints, each standing for the [console] call of
    that wording. *)
Inductive ConsoleLine : Type :=
| LogEnsuringBackup
| LogCreatedBackupDirectory
| LogBackedUp (contractFile : string)
| LogUpdatingSubmodule
| LogSubmoduleUpdated
| ErrorFailedToUpdateSubmodule (error : JsThrown)
| LogRestoring
| LogRestored (contractFile : string)
| WarnBackupNotFound (contractFile : string)
| LogUpdatingDeployScript
| ErrorDeployScriptNotFound
| LogDeployScriptAlreadyIncludes
| LogDeployScriptUpdated
| LogStarting
| LogComplete
| ErrorTopLevel (error : JsThrown).

Record ScriptWorld : Type := {
  files : FileSystem;
  console : list ConsoleLine
}.

(** How a piece of the script ends: it completes, it throws, or the
    process exits, after which nothing runs. *)
Inductive Ending (A : Type) : Type :=
| Completed (a : A)
| Failed (e : JsThrown)
| Exited (code : Z).
Arguments Completed {A} a.
Arguments Failed {A} e.
Arguments Exited {A} code.

Definition Script (A : Type) : Type := ScriptWorld -> Ending A * ScriptWorld.

#[global] Instance Script_ret : MRet Script :=
  fun A a w => (Completed a, w).

#[global] Instance Script_bind : MBind Script :=
  fun A B k m w =>
    match m w with
    | (Completed a, w') => k a w'
    | (Failed e, w') => (Failed e, w')
    | (Exited code, w') => (Exited code, w')
    end.

(** [try { m } catch (error) { h error }]; an exit is not caught. *)
Definition script_try_catch {A} (m : Script A) (h : JsThrown -> Script A)
    : Script A :=
  fun w => match m w with
           | (Failed e, w') => h e w'
           | (Completed a, w') => (Completed a, w')
           | (Exited code, w') => (Exited code, w')
           end.

Fixpoint script_for_of {A} (vs : list A) (body : A -> Script unit)
    : Script unit :=
  match vs with
  | [] => mret tt
  | v :: rest => body v ;; script_for_of rest body
  end.

Definition console_print (line : ConsoleLine) : Script unit :=
  fun w => (Completed tt,
            {| files := files w; console := console w ++ [line] |}).

Definition process_exit {A} (code : Z) : Script A :=
  fun w => (Exited code, w).

Definition set_files (fs : FileSystem) (w : ScriptWorld) : ScriptWorld :=
  {| files := fs; console := console w |}.

(** *** The file-system calls of [fs] *)

Definition fs_error (code : string) : JsThrown :=
  ThrownObject (Some "Error") (Some code).

Definition node_at (fs : FileSystem) (p : Path) : option FsNode :=
  match p with
  | [] => Some FsDir
  | _ => fs !! p
  end.

(** [path.dirname] *)
Definition dirname (p : Path) : Path := take (length p - 1) p.

(** The paths from the first segment of [p] down to [p] itself. *)
Definition ancestors (p : Path) : list Path :=
  map (fun n => take n p) (seq 1 (length p)).

Definition existsSync (p : Path) : Script bool :=
  fun w => (Completed (match node_at (files w) p with
                       | Some _ => true
                       | None => false
                       end), w).

(** [fs.mkdirSync(p, { recursive: true })]: the missing directories
    down to [p] are made; a file in the way is an error. *)
Definition mkdirSync_recursive (p : Path) : Script unit :=
  fun w =>
    if existsb (fun q => match files w !! q with
                         | Some (FsFile _) => true
                         | _ => false
                         end) (ancestors p)
    then (Failed (fs_error "ENOTDIR"), w)
    else (Completed tt,
          set_files (fold_left (fun fs q => <[q := FsDir]> fs) (ancestors p)
                               (files w)) w).

(** Writing [content] at [p]: the directory of [p] must be there, and
    [p] must not be a directory. *)
Definition write_at (p : Path) (content : JsText) : Script unit :=
  fun w =>
    match node_at (files w) (dirname p) with
    | Some FsDir =>
        match node_at (files w) p with
        | Some FsDir => (Failed (fs_error "EISDIR"), w)
        | _ => (Completed tt, set_files (<[p := FsFile content]> (files w)) w)
        end
    | Some (FsFile _) => (Failed (fs_error "ENOTDIR"), w)
    | None => (Failed (fs_error "ENOENT"), w)
    end.

Definition readFileSync (p : Path) : Script JsText :=
  fun w =>
    match node_at (files w) p with
    | Some (FsFile content) => (Completed content, w)
    | Some FsDir => (Failed (fs_error "EISDIR"), w)
    | None => (Failed (fs_error "ENOENT"), w)
    end.

Definition writeFileSync (p : Path) (content : JsText) : Script unit :=
  write_at p content.

Definition copyFileSync (src dest : Path) : Script unit :=
  content ← readFileSync src; write_at dest content.

(** *** Text *)

(** The code units of a text written in ASCII. *)
Definition text_of (s : string) : JsText :=
  map N_of_ascii (String.list_ascii_of_string s).

Fixpoint starts_with (pat t : JsText) : bool :=
  match pat, t with
  | [], _ => true
  | p :: pat', c :: t' => (p =? c)%N && starts_with pat' t'
  | _ :: _, [] => false
  end.

(** [t.includes(pat)] *)
Fixpoint includes (pat t : JsText) : bool :=
  starts_with pat t
  || match t with
     | [] => false
     | _ :: t' => includes pat t'
     end.

(** [t.replace(regex, replacement)] for a regular expression without the
    global flag: [try_match] tells whether the expression matches at the
    start of a text, and if so what it matches and what follows; the
    leftmost match is replaced by [subst] of the matched text. *)
Fixpoint replace_first (try_match : JsText -> option (JsText * JsText))
    (subst : JsText -> JsText) (t : JsText) : JsText :=
  match try_match t with
  | Some (matched, rest) => subst matched ++ rest
  | None => match t with
            | [] => []
            | c :: t' => c :: replace_first try_match subst t'
            end
  end.

(** [\s+] followed by the literal [lit], which starts with no white
    space: the longest run of white space, not empty, then [lit]. *)
Definition match_spaces_then (lit t : JsText) : option (JsText * JsText) :=
  let after := js_trim_start t in
  if negb (length after =? length t)%nat && starts_with lit after
  then Some (take (length t - length after) t ++ lit,
             drop (length lit) after)
  else None.

(** The literal [lit], then a semicolon if there is one. *)
Definition match_then_semicolon (lit t : JsText)
    : option (JsText * JsText) :=
  if starts_with lit t
  then match drop (length lit) t with
       | 59%N :: rest => Some (lit ++ [59%N], rest)
       | rest => Some (lit, rest)
       end
  else None.

(** *** The script *)

Definition SUBMODULE_DIR : Path := ["packages"; "hardhat"].
Definition CUSTOM_CONTRACTS_DIR : Path := ["custom-contracts"].
Definition DEPLOY_SCRIPT_PATH : Path := SUBMODULE_DIR ++ ["deploy"; "deploy.ts"].
Definition CUSTOM_CONTRACTS : list string := ["PRSCompute.sol"].

Definition submodule_contract (contractFile : string) : Path :=
  SUBMODULE_DIR ++ ["contracts"; contractFile].
Definition backup_of (contractFile : string) : Path :=
  CUSTOM_CONTRACTS_DIR ++ [contractFile].

Definition ensureCustomContractsBackup : Script unit :=
  console_print LogEnsuringBackup;;
  there ← existsSync CUSTOM_CONTRACTS_DIR;
  (if negb there
   then mkdirSync_recursive CUSTOM_CONTRACTS_DIR;;
        console_print LogCreatedBackupDirectory
   else mret tt);;
  script_for_of CUSTOM_CONTRACTS (fun contractFile =>
    let sourcePath := submodule_contract contractFile in
    let backupPath := backup_of contractFile in
    (there ← existsSync sourcePath;
     if there : bool
     then copyFileSync sourcePath backupPath;;
          console_print (LogBackedUp contractFile)
     else mret tt) : Script unit).

(** [execSync] of [git submodule update --remote packages/hardhat]: what
    the command does to the files, and whether it succeeded, is the
    environment's. *)
Definition execSync_git (git : FileSystem -> bool * FileSystem)
    : Script unit :=
  fun w => match git (files w) with
           | (true, fs) => (Completed tt, set_files fs w)
           | (false, fs) => (Failed (fs_error "Command failed"),
                             set_files fs w)
           end.

Definition updateSubmodule (git : FileSystem -> bool * FileSystem)
    : Script unit :=
  console_print LogUpdatingSubmodule;;
  script_try_catch
    (execSync_git git;; console_print LogSubmoduleUpdated)
    (fun error =>
       console_print (ErrorFailedToUpdateSubmodule error);;
       process_exit 1).

Definition restoreCustomContracts : Script unit :=
  console_print LogRestoring;;
  script_for_of CUSTOM_CONTRACTS (fun contractFile =>
    let backupPath := backup_of contractFile in
    let targetPath := submodule_contract contractFile in
    (there ← existsSync backupPath;
     if there : bool
     then copyFileSync backupPath targetPath;;
          console_print (LogRestored contractFile)
     else console_print (WarnBackupNotFound contractFile)) : Script unit).

Definition quote : JsText := [34%N].
Definition line_feed : JsText := [10%N].

(** The statement after which the deployment is inserted. *)
Definition counter_log_statement : JsText :=
  text_of "console.log(`FHECounter contract: `, deployedFHECounter.address);".

Definition prs_deployment : JsText :=
  line_feed ++ line_feed
  ++ text_of "  const deployedPRS = await deploy(" ++ quote
  ++ text_of "PRSCompute" ++ quote ++ text_of ", {" ++ line_feed
  ++ text_of "    from: deployer," ++ line_feed
  ++ text_of "    log: true," ++ line_feed
  ++ text_of "  });" ++ line_feed
  ++ text_of "  console.log(`PRSCompute contract: `, deployedPRS.address);".

Definition counter_tags : JsText :=
  text_of "func.tags = [" ++ quote ++ text_of "FHECounter" ++ quote
  ++ text_of "]".

Definition both_tags : JsText :=
  text_of "func.tags = [" ++ quote ++ text_of "FHECounter" ++ quote
  ++ text_of ", " ++ quote ++ text_of "PRSCompute" ++ quote ++ text_of "];".

(** The two replacements of [updateDeployScript]. *)
Definition add_prs_deployment (deployContent : JsText) : JsText :=
  let updatedContent :=
    replace_first (match_spaces_then counter_log_statement)
                  (fun matched => matched ++ prs_deployment) deployContent in
  replace_first (match_then_semicolon counter_tags) (fun _ => both_tags)
                updatedContent.

Definition updateDeployScript : Script unit :=
  console_print LogUpdatingDeployScript;;
  there ← existsSync DEPLOY_SCRIPT_PATH;
  if negb there then console_print ErrorDeployScriptNotFound
  else
    deployContent ← readFileSync DEPLOY_SCRIPT_PATH;
    if includes (text_of "PRSCompute") deployContent
    then console_print LogDeployScriptAlreadyIncludes
    else
      writeFileSync DEPLOY_SCRIPT_PATH (add_prs_deployment deployContent);;
      console_print LogDeployScriptUpdated.

Definition main (git : FileSystem -> bool * FileSystem) : Script unit :=
  console_print LogStarting;;
  ensureCustomContractsBackup;;
  updateSubmodule git;;
  restoreCustomContracts;;
  updateDeployScript;;
  console_print LogComplete.

(** [main().catch(error => { console.error(..); process.exit(1); })] *)
Definition run_main (git : FileSystem -> bool * FileSystem)
    : Script unit :=
  script_try_catch (main git)
    (fun error => console_print (ErrorTopLevel error);; process_exit 1).

(** A deploy script as upstream ships it, in short. *)
Definition upstream_deploy_script : JsText :=
  text_of "  const deployedFHECounter = await deploy();" ++ line_feed
  ++ text_of "  " ++ counter_log_statement ++ line_feed
  ++ text_of "};" ++ line_feed
  ++ counter_tags ++ text_of ";" ++ line_feed.

(** A deploy script without the statement and the tags the script looks
    for. *)
Definition foreign_deploy_script : JsText :=
  text_of "export default func;" ++ line_feed.

Definition contract_text : JsText := text_of "contract PRSCompute {}".

(** A checkout with the custom contract in the submodule and no backup
    yet. *)
Definition sample_checkout : FileSystem :=
  <[submodule_contract "PRSCompute.sol" := FsFile contract_text]>
  (<[DEPLOY_SCRIPT_PATH := FsFile upstream_deploy_script]>
  (<[SUBMODULE_DIR ++ ["contracts"] := FsDir]>
  (<[SUBMODULE_DIR ++ ["deploy"] := FsDir]>
  (<[SUBMODULE_DIR := FsDir]>
  (<[["packages"] := FsDir]> ∅))))).

(** An update that brings the submodule back to upstream: the custom
    contract is gone from it. *)
Definition upstream_update (fs : FileSystem) : bool * FileSystem :=
  (true, delete (submodule_contract "PRSCompute.sol") fs).

(** An update that fails and changes nothing. *)
Definition failing_update (fs : FileSystem) : bool * FileSystem :=
  (false, fs).

Definition fresh_world (fs : FileSystem) : ScriptWorld :=
  {| files := fs; console := [] |}.

(** The files once the custom contract, with text [content], is backed
    up. *)
Definition with_backup (content : JsText) (fs : FileSystem) : FileSystem :=
  <[backup_of "PRSCompute.sol" := FsFile content]>
    (<[CUSTOM_CONTRACTS_DIR := FsDir]> fs).

(* ===================================================================== *)
(** * Part II: theorems                                                   *)
(* ===================================================================== *)

(** ** core/decryption.ts *)

Lemma copy_requests (requests : list DecryptRequest) :
  map (fun r => {| handle := handle r;
                   contractAddress := contractAddress r |}) requests
  = requests.
Proof.
  induction requests as [|[h c] rest IH]; simpl; [reflexivity|].
  now rewrite IH.
Qed.

Lemma userDecryptWithSignature_run {W} `{RelayLog W} instance requests sig
    (w : W) :
  userDecryptWithSignature instance requests sig w =
  (relay_userDecrypt instance requests (privateKey sig) (publicKey sig)
     (signature sig) (contractAddresses sig) (userAddress sig)
     (startTimestamp sig) (durationDays sig),
   record_call (CallUserDecrypt requests (privateKey sig) (publicKey sig)
     (signature sig) (contractAddresses sig) (userAddress sig)
     (startTimestamp sig) (durationDays sig)) w).
Proof.
  unfold userDecryptWithSignature, instance_userDecrypt.
  now rewrite copy_requests.
Qed.

Lemma request_aa_out_of_scope : ~ in_scope [request_aa] (signature_for ["0xbb"]).
Proof.
  unfold in_scope. rewrite Forall_cons. intros [Hin _].
  apply list_elem_of_singleton in Hin. discriminate Hin.
Qed.

(** C1, as stated, fails: with a request for contract 0xaa and a
    signature scoped to 0xbb only, the helper does not fail with
    ScopeMismatch on an untouched relay log; it makes the relay call. *)
Lemma userDecrypt_out_of_scope_reaches_relay :
  ~ rejects_out_of_scope lenient_instance [request_aa]
      (signature_for ["0xbb"]) [].
Proof.
  intros Hrej.
  destruct (Hrej request_aa_out_of_scope) as [e [_ Hrun]].
  rewrite userDecryptWithSignature_run in Hrun. discriminate Hrun.
Qed.

(** C1, amended: [userDecryptWithSignature] makes no scope check of its
    own. Also when some request's contract is not among the signature's
    contract addresses, it makes exactly one relay call, with the requests
    and the signature's fields, and its outcome is the relay's answer. *)
Theorem userDecryptWithSignature_no_scope_check
    (instance : FhevmInstance) (requests : list DecryptRequest)
    (sig : UserDecryptSignature) (w : list RelayCall) :
  ~ in_scope requests sig ->
  userDecryptWithSignature instance requests sig w =
  (relay_userDecrypt instance requests (privateKey sig) (publicKey sig)
     (signature sig) (contractAddresses sig) (userAddress sig)
     (startTimestamp sig) (durationDays sig),
   w ++ [CallUserDecrypt requests (privateKey sig) (publicKey sig)
     (signature sig) (contractAddresses sig) (userAddress sig)
     (startTimestamp sig) (durationDays sig)]).
Proof. intros _. now rewrite userDecryptWithSignature_run. Qed.

Lemma userDecryptWithSignature_no_scope_check_witness :
  userDecryptWithSignature lenient_instance [request_aa]
    (signature_for ["0xbb"]) [] =
  (Return ∅,
   [CallUserDecrypt [request_aa] "priv" "pub" "0xsig" ["0xbb"] "0xu5e7"
      1700000000 365]).
Proof.
  apply (userDecryptWithSignature_no_scope_check lenient_instance
           [request_aa] (signature_for ["0xbb"]) []).
  exact request_aa_out_of_scope.
Defined.

(** C4: a successful [userDecryptWithSignature] performs exactly one relay
    call, carrying the requests unchanged and in order, then the
    signature's fields in the relay's declared order, and returns the
    relay's mapping unchanged. *)
Theorem userDecryptWithSignature_forwards
    (instance : FhevmInstance) (requests : list DecryptRequest)
    (sig : UserDecryptSignature) (w : list RelayCall) (res : Cleartexts) :
  fst (userDecryptWithSignature instance requests sig w) = Return res ->
  snd (userDecryptWithSignature instance requests sig w) =
    w ++ [CallUserDecrypt requests (privateKey sig) (publicKey sig)
            (signature sig) (contractAddresses sig) (userAddress sig)
            (startTimestamp sig) (durationDays sig)]
  /\ relay_userDecrypt instance requests (privateKey sig) (publicKey sig)
       (signature sig) (contractAddresses sig) (userAddress sig)
       (startTimestamp sig) (durationDays sig) = Return res.
Proof.
  rewrite userDecryptWithSignature_run. simpl. intros Hres.
  split; [reflexivity | exact Hres].
Qed.

Lemma userDecryptWithSignature_forwards_witness :
  snd (userDecryptWithSignature lenient_instance [request_aa]
         (signature_for ["0xaa"]) []) =
    [CallUserDecrypt [request_aa] "priv" "pub" "0xsig" ["0xaa"] "0xu5e7"
       1700000000 365]
  /\ relay_userDecrypt lenient_instance [request_aa] "priv" "pub" "0xsig"
       ["0xaa"] "0xu5e7" 1700000000 365 = Return ∅.
Proof.
  apply (userDecryptWithSignature_forwards lenient_instance [request_aa]
           (signature_for ["0xaa"]) [] ∅).
  reflexivity.
Defined.

(** C7: [publicDecrypt] forwards exactly the given requests, unchanged
    and in order, in one [publicDecrypt] relay call that carries nothing
    else, and returns the relay's answer. *)
Theorem publicDecrypt_forwards
    (instance : FhevmInstance) (requests : list DecryptRequest)
    (w : list RelayCall) :
  publicDecrypt instance requests w =
  (relay_publicDecrypt instance requests, w ++ [CallPublicDecrypt requests]).
Proof.
  unfold publicDecrypt, instance_publicDecrypt.
  now rewrite copy_requests.
Qed.

(** ** react/components/FHEDecryptButton *)

Lemma set_add_elem (acc : list string) (x y : string) :
  y ∈ set_add acc x <-> y ∈ acc \/ y = x.
Proof.
  unfold set_add. case_bool_decide as Hx.
  - split; [auto|]. intros [Hy | ->]; assumption.
  - rewrite elem_of_app, list_elem_of_singleton. reflexivity.
Qed.

Lemma set_add_NoDup (acc : list string) (x : string) :
  NoDup acc -> NoDup (set_add acc x).
Proof.
  intros Hnd. unfold set_add. case_bool_decide as Hx; [assumption|].
  apply NoDup_app. split; [assumption|]. split.
  - intros y Hy Hy'. apply list_elem_of_singleton in Hy'. now subst.
  - apply NoDup_singleton.
Qed.

Lemma fold_set_add_elem (xs acc : list string) (y : string) :
  y ∈ fold_left set_add xs acc <-> y ∈ acc \/ y ∈ xs.
Proof.
  revert acc. induction xs as [|x xs IH]; intros acc; simpl.
  - split; [auto|]. intros [H | H]; [assumption | inversion H].
  - rewrite IH, set_add_elem, elem_of_cons. tauto.
Qed.

Lemma fold_set_add_NoDup (xs acc : list string) :
  NoDup acc -> NoDup (fold_left set_add xs acc).
Proof.
  revert acc. induction xs as [|x xs IH]; intros acc Hnd; simpl.
  - assumption.
  - apply IH, set_add_NoDup, Hnd.
Qed.

Lemma array_from_set_elem (xs : list string) (y : string) :
  y ∈ array_from_set xs <-> y ∈ xs.
Proof.
  unfold array_from_set. rewrite fold_set_add_elem.
  split; [intros [H | H]; [inversion H | assumption] | auto].
Qed.

Lemma array_from_set_NoDup (xs : list string) : NoDup (array_from_set xs).
Proof. apply fold_set_add_NoDup, NoDup_nil_2. Qed.

Example array_from_set_first_occurrence :
  array_from_set ["0xb"; "0xa"; "0xb"; "0xc"; "0xa"] = ["0xb"; "0xa"; "0xc"].
Proof. reflexivity. Qed.

Ltac step_ui :=
  cbv beta iota zeta delta
    [mbind M_bind bind try_finally try_catch call_loadOrSign call_onResults
     setMessage setIsDecrypting setError modify ret mret M_ret emit
     record_call RelayLog_DecryptUi
     events isDecrypting message error fst snd].

(** C6: with instance and signer at hand and a non-empty request list,
    the decrypt flow first asks for a signature scoped to exactly the
    distinct contract addresses of the requests (no duplicates, every
    request's contract among them, nothing else); when a signature comes
    back, the very next outside call is the relay's userDecrypt with the
    original requests and that signature's fields. *)
Theorem FHEDecryptButton_signature_covers_requests
    (loadOrSign : LoadOrSign) (props : DecryptButtonProps)
    (instance : FhevmInstance) (signer : Signer)
    (requests : list DecryptRequest) (u : DecryptUi) :
  props_instance props = Some instance ->
  props_signer props = Some signer ->
  props_requests props = Some requests ->
  requests <> [] ->
  let uniqueAddresses := array_from_set (map contractAddress requests) in
  let u' := snd (FHEDecryptButton_onClick loadOrSign props u) in
  NoDup uniqueAddresses
  /\ (forall a, a ∈ uniqueAddresses <->
                exists r, r ∈ requests /\ contractAddress r = a)
  /\ Forall (fun r => contractAddress r ∈ uniqueAddresses) requests
  /\ exists rest,
       events u' = events u ++ EvLoadOrSign uniqueAddresses :: rest
       /\ match loadOrSign instance uniqueAddresses signer
                  (props_storage props) with
          | Return (Some sig) =>
              exists rest',
                rest = EvRelay (CallUserDecrypt requests
                         (privateKey sig) (publicKey sig) (signature sig)
                         (contractAddresses sig) (userAddress sig)
                         (startTimestamp sig) (durationDays sig)) :: rest'
                /\ Forall (fun ev => exists r, ev = EvOnResults r) rest'
          | _ => rest = []
          end.
Proof.
  intros Hi Hs Hr Hne ua u'.
  split; [apply array_from_set_NoDup|].
  split.
  { intros a. unfold ua. rewrite array_from_set_elem, list_elem_of_fmap.
    split; intros [r Hrq]; exists r; tauto || (destruct Hrq; auto). }
  split.
  { apply Forall_forall. intros r Hin. unfold ua.
    apply array_from_set_elem, list_elem_of_fmap. eauto. }
  subst u'. unfold FHEDecryptButton_onClick. rewrite Hi, Hs, Hr.
  destruct requests as [|r0 rs]; [contradiction|].
  change (length (r0 :: rs) =? 0)%nat with false. cbv iota.
  fold ua. step_ui.
  destruct (loadOrSign instance ua signer (props_storage props))
    as [[sig|]|e] eqn:Hload; step_ui.
  - rewrite userDecryptWithSignature_run.
    match goal with
    | |- context [relay_userDecrypt ?i ?a ?b ?c ?d ?e ?f ?g ?h] =>
        destruct (relay_userDecrypt i a b c d e f g h) as [res|e']
    end; step_ui.
    + destruct (props_onResults props) as [cb|]; step_ui.
      * destruct (cb res); step_ui;
          (eexists; split; [rewrite <- !app_assoc; reflexivity|]);
          (eexists; split; [reflexivity|]);
          (constructor; [eexists; reflexivity | constructor]).
      * eexists; split; [rewrite <- !app_assoc; reflexivity|].
        eexists; split; [reflexivity | constructor].
    + eexists; split; [rewrite <- !app_assoc; reflexivity|].
      eexists; split; [reflexivity | constructor].
  - eexists; split; reflexivity.
  - eexists; split; reflexivity.
Qed.


Lemma FHEDecryptButton_signature_covers_requests_witness :
  NoDup (array_from_set (map contractAddress sample_requests))
  /\ Forall (fun r => contractAddress r
                      ∈ array_from_set (map contractAddress sample_requests))
            sample_requests.
Proof.
  pose proof (FHEDecryptButton_signature_covers_requests
                granting_loadOrSign sample_props lenient_instance
                sample_signer sample_requests idle_ui
                eq_refl eq_refl eq_refl ltac:(discriminate)) as H.
  cbv zeta in H. destruct H as (Hnd & _ & Hall & _).
  split; assumption.
Defined.

Example FHEDecryptButton_sample_run :
  events (snd (FHEDecryptButton_onClick granting_loadOrSign sample_props
                 idle_ui))
  = [EvLoadOrSign ["0xaa"; "0xcc"];
     EvRelay (CallUserDecrypt sample_requests "priv" "pub" "0xsig"
                ["0xaa"; "0xcc"] "0xu5e7" 1700000000 365)].
Proof. reflexivity. Qed.

(** ** The encrypted-input builder and the encryption hook *)

Lemma for_of_cons {S A} (v : A) (rest : list A) (body : A -> M S unit)
    (s : S) :
  for_of (v :: rest) body s =
  match body v s with
  | (Return _, s') => for_of rest body s'
  | (Throw e, s') => (Throw e, s')
  end.
Proof. reflexivity. Qed.

Lemma Builder_add_run (c : AddCall) (b : Builder) :
  Builder_add c b =
    (Return tt,
     {| builder_engine := builder_engine b;
        builder_contract := builder_contract b;
        builder_user := builder_user b;
        builder_values := builder_values b ++ [plain_of c] |})
  \/ Builder_add c b = (Throw ValueOutOfRange, b).
Proof.
  destruct c; simpl; unfold add_uint;
    try (left; reflexivity);
    match goal with
    | |- context [if ?t then _ else _] => destruct t
    end; [left | right | left | right | left | right
          | left | right | left | right | left | right]; reflexivity.
Qed.

Lemma Builder_adds_accumulate (adds : list AddCall) (b0 b : Builder) :
  for_of adds Builder_add b0 = (Return tt, b) ->
  builder_values b = builder_values b0 ++ map plain_of adds
  /\ builder_engine b = builder_engine b0
  /\ builder_contract b = builder_contract b0
  /\ builder_user b = builder_user b0.
Proof.
  revert b0. induction adds as [|c rest IH]; intros b0 Hrun.
  - injection Hrun as <-. rewrite app_nil_r. auto.
  - rewrite for_of_cons in Hrun.
    destruct (Builder_add_run c b0) as [Hok | Hthrow].
    + rewrite Hok in Hrun. apply IH in Hrun. simpl in Hrun.
      destruct Hrun as (Hv & He & Hc & Hu).
      rewrite Hv, <- app_assoc. auto.
    + rewrite Hthrow in Hrun. discriminate Hrun.
Qed.

(** C5: on a builder that took N add-calls, [encrypt()] yields exactly N
    handles, the i-th being the engine's encryption of the i-th added
    value, and one non-empty proof, issued for the whole batch; this
    whenever the underlying instance is Ready, and then one seed is
    drawn. On an instance that is not Ready [encrypt()] fails with
    [NotReady] and yields nothing. *)
Theorem encrypt_one_handle_per_add
    (instance : FhevmInstance) (contract user : string)
    (adds : list AddCall) (b : Builder) (seed : N) :
  for_of adds Builder_add (createEncryptedInput instance contract user)
    = (Return tt, b) ->
  (engine_ready (instance_engine instance) = true ->
   exists enc,
     Builder_encrypt b seed = (Return enc, N.succ seed)
     /\ length (handles enc) = length adds
     /\ (forall i c, adds !! i = Some c ->
           handles enc !! i =
           Some (engine_handle (instance_engine instance) seed contract user
                   i (plain_of c)))
     /\ inputProof enc =
          (engine_proof (instance_engine instance) seed contract user
             (map plain_of adds)).1
          :: (engine_proof (instance_engine instance) seed contract user
                (map plain_of adds)).2
     /\ inputProof enc <> [])
  /\ (engine_ready (instance_engine instance) = false ->
      Builder_encrypt b seed = (Throw NotReady, seed)).
Proof.
  intros Hadds. apply Builder_adds_accumulate in Hadds.
  simpl in Hadds. destruct Hadds as (Hv & He & Hc & Hu).
  unfold Builder_encrypt. rewrite He, Hc, Hu, Hv. split; intros ->.
  - eexists. split; [reflexivity|]. cbn [handles inputProof].
    split; [now rewrite length_imap, length_map|].
    split; [|split; [reflexivity | discriminate]].
    intros i c Hi. now rewrite list_lookup_imap, list_lookup_fmap, Hi.
  - reflexivity.
Qed.

Lemma encrypt_one_handle_per_add_witness :
  exists enc,
    Builder_encrypt
      (snd (for_of scenario_adds Builder_add
              (createEncryptedInput lenient_instance "0xAA" "0xBB")))
      7%N = (Return enc, 8%N)
    /\ length (handles enc) = 3%nat
    /\ inputProof enc <> [].
Proof.
  destruct (proj1 (encrypt_one_handle_per_add lenient_instance "0xAA" "0xBB"
                     scenario_adds
                     (snd (for_of scenario_adds Builder_add
                             (createEncryptedInput lenient_instance "0xAA"
                                "0xBB")))
                     7%N eq_refl) eq_refl)
    as (enc & Henc & Hlen & _ & _ & Hproof).
  exists enc. split; [exact Henc|]. split; [exact Hlen | exact Hproof].
Defined.

(** The same builder behind an instance that is not Ready. *)
Example encrypt_not_ready :
  Builder_encrypt
    (snd (for_of scenario_adds Builder_add
            (createEncryptedInput stale_instance "0xAA" "0xBB")))
    7%N = (Throw NotReady, 7%N).
Proof. reflexivity. Qed.

(** The hook, on a callback that adds the scenario's three values: three
    handles and a proof come back. *)
Example encryptWith_scenario :
  fst (encryptWith
         {| params_instance := Some lenient_instance;
            params_ethersSigner := Some sample_signer;
            params_contractAddress := Some "0xAA" |}
         (add_values scenario_values) 7%N)
  = Return (Some {| handles := [[Byte.x07; Byte.x00; Byte.x00];
                                [Byte.x07; Byte.x01; Byte.x01];
                                [Byte.x07; Byte.x02; Byte.x01]];
                    inputProof := [Byte.x07; Byte.x03] |}).
Proof. reflexivity. Qed.

(** Without an instance the hook makes no builder and answers
    [undefined]. *)
Lemma encryptWith_not_ready (params : EncryptionParams)
    (buildFn : M Builder unit) (seed : N) :
  canEncrypt params = false ->
  encryptWith params buildFn seed = (Return None, seed).
Proof.
  unfold canEncrypt, encryptWith.
  destruct (params_instance params), (params_ethersSigner params),
    (params_contractAddress params); intros Hcan;
    try discriminate Hcan; reflexivity.
Qed.

(** ** react/components/FHEEncryptWithAbi *)

(** One element of the loop on the recording builder: its add-call is
    recorded if its conversion succeeds, and nothing is otherwise. *)
Lemma add_values_step (v : Value) (rest : list Value) (calls : list AddCall) :
  add_values (v :: rest) calls =
  match add_call_of v with
  | Return c => add_values rest (calls ++ [c])
  | Throw e => (Throw e, calls)
  end.
Proof.
  unfold add_values. rewrite for_of_cons.
  destruct v as [x | str | b]; simpl;
    unfold mbind, M_bind, bind, settle; simpl.
  - destruct (BigInt_of_number x); reflexivity.
  - destruct (BigInt_of_string str); reflexivity.
  - reflexivity.
Qed.

Lemma add_values_recorded (values : list Value) (calls : list AddCall) :
  snd (add_values values calls) = calls ++ add_calls_before_throw values.
Proof.
  revert calls. induction values as [|v rest IH]; intros calls.
  - simpl. now rewrite app_nil_r.
  - rewrite add_values_step. simpl.
    destruct (add_call_of v) as [c|e]; simpl.
    + now rewrite IH, <- app_assoc.
    + now rewrite app_nil_r.
Qed.

Lemma add_values_all_convert (values : list Value) (calls : list AddCall) :
  Forall (fun v => exists c, add_call_of v = Return c) values ->
  fst (add_values values calls) = Return tt
  /\ Forall2 (fun v c => add_call_of v = Return c)
       values (add_calls_before_throw values).
Proof.
  revert calls. induction values as [|v rest IH]; intros calls Hall.
  - split; [reflexivity | constructor].
  - apply Forall_cons in Hall. destruct Hall as [[c Hc] Hrest].
    rewrite add_values_step. simpl. rewrite Hc.
    destruct (IH (calls ++ [c]) Hrest) as [Hret Hcalls].
    split; [exact Hret | now constructor].
Qed.


(** The loop, element by element, on any builder. *)
Lemma add_values_cons {B} `{EncryptedInputOps B} (v : Value)
    (rest : list Value) (b : B) :
  add_values (v :: rest) b =
  match add_values [v] b with
  | (Return _, b') => add_values rest b'
  | (Throw e, b') => (Throw e, b')
  end.
Proof.
  unfold add_values. rewrite !for_of_cons. cbn [for_of].
  now destruct (_ b) as [[[]|e] b'].
Qed.

(** An element whose conversion throws leaves the builder alone. *)
Lemma add_values_no_conversion {B} `{EncryptedInputOps B} (v : Value)
    (e : JsThrown) (b : B) :
  add_call_of v = Throw e -> add_values [v] b = (Throw e, b).
Proof.
  unfold add_values. rewrite for_of_cons.
  destruct v as [x | str | x]; cbn [add_call_of];
    unfold mbind, M_bind, bind, settle; [| |discriminate].
  - destruct (BigInt_of_number x); [discriminate | now intros [= ->]].
  - destruct (BigInt_of_string str); [discriminate | now intros [= ->]].
Qed.

(** One element on a traced builder: without conversion nothing is
    called; otherwise the element's call is recorded and its outcome is
    the builder's. *)
Lemma add_values_traced_one {B} `{EncryptedInputOps B} (v : Value) (b : B)
    (calls : list AddCall) :
  add_values [v] (b, calls) =
  match add_call_of v with
  | Throw e => (Throw e, (b, calls))
  | Return c => ((add_values [v] b).1, ((add_values [v] b).2, calls ++ [c]))
  end.
Proof.
  unfold add_values. rewrite !for_of_cons. cbn [for_of].
  destruct v as [x | str | x]; cbn [add_call_of];
    unfold mbind, M_bind, bind, settle.
  - destruct (BigInt_of_number x) as [n|e]; [|reflexivity].
    cbn [add64 Traced_ops]. unfold traced. cbn [fst snd].
    now destruct (add64 n b) as [[[]|e] b'].
  - destruct (BigInt_of_string str) as [n|e]; [|reflexivity].
    cbn [add64 Traced_ops]. unfold traced. cbn [fst snd].
    now destruct (add64 n b) as [[[]|e] b'].
  - cbn [addBool Traced_ops]. unfold traced. cbn [fst snd].
    now destruct (addBool x b) as [[[]|e] b'].
Qed.



(** On the builder itself a conversion that succeeds is not enough: 2^64
    converts, but [add64] refuses it with [ValueOutOfRange]; its call is
    the only one made, nothing is accumulated, and the boolean after it
    is never reached. The same holds of a negative number. *)
Example add_values_out_of_range :
  add_values [VString "18446744073709551616"; VBoolean true]
    (createEncryptedInput lenient_instance "0xAA" "0xBB",
     ([] : list AddCall))
  = (Throw ValueOutOfRange,
     (createEncryptedInput lenient_instance "0xAA" "0xBB",
      [Add64 18446744073709551616]))
  /\ add_values [VString "-1"; VBoolean true]
       (createEncryptedInput lenient_instance "0xAA" "0xBB",
        ([] : list AddCall))
     = (Throw ValueOutOfRange,
        (createEncryptedInput lenient_instance "0xAA" "0xBB",
         [Add64 (-1)])).
Proof. split; reflexivity. Qed.

(** On the scenario's values every conversion and every add-call goes
    through, and each element has its call. *)
Example add_values_scenario_traced :
  snd (snd (add_values scenario_values
              (createEncryptedInput lenient_instance "0xAA" "0xBB",
               ([] : list AddCall))))
  = [AddBool true; Add64 5; Add64 1000000].
Proof. reflexivity. Qed.

(** A number that is no integer stops the loop as well. *)
Example add_values_fractional_number :
  snd (add_values [VBoolean false; VNumber (Finite 3 2); VBoolean true]
         ([] : list AddCall))
  = [AddBool false].
Proof. reflexivity. Qed.

(** On the builder itself: the scenario's values are accumulated as a
    boolean and two 64-bit integers. *)
Example add_values_scenario_builder :
  builder_values
    (snd (add_values scenario_values
            (createEncryptedInput lenient_instance "0xAA" "0xBB")))
  = [PBool true; PUint 64 5; PUint 64 1000000].
Proof. reflexivity. Qed.

(** ** The decryption-signature manager *)

Lemma covers_spec (sig : UserDecryptSignature) (addresses : list string) :
  covers sig addresses = true <->
  Forall (fun a => a ∈ contractAddresses sig) addresses.
Proof.
  unfold covers. rewrite forallb_forall, Forall_forall.
  split; intros H a Ha.
  - apply list_elem_of_In in Ha. apply H in Ha.
    now apply bool_decide_eq_true in Ha.
  - apply bool_decide_eq_true. apply H. now apply list_elem_of_In.
Qed.

(** C2: a signature with start T and duration D days is valid exactly at
    the times t with T <= t < T + D*86400, provided every contract address
    decrypted against is among its contract addresses; so it is invalid
    from T + D*86400 on, and, for a positive D, valid at T and at
    T + D*86400 - 1. *)
Theorem isValid_window (sig : UserDecryptSignature)
    (addresses : list string) (t : Z) :
  let T := startTimestamp sig in
  let D := durationDays sig in
  (isValid sig addresses t = true <->
     T <= t < T + D * 86400
     /\ Forall (fun a => a ∈ contractAddresses sig) addresses)
  /\ (T + D * 86400 <= t -> isValid sig addresses t = false)
  /\ (0 < D -> Forall (fun a => a ∈ contractAddresses sig) addresses ->
      isValid sig addresses T = true
      /\ isValid sig addresses (T + D * 86400 - 1) = true
      /\ isValid sig addresses (T + D * 86400) = false).
Proof.
  intros T D.
  assert (Hiff : forall t', isValid sig addresses t' = true <->
            T <= t' < T + D * 86400
            /\ Forall (fun a => a ∈ contractAddresses sig) addresses).
  { intros t'. unfold isValid, unexpired, expiry. fold T D.
    rewrite !andb_true_iff, Z.leb_le, Z.ltb_lt, covers_spec. tauto. }
  assert (Hlate : forall t', T + D * 86400 <= t' ->
            isValid sig addresses t' = false).
  { intros t' Hle. apply not_true_is_false. rewrite Hiff. lia. }
  split; [apply Hiff|]. split; [apply Hlate|].
  intros HD Hcov. repeat split.
  - apply Hiff. split; [lia | exact Hcov].
  - apply Hiff. split; [lia | exact Hcov].
  - apply Hlate. lia.
Qed.


Lemma isValid_window_witness :
  isValid (signature_for ["0xaa"]) ["0xaa"] 1700000000 = true
  /\ isValid (signature_for ["0xaa"]) ["0xaa"]
       (1700000000 + 365 * 86400 - 1) = true
  /\ isValid (signature_for ["0xaa"]) ["0xaa"]
       (1700000000 + 365 * 86400) = false.
Proof.
  apply (proj2 (proj2 (isValid_window (signature_for ["0xaa"]) ["0xaa"] 0))).
  - simpl. lia.
  - repeat constructor.
Defined.

Ltac step_manager :=
  cbv beta iota zeta delta
    [mbind M_bind bind mret M_ret ret settle modify storage_get storage_set
     storage_remove fresh_keypair request_signature sign_and_persist];
  cbn [store prompts key_entropy fst snd].

Lemma loadOrSign_cache_hit (policy : SignaturePolicy)
    (instance : FhevmInstance) (addresses : list string) (signer : Signer)
    (now : Z) (w : ManagerWorld) (user : string)
    (sig : UserDecryptSignature) :
  getAddress signer = Return user ->
  store w !! cache_key policy instance user addresses = Some sig ->
  unexpired sig now = true ->
  loadOrSign policy instance addresses signer now w = (Return sig, w).
Proof.
  intros Huser Hget Hfresh. unfold loadOrSign. step_manager.
  rewrite Huser, Hget, Hfresh. reflexivity.
Qed.

(** After a [loadOrSign] that returned a signature, the storage holds
    that signature under the cache key, and at most one prompt was made. *)
Lemma loadOrSign_returns_stored (policy : SignaturePolicy)
    (instance : FhevmInstance) (addresses : list string) (signer : Signer)
    (now : Z) (w w1 : ManagerWorld) (sig1 : UserDecryptSignature) :
  loadOrSign policy instance addresses signer now w = (Return sig1, w1) ->
  exists user,
    getAddress signer = Return user
    /\ store w1 !! cache_key policy instance user addresses = Some sig1
    /\ (length (prompts w1) <= length (prompts w) + 1)%nat
    /\ (unexpired sig1 now = true
        \/ startTimestamp sig1 = now
           /\ durationDays sig1 = policy_durationDays policy).
Proof.
  unfold loadOrSign. step_manager.
  destruct (getAddress signer) as [user|e] eqn:Huser; [|discriminate].
  intros Hrun. exists user. split; [reflexivity|].
  set (key := cache_key policy instance user addresses) in *.
  destruct (store w !! key) as [sig|] eqn:Hget.
  - destruct (unexpired sig now) eqn:Hfresh.
    + injection Hrun as <- <-. rewrite Hget.
      repeat split; [lia | auto].
    + step_manager.
      destruct (signTypedData signer _) as [ws|e]; [|discriminate Hrun].
      injection Hrun as <- <-. cbn [store prompts].
      rewrite lookup_insert_eq, length_app. simpl.
      repeat split; [lia | auto].
  - destruct (signTypedData signer _) as [ws|e]; [|discriminate Hrun].
    injection Hrun as <- <-. cbn [store prompts].
    rewrite lookup_insert_eq, length_app. simpl.
    repeat split; [lia | auto].
Qed.

(** The cache key depends on the user's address, the normalized
    contract-address set and the instance's key id only. *)
Lemma cache_key_same (policy : SignaturePolicy)
    (instance instance' : FhevmInstance) (user : string)
    (addresses addresses' : list string) :
  instance_keyId instance' = instance_keyId instance ->
  normalize addresses' = normalize addresses ->
  cache_key policy instance' user addresses'
  = cache_key policy instance user addresses.
Proof. unfold cache_key. now intros -> ->. Qed.

(** C3: when the storage holds an unexpired signature under the exact
    cache key, [loadOrSign] returns it and nothing else happens: no
    prompt, no write. Hence a second [loadOrSign] for the same key, that
    is, for the same user address, the same normalized contract-address
    set and the same instance key id, whatever signer object, instance
    object and raw address list it is called with, right after one that
    returned a signature, returns the identical signature, and the two
    calls together make at most one wallet prompt. *)
Theorem loadOrSign_reuses_cached_signature (policy : SignaturePolicy)
    (instance : FhevmInstance) (addresses : list string) (signer : Signer)
    (now : Z) (w : ManagerWorld) :
  (forall user sig,
     getAddress signer = Return user ->
     store w !! cache_key policy instance user addresses = Some sig ->
     unexpired sig now = true ->
     loadOrSign policy instance addresses signer now w = (Return sig, w))
  /\ (forall instance' addresses' signer' sig1 w1,
        0 < policy_durationDays policy ->
        instance_keyId instance' = instance_keyId instance ->
        normalize addresses' = normalize addresses ->
        getAddress signer' = getAddress signer ->
        loadOrSign policy instance addresses signer now w
          = (Return sig1, w1) ->
        loadOrSign policy instance' addresses' signer' now w1
          = (Return sig1, w1)
        /\ (length (prompts w1) <= length (prompts w) + 1)%nat).
Proof.
  split.
  - intros user sig. apply loadOrSign_cache_hit.
  - intros instance' addresses' signer' sig1 w1 Hpolicy Hkey Hset Hsigner
      Hfirst.
    destruct (loadOrSign_returns_stored _ _ _ _ _ _ _ _ Hfirst)
      as (user & Huser & Hstored & Hprompts & Hfresh).
    split; [|exact Hprompts].
    apply (loadOrSign_cache_hit _ _ _ _ _ _ user).
    + now rewrite Hsigner.
    + now rewrite (cache_key_same policy instance instance' user addresses
                     addresses' Hkey Hset).
    + destruct Hfresh as [Hfresh | [Hstart Hdur]]; [exact Hfresh|].
      unfold unexpired, expiry. rewrite Hstart, Hdur. apply Z.ltb_lt. lia.
Qed.

Lemma loadOrSign_reuses_cached_signature_witness :
  let first := loadOrSign sample_policy lenient_instance ["0xAA"; "0xaa"]
                 sample_signer 1700000000 empty_world in
  loadOrSign sample_policy refusing_instance ["0xaa"] sample_signer
    1700000000 (snd first)
  = (Return (signature_for ["0xaa"]), snd first)
  /\ (length (prompts (snd first)) <= 1)%nat.
Proof.
  intros first.
  apply (proj2 (loadOrSign_reuses_cached_signature sample_policy
                  lenient_instance ["0xAA"; "0xaa"] sample_signer
                  1700000000 empty_world)
               refusing_instance ["0xaa"] sample_signer).
  - simpl. lia.
  - reflexivity.
  - vm_compute. reflexivity.
  - reflexivity.
  - vm_compute. reflexivity.
Defined.

Example normalize_addresses :
  normalize ["0xCC"; "0xAA"; "0xaa"; "0xbB"] = ["0xaa"; "0xbb"; "0xcc"].
Proof. vm_compute. reflexivity. Qed.

(** ** custom-contracts/PRSCompute.sol *)

Ltac step_tx :=
  cbv beta iota zeta delta
    [mbind Tx_bind mret Tx_ret read write require update_genotype
     emit_event grant FHE_allow32 FHE_allowThis32 FHE_allowBool
     FHE_allowThisBool];
  cbn [effectSizes genotypeData acl emitted].

(** *** Well-formedness is an invariant of the contract *)

Lemma preserves_ret {A} (P : PRSState -> Prop) (a : A) : preserves P (mret a).
Proof. intros s a' s' HP Hrun. now injection Hrun as _ <-. Qed.

Lemma preserves_bind {A B} (P : PRSState -> Prop) (m : Tx A) (k : A -> Tx B) :
  preserves P m -> (forall a, preserves P (k a)) -> preserves P (m ≫= k).
Proof.
  intros Hm Hk s b s' HP Hrun. unfold mbind, Tx_bind in Hrun.
  destruct (m s) as [a s1|reason] eqn:Hms; [|discriminate Hrun].
  eapply Hk; [|exact Hrun]. eapply Hm; eassumption.
Qed.

Lemma preserves_require (P : PRSState -> Prop) (cond : bool) (reason : string) :
  preserves P (require cond reason).
Proof.
  intros s a s' HP Hrun. unfold require in Hrun.
  destruct cond; [now injection Hrun as _ <- | discriminate Hrun].
Qed.

Lemma preserves_read {A} (P : PRSState -> Prop) (f : PRSState -> A) :
  preserves P (read f).
Proof. intros s a s' HP Hrun. now injection Hrun as _ <-. Qed.

Lemma preserves_index {A} (P : PRSState -> Prop) (l : list A) (i : N) :
  preserves P (index l i).
Proof.
  intros s a s' HP Hrun. unfold index in Hrun.
  destruct (l !! N.to_nat i); [now injection Hrun as _ <- | discriminate Hrun].
Qed.

Lemma preserves_write (P : PRSState -> Prop) (f : PRSState -> PRSState) :
  (forall s, P s -> P (f s)) -> preserves P (write f).
Proof. intros Hf s a s' HP Hrun. injection Hrun as _ <-. now apply Hf. Qed.

Lemma preserves_for_loop {A} (P : PRSState -> Prop) (body : N -> A -> Tx A)
    (count : nat) :
  (forall i acc, preserves P (body i acc)) ->
  forall i acc, preserves P (for_loop count i body acc).
Proof.
  intros Hbody. induction count as [|count IH]; intros i acc; simpl.
  - apply preserves_ret.
  - apply preserves_bind; [apply Hbody | intros acc'; apply IH].
Qed.

Lemma genotype_at_length (individualId : N) (s : PRSState) :
  well_formed s ->
  length (snps (genotype_at individualId s)) = N.to_nat NUM_SNPS.
Proof.
  intros [_ Hgen]. unfold genotype_at.
  destruct (genotypeData s !! individualId) as [g|] eqn:Hg; simpl.
  - eauto.
  - reflexivity.
Qed.

Lemma preserves_update_genotype (individualId : N)
    (f : EncryptedGenotype -> EncryptedGenotype) :
  (forall g, length (snps (f g)) = length (snps g)) ->
  preserves well_formed (update_genotype individualId f).
Proof.
  intros Hf. apply preserves_write. intros s Hwf.
  pose proof (genotype_at_length individualId s Hwf) as Hlen.
  destruct Hwf as [Hsizes Hgen]. split; [exact Hsizes|].
  intros id g. cbn [genotypeData]. rewrite lookup_insert.
  case_decide as Hid.
  - intros Hg. injection Hg as <-. now rewrite Hf.
  - apply Hgen.
Qed.

Lemma preserves_grant (g : Grant) : preserves well_formed (grant g).
Proof. apply preserves_write. now intros s [Hsizes Hgen]. Qed.

Lemma preserves_emit_event (ev : ContractEvent) :
  preserves well_formed (emit_event ev).
Proof. apply preserves_write. now intros s [Hsizes Hgen]. Qed.

(** The structure of a transaction is followed statement by statement;
    [leaf] settles the statements that write. *)
Ltac preserves_step leaf :=
  lazymatch goal with
  | |- preserves _ (@mbind _ _ _ _ _ _) => apply preserves_bind; [|intros ?]
  | |- preserves _ (for_loop _ _ _ _) => apply preserves_for_loop; intros ? ?
  | |- preserves _ (@mret _ _ _ _) => apply preserves_ret
  | |- preserves _ (require _ _) => apply preserves_require
  | |- preserves _ (read _) => apply preserves_read
  | |- preserves _ (index _ _) => apply preserves_index
  | |- preserves _ _ => leaf ()
  end.

Ltac well_formed_leaf _ :=
  lazymatch goal with
  | |- preserves _ (update_genotype _ _) =>
      apply preserves_update_genotype; intros []; simpl;
      rewrite ?length_insert; reflexivity
  | |- preserves _ (grant _) => apply preserves_grant
  | |- preserves _ (emit_event _) => apply preserves_emit_event
  end.

Lemma initial_state_well_formed : well_formed initial_state.
Proof. split; [reflexivity|]. intros id g Hg. inversion Hg. Qed.

Lemma uploadEncryptedGenotype_well_formed (ctx : TxContext)
    (individualId : N) (encryptedSnps : list N) (inputProof : Bytes) :
  preserves well_formed
    (uploadEncryptedGenotype ctx individualId encryptedSnps inputProof).
Proof.
  unfold uploadEncryptedGenotype, store_snp, FHE_fromExternal,
    FHE_allowThis32, FHE_allow32.
  repeat preserves_step well_formed_leaf.
Qed.

Lemma computePRS_well_formed (ctx : TxContext) (individualId : N) :
  preserves well_formed (computePRS ctx individualId).
Proof.
  unfold computePRS, prs_round, FHE_allowThis32, FHE_allow32,
    FHE_allowThisBool, FHE_allowBool.
  repeat preserves_step well_formed_leaf.
Qed.

Lemma updateEffectSize_well_formed (ctx : TxContext) (snpIndex : N)
    (newValue : Z) :
  preserves well_formed (updateEffectSize ctx snpIndex newValue).
Proof.
  unfold updateEffectSize.
  apply preserves_bind; [apply preserves_require | intros _].
  apply preserves_bind; [|intros _; apply preserves_emit_event].
  apply preserves_write. intros s [Hsizes Hgen].
  split; [cbn [effectSizes]; now rewrite length_insert | exact Hgen].
Qed.

(** The sample state is what an upload on the freshly deployed contract
    leaves, up to the grants and the event it also records. *)
Example upload_reaches_sample_state :
  exists s,
    uploadEncryptedGenotype sample_ctx 7 sample_externals sample_proof
      initial_state = Success tt s
    /\ effectSizes s = effectSizes sample_state
    /\ genotypeData s = genotypeData sample_state
    /\ emitted s = [GenotypeUploaded 7 1001 1700000000].
Proof. eexists. vm_compute. repeat split. Qed.

(** C10: [updateEffectSize] looks at no sender. For every transaction
    context and every index below 20 it succeeds, sets that entry of
    [effectSizes] to the new value and leaves the other entries and the
    genotype records as they were; for every index from 20 on it reverts,
    and the state stays as it was. *)
Theorem updateEffectSize_unrestricted (ctx : TxContext) (snpIndex : N)
    (newValue : Z) (s : PRSState) :
  well_formed s ->
  (forall ctx', updateEffectSize ctx' snpIndex newValue s
                = updateEffectSize ctx snpIndex newValue s)
  /\ ((snpIndex < NUM_SNPS)%N ->
      exists s',
        updateEffectSize ctx snpIndex newValue s = Success tt s'
        /\ effectSizes s' !! N.to_nat snpIndex = Some newValue
        /\ (forall j, j <> N.to_nat snpIndex ->
              effectSizes s' !! j = effectSizes s !! j)
        /\ genotypeData s' = genotypeData s
        /\ well_formed s')
  /\ ((NUM_SNPS <= snpIndex)%N ->
      updateEffectSize ctx snpIndex newValue s = Revert "Invalid SNP index"
      /\ execute (updateEffectSize ctx snpIndex newValue) s
         = (s, Some "Invalid SNP index")).
Proof.
  intros [Hsizes Hgen]. split; [reflexivity|]. split.
  - intros Hlt. unfold updateEffectSize. step_tx.
    apply N.ltb_lt in Hlt as Hb. rewrite Hb.
    eexists. split; [reflexivity|]. cbn [effectSizes genotypeData].
    assert (N.to_nat snpIndex < length (effectSizes s))%nat as Hin.
    { rewrite Hsizes. unfold NUM_SNPS in *. lia. }
    split; [now apply list_lookup_insert_eq|].
    split; [intros j Hj; now apply list_lookup_insert_ne|].
    split; [reflexivity|].
    split; [cbn [effectSizes]; now rewrite length_insert | exact Hgen].
  - intros Hge. apply N.ltb_ge in Hge as Hb.
    assert (updateEffectSize ctx snpIndex newValue s
            = Revert "Invalid SNP index") as Hrev.
    { unfold updateEffectSize. step_tx. now rewrite Hb. }
    split; [exact Hrev|]. unfold execute. now rewrite Hrev.
Qed.


Lemma sample_state_well_formed : well_formed sample_state.
Proof.
  split; [reflexivity|]. intros individualId g Hg. simpl in Hg.
  apply lookup_singleton_Some in Hg as [_ <-]. reflexivity.
Qed.

Lemma updateEffectSize_unrestricted_witness :
  exists s',
    updateEffectSize sample_ctx 3 9 sample_state = Success tt s'
    /\ effectSizes s' !! 3%nat = Some 9
    /\ execute (updateEffectSize sample_ctx 20 9) sample_state
       = (sample_state, Some "Invalid SNP index").
Proof.
  destruct (updateEffectSize_unrestricted sample_ctx 3 9 sample_state
              sample_state_well_formed) as (_ & Hok & _).
  destruct (Hok ltac:(reflexivity)) as (s' & Hrun & Hset & _).
  destruct (updateEffectSize_unrestricted sample_ctx 20 9 sample_state
              sample_state_well_formed) as (_ & _ & Hrev).
  destruct (Hrev ltac:(discriminate)) as [_ Hexec].
  exists s'. split; [exact Hrun|]. split; [exact Hset | exact Hexec].
Defined.

Lemma uint32_wrap_idem (z : Z) : uint32_wrap (uint32_wrap z) = uint32_wrap z.
Proof. unfold uint32_wrap. now rewrite Z.mod_mod. Qed.

Lemma cleartext32_wrapped (inputs : N -> Z) (e : euint32) :
  uint32_wrap (cleartext32 inputs e) = cleartext32 inputs e.
Proof. destruct e; simpl; try apply uint32_wrap_idem; reflexivity. Qed.

Lemma cleartext32_accumulate (inputs : N -> Z) (pairs : list (euint32 * Z))
    (acc : euint32) :
  cleartext32 inputs
    (fold_left (fun a p => FHE_add a (FHE_mul p.1 (FHE_asEuint32 p.2)))
               pairs acc)
  = uint32_wrap (cleartext32 inputs acc
                 + foldr (fun p a => cleartext32 inputs p.1 * p.2 + a) 0 pairs).
Proof.
  revert acc. induction pairs as [|[x beta] rest IH]; intros acc; simpl.
  - now rewrite Z.add_0_r, cleartext32_wrapped.
  - rewrite IH. simpl. unfold uint32_wrap.
    rewrite Z.add_mod_idemp_l by lia.
    set (a := cleartext32 inputs acc).
    set (c := cleartext32 inputs x).
    set (r := foldr _ 0 rest).
    replace (a + (c * (beta mod 2 ^ 32)) mod 2 ^ 32 + r)
      with ((c * (beta mod 2 ^ 32)) mod 2 ^ 32 + (a + r)) by lia.
    rewrite Z.add_mod_idemp_l by lia.
    rewrite <- Z.add_mod_idemp_l by lia.
    rewrite Z.mul_mod_idemp_r by lia.
    rewrite Z.add_mod_idemp_l by lia.
    f_equal. lia.
Qed.

Lemma cleartext32_prs_handle (inputs : N -> Z) (genotypes : list euint32)
    (sizes : list Z) :
  cleartext32 inputs (prs_handle genotypes sizes)
  = uint32_wrap (weighted_sum inputs genotypes sizes).
Proof.
  unfold prs_handle, weighted_sum. rewrite cleartext32_accumulate.
  reflexivity.
Qed.

(** The loop of [computePRS] from index [i] on, for [count] rounds: it
    folds the multiply-and-add over the corresponding stretch of the two
    arrays and leaves the state alone. *)
Lemma computePRS_loop (individualId : N) (s : PRSState) (count : nat) :
  forall (i : nat) (acc : euint32),
  (i + count <= length (snps (genotype_at individualId s)))%nat ->
  (i + count <= length (effectSizes s))%nat ->
  for_loop count (N.of_nat i) (prs_round individualId) acc s
  = Success
      (fold_left (fun a p => FHE_add a (FHE_mul p.1 (FHE_asEuint32 p.2)))
         (take count (drop i (zip (snps (genotype_at individualId s))
                                  (effectSizes s))))
         acc) s.
Proof.
  induction count as [|count IH]; intros i acc Hsnps Hsizes.
  - reflexivity.
  - destruct (lookup_lt_is_Some_2 (snps (genotype_at individualId s)) i)
      as [x Hx]; [lia|].
    destruct (lookup_lt_is_Some_2 (effectSizes s) i) as [beta Hbeta]; [lia|].
    assert (zip (snps (genotype_at individualId s)) (effectSizes s) !! i
            = Some (x, beta)) as Hzip.
    { rewrite lookup_zip_with, Hx, Hbeta. reflexivity. }
    rewrite (drop_S _ _ _ Hzip). simpl take. simpl fold_left.
    rewrite <- (IH (S i)) by lia.
    simpl for_loop. rewrite Nat2N.inj_succ.
    unfold prs_round, index. step_tx. rewrite Nat2N.id, Hx, Hbeta.
    reflexivity.
Qed.

Lemma tx_bind_read {A B} (f : PRSState -> A) (k : A -> Tx B) (s : PRSState) :
  (read f ≫= k) s = k (f s) s.
Proof. reflexivity. Qed.

Lemma tx_bind_write {B} (f : PRSState -> PRSState) (k : unit -> Tx B)
    (s : PRSState) :
  (write f ≫= k) s = k tt (f s).
Proof. reflexivity. Qed.

Lemma tx_bind_require {B} (cond : bool) (reason : string) (k : unit -> Tx B)
    (s : PRSState) :
  (require cond reason ≫= k) s = if cond then k tt s else Revert reason.
Proof. unfold mbind, Tx_bind, require. now destruct cond. Qed.

Lemma tx_bind_success {A B} (m : Tx A) (k : A -> Tx B) (s s1 : PRSState)
    (a : A) :
  m s = Success a s1 -> (m ≫= k) s = k a s1.
Proof. intros Hm. unfold mbind, Tx_bind. now rewrite Hm. Qed.

Lemma genotype_at_insert (individualId : N) (x : EncryptedGenotype)
    (sizes : list Z) (m : gmap N EncryptedGenotype) (a : list Grant)
    (e : list ContractEvent) :
  genotype_at individualId
    {| effectSizes := sizes; genotypeData := <[individualId := x]> m;
       acl := a; emitted := e |} = x.
Proof. unfold genotype_at. cbn [genotypeData]. now rewrite lookup_insert_eq. Qed.

(** One statement of a transaction at a time; the projections of the
    states built on the way are reduced at once, which keeps them small. *)
Ltac tx_steps :=
  repeat (first [ rewrite tx_bind_read
                | rewrite tx_bind_write
                | rewrite tx_bind_require ];
          cbv beta; cbn [effectSizes genotypeData acl emitted];
          rewrite ?genotype_at_insert).

(** *** Once computed, the risk stays computed *)

Lemma preserves_update_other (individualId other : N)
    (g0 : EncryptedGenotype) (f : EncryptedGenotype -> EncryptedGenotype) :
  other <> individualId ->
  preserves (fun s => genotype_at individualId s = g0)
            (update_genotype other f).
Proof.
  intros Hne. apply preserves_write. intros s Hs.
  unfold genotype_at in *. cbn [genotypeData].
  now rewrite lookup_insert_ne.
Qed.

Lemma preserves_write_genotypes (individualId : N) (g0 : EncryptedGenotype)
    (f : PRSState -> PRSState) :
  (forall s, genotypeData (f s) = genotypeData s) ->
  preserves (fun s => genotype_at individualId s = g0) (write f).
Proof.
  intros Hf. apply preserves_write. intros s Hs.
  unfold genotype_at in *. now rewrite Hf.
Qed.

Ltac keeps_genotype_leaf Hne _ :=
  lazymatch goal with
  | |- preserves _ (update_genotype _ _) =>
      apply preserves_update_other; exact Hne
  | |- preserves _ (write _) =>
      apply preserves_write_genotypes; intros ?; reflexivity
  end.

Lemma computePRS_already_computed (ctx : TxContext) (individualId : N)
    (s : PRSState) :
  owner (genotype_at individualId s) <> 0%N ->
  riskComputed (genotype_at individualId s) = true ->
  computePRS ctx individualId s = Revert "Risk already computed".
Proof.
  intros Howner Hrisk. apply N.eqb_neq in Howner.
  unfold computePRS. tx_steps. now rewrite Howner, Hrisk.
Qed.

Lemma uploadEncryptedGenotype_existing (ctx : TxContext) (individualId : N)
    (encryptedSnps : list N) (inputProof : Bytes) (s : PRSState) :
  owner (genotype_at individualId s) <> 0%N ->
  exists reason,
    uploadEncryptedGenotype ctx individualId encryptedSnps inputProof s
    = Revert reason.
Proof.
  intros Howner. apply N.eqb_neq in Howner.
  unfold uploadEncryptedGenotype. tx_steps. rewrite Howner.
  destruct (N.of_nat (length encryptedSnps) =? NUM_SNPS)%N; eauto.
Qed.

(** No transaction changes the record of an individual whose risk has
    been computed. *)
Lemma computed_genotype_stable (individualId : N) (c : Call) (s : PRSState) :
  owner (genotype_at individualId s) <> 0%N ->
  riskComputed (genotype_at individualId s) = true ->
  genotype_at individualId (fst (execute (run_call c) s))
  = genotype_at individualId s.
Proof.
  intros Howner Hrisk.
  assert (Hkeep : forall tx : Tx unit,
            preserves (fun s' => genotype_at individualId s'
                                 = genotype_at individualId s) tx ->
            genotype_at individualId (fst (execute tx s))
            = genotype_at individualId s).
  { intros tx Htx. unfold execute.
    destruct (tx s) as [a s'|reason] eqn:Hrun; [|reflexivity].
    exact (Htx s a s' eq_refl Hrun). }
  destruct c as [ctx other encryptedSnps inputProof | ctx other
                 | ctx snpIndex newValue]; simpl run_call.
  - destruct (decide (other = individualId)) as [-> | Hne].
    + destruct (uploadEncryptedGenotype_existing ctx individualId
                  encryptedSnps inputProof s Howner) as [reason Hrev].
      unfold execute. now rewrite Hrev.
    + apply Hkeep.
      unfold uploadEncryptedGenotype, store_snp, FHE_fromExternal,
        FHE_allowThis32, FHE_allow32, grant, emit_event.
      repeat preserves_step ltac:(keeps_genotype_leaf Hne).
  - destruct (decide (other = individualId)) as [-> | Hne].
    + unfold execute.
      now rewrite (computePRS_already_computed ctx individualId s).
    + apply Hkeep.
      unfold computePRS, prs_round, FHE_allowThis32, FHE_allow32,
        FHE_allowThisBool, FHE_allowBool, grant, emit_event.
      repeat preserves_step ltac:(keeps_genotype_leaf Hne).
  - apply Hkeep. unfold updateEffectSize, emit_event.
    repeat preserves_step ltac:(keeps_genotype_leaf I).
Qed.

Lemma computed_genotype_stable_calls (individualId : N) (calls : list Call)
    (s : PRSState) :
  owner (genotype_at individualId s) <> 0%N ->
  riskComputed (genotype_at individualId s) = true ->
  genotype_at individualId (apply_calls calls s) = genotype_at individualId s.
Proof.
  revert s. induction calls as [|c calls IH]; intros s Howner Hrisk.
  - reflexivity.
  - simpl. pose proof (computed_genotype_stable individualId c s Howner Hrisk)
      as Hstep.
    rewrite IH; rewrite Hstep; auto.
Qed.

(** Every state the deployed contract can reach is well-formed. *)
Lemma reachable_well_formed (calls : list Call) :
  well_formed (apply_calls calls initial_state).
Proof.
  assert (Hgen : forall s, well_formed s -> well_formed (apply_calls calls s)).
  { induction calls as [|c calls IH]; intros s Hwf; [exact Hwf|].
    simpl. apply IH. unfold execute.
    destruct (run_call c s) as [a s'|reason] eqn:Hrun; [|exact Hwf].
    simpl. destruct c; simpl in Hrun.
    - eapply uploadEncryptedGenotype_well_formed; eassumption.
    - eapply computePRS_well_formed; eassumption.
    - eapply updateEffectSize_well_formed; eassumption. }
  apply Hgen, initial_state_well_formed.
Qed.

(** C9: on a stored genotype whose risk was not computed yet,
    [computePRS] succeeds and stores, as [prsScore], the handle of the
    encrypted sum over the 20 SNPs of snps[i] * effectSizes[i] and, as
    [isHighRisk], the handle of the encrypted comparison of that sum with
    50 (in 32-bit arithmetic on the cleartexts), and sets [riskComputed].
    After that, whatever transactions follow, a [computePRS] for the same
    individual reverts with "Risk already computed" and the state, with
    the stored record, stays as it was. *)
Theorem computePRS_stores_classification (ctx ctx' : TxContext)
    (individualId : N) (s : PRSState) (g : EncryptedGenotype)
    (inputs : N -> Z) :
  well_formed s ->
  genotypeData s !! individualId = Some g ->
  owner g <> 0%N ->
  riskComputed g = false ->
  exists s' g',
    computePRS ctx individualId s = Success tt s'
    /\ genotypeData s' !! individualId = Some g'
    /\ prsScore g' = prs_handle (snps g) (effectSizes s)
    /\ isHighRisk g' = FHE_gt (prs_handle (snps g) (effectSizes s))
                              (FHE_asEuint32 RISK_THRESHOLD)
    /\ riskComputed g' = true
    /\ snps g' = snps g /\ owner g' = owner g /\ timestamp g' = timestamp g
    /\ cleartext32 inputs (prsScore g')
       = uint32_wrap (weighted_sum inputs (snps g) (effectSizes s))
    /\ cleartext_bool inputs (isHighRisk g')
       = (50 <? uint32_wrap (weighted_sum inputs (snps g) (effectSizes s)))
    /\ (forall later : list Call,
          let s'' := apply_calls later s' in
          computePRS ctx' individualId s'' = Revert "Risk already computed"
          /\ execute (computePRS ctx' individualId) s''
             = (s'', Some "Risk already computed")
          /\ genotype_at individualId s'' = g').
Proof.
  intros [Hsizes Hgen] Hg Howner Hrisk.
  assert (genotype_at individualId s = g) as Hat.
  { unfold genotype_at. now rewrite Hg. }
  assert (length (snps g) = N.to_nat NUM_SNPS) as Hsnps by eauto.
  assert ((owner g =? 0)%N = false) as Hob by now apply N.eqb_neq.
  set (score := prs_handle (snps g) (effectSizes s)).
  set (g' := set_riskComputed true
               (set_isHighRisk (FHE_gt score (FHE_asEuint32 RISK_THRESHOLD))
                  (set_prsScore score g))).
  assert (Hrun : exists s',
            computePRS ctx individualId s = Success tt s'
            /\ genotypeData s' !! individualId = Some g').
  { unfold computePRS. tx_steps. rewrite Hat, Hob, Hrisk. cbn [negb].
    change 0%N with (N.of_nat 0).
    erewrite tx_bind_success by (apply computePRS_loop; rewrite ?Hat; lia).
    rewrite Hat, drop_0, take_ge by (rewrite length_zip; lia).
    fold (prs_handle (snps g) (effectSizes s)). fold score.
    unfold update_genotype, FHE_allowThisBool, FHE_allowBool,
      FHE_allowThis32, FHE_allow32, grant, emit_event.
    tx_steps. rewrite Hat.
    eexists. split; [reflexivity|]. cbn [genotypeData].
    rewrite lookup_insert_eq. reflexivity. }
  destruct Hrun as (s' & Hrun & Hg').
  assert (genotype_at individualId s' = g') as Hat'.
  { unfold genotype_at. now rewrite Hg'. }
  exists s', g'. split; [exact Hrun|]. split; [exact Hg'|].
  repeat (split; [reflexivity|]).
  split; [apply cleartext32_prs_handle|].
  split.
  { change (isHighRisk g')
      with (EB_gt (prs_handle (snps g) (effectSizes s))
                  (E32_trivial RISK_THRESHOLD)).
    cbn [cleartext_bool]. rewrite cleartext32_prs_handle. reflexivity. }
  intros later s''.
  assert (genotype_at individualId s'' = g') as Hlater.
  { unfold s''. rewrite computed_genotype_stable_calls; rewrite Hat'; auto. }
  assert (computePRS ctx' individualId s'' = Revert "Risk already computed")
    as Hagain.
  { apply computePRS_already_computed; rewrite Hlater; auto. }
  split; [exact Hagain|]. split; [|exact Hlater].
  unfold execute. now rewrite Hagain.
Qed.

Lemma computePRS_stores_classification_witness :
  exists s',
    computePRS sample_ctx 7 sample_state = Success tt s'
    /\ computePRS sample_ctx 7
         (apply_calls [CallUpdateEffectSize sample_ctx 0 40] s')
       = Revert "Risk already computed".
Proof.
  destruct (computePRS_stores_classification sample_ctx sample_ctx 7
              sample_state sample_genotype (fun _ => 1)
              sample_state_well_formed)
    as (s' & g' & Hrun & _ & _ & _ & _ & _ & _ & _ & _ & _ & Hlater).
  - reflexivity.
  - discriminate.
  - reflexivity.
  - exists s'. split; [exact Hrun|].
    exact (proj1 (Hlater [CallUpdateEffectSize sample_ctx 0 40])).
Defined.

(** ** The components' busy flags *)

(** Whatever happens in between, a click that runs ends with the
    encrypt button idle again. *)
Lemma FHEEncryptWithAbi_onClick_idle {Abi Params : Type}
    (buildParamsFromAbi : EncryptedInput -> Abi -> string -> Outcome Params)
    (props : EncryptButtonProps Abi Params) (u : EncryptUi Params) :
  canEncrypt {| params_instance := eprops_instance props;
                params_ethersSigner := eprops_signer props;
                params_contractAddress := eprops_contractAddress props |}
    = true ->
  isEncrypting (snd (FHEEncryptWithAbi_onClick buildParamsFromAbi props u))
    = false.
Proof.
  unfold canEncrypt, FHEEncryptWithAbi_onClick. cbn [params_instance
    params_ethersSigner params_contractAddress].
  destruct (eprops_instance props), (eprops_signer props),
    (eprops_contractAddress props); intros Hcan; try discriminate Hcan.
  unfold mbind, M_bind, bind, try_finally, setIsEncrypting, modify.
  match goal with
  | |- context [let (o, s') := ?m in _] => destruct m as [o s']
  end.
  reflexivity.
Qed.

Lemma try_finally_modify {S A} (m : M S A) (f : S -> S) (s : S) :
  snd (try_finally m (modify f) s) = f (snd (m s)).
Proof. unfold try_finally, modify. now destruct (m s). Qed.

(** The same for the decrypt button. *)
Lemma FHEDecryptButton_onClick_idle (loadOrSign : LoadOrSign)
    (props : DecryptButtonProps) (u : DecryptUi) :
  isDecrypting u = false ->
  isDecrypting (snd (FHEDecryptButton_onClick loadOrSign props u)) = false.
Proof.
  intros Hidle. unfold FHEDecryptButton_onClick.
  destruct (props_instance props), (props_signer props),
    (props_requests props) as [requests|]; try exact Hidle.
  destruct (length requests =? 0)%nat; [exact Hidle|].
  unfold mbind, M_bind, bind, setIsDecrypting, setMessage, setError.
  unfold modify at 1 2 3. cbv beta iota.
  now rewrite try_finally_modify.
Qed.

(** ** Conversions *)

Example BigInt_of_string_ex1 : BigInt_of_string " 42 " = Return 42.
Proof. reflexivity. Qed.
Example BigInt_of_string_ex2 : BigInt_of_string "0x1f" = Return 31.
Proof. reflexivity. Qed.
Example BigInt_of_string_ex3 : StringToBigInt "abc" = None.
Proof. reflexivity. Qed.
Example BigInt_of_string_ex4 : StringToBigInt "-12" = Some (-12).
Proof. reflexivity. Qed.
Example BigInt_of_string_ex5 : StringToBigInt "1.5" = None.
Proof. reflexivity. Qed.

(** White space beyond ASCII is trimmed as well: a no-break space
    (U+00A0) before and a byte order mark (U+FEFF) after the digits. *)
Example BigInt_of_string_ex6 :
  BigInt_of_string
    (String (ascii_of_nat 194) (String (ascii_of_nat 160) "42")
     +:+ String (ascii_of_nat 239) (String (ascii_of_nat 187)
           (String (ascii_of_nat 191) "")))
  = Return 42.
Proof. reflexivity. Qed.

(* --------------------------------------------------------------------- *)
(** ** PRSCompute.sol: uploads, computations and views in closed form     *)
(* --------------------------------------------------------------------- *)

Lemma tx_bind_index {A B} (l : list A) (i : N) (x : A) (k : A -> Tx B)
    (s : PRSState) :
  l !! N.to_nat i = Some x -> (index l i ≫= k) s = k x s.
Proof. intros Hx. unfold mbind, Tx_bind, index. now rewrite Hx. Qed.

Lemma tx_bind_ret {A B} (x : A) (k : A -> Tx B) (s : PRSState) :
  (mret x ≫= k) s = k x s.
Proof. reflexivity. Qed.

Lemma tx_bind_assoc {A B C} (m : Tx A) (f : A -> Tx B) (g : B -> Tx C)
    (s : PRSState) :
  ((m ≫= f) ≫= g) s = (m ≫= (fun a => f a ≫= g)) s.
Proof. unfold mbind, Tx_bind. now destruct (m s). Qed.

Lemma genotype_eta (g : EncryptedGenotype) :
  {| snps := snps g; owner := owner g; timestamp := timestamp g;
     riskComputed := riskComputed g; prsScore := prsScore g;
     isHighRisk := isHighRisk g |} = g.
Proof. now destruct g. Qed.

(** The loop of [uploadEncryptedGenotype] from index [i] on, over the
    handles [rest] still to be stored. *)
Lemma upload_loop (ctx : TxContext) (individualId : N)
    (encryptedSnps : list N) (inputProof : Bytes) (sizes : list Z)
    (gd : gmap N EncryptedGenotype) (ev : list ContractEvent)
    (rest : list N) :
  forall (i : nat) (g : EncryptedGenotype) (a : list Grant),
  drop i encryptedSnps = rest ->
  (i + length rest <= length (snps g))%nat ->
  for_loop (length rest) (N.of_nat i) (fun i _ =>
    external ← index encryptedSnps i;
    h ← FHE_fromExternal ctx external inputProof;
    store_snp individualId i h;;
    genotype ← read (genotype_at individualId);
    snp ← index (snps genotype) i;
    FHE_allowThis32 ctx snp;;
    snp' ← index (snps genotype) i;
    FHE_allow32 snp' (msg_sender ctx)) tt
    {| effectSizes := sizes; genotypeData := <[individualId := g]> gd;
       acl := a; emitted := ev |}
  = if forallb (fun e => input_verified ctx e inputProof) rest
    then Success tt
      {| effectSizes := sizes;
         genotypeData :=
           <[individualId :=
               {| snps := take i (snps g)
                          ++ map (fun e => E32_input e inputProof) rest
                          ++ drop (i + length rest) (snps g);
                  owner := owner g; timestamp := timestamp g;
                  riskComputed := riskComputed g; prsScore := prsScore g;
                  isHighRisk := isHighRisk g |}]> gd;
         acl := a ++ upload_grants ctx rest inputProof; emitted := ev |}
    else Revert "InvalidInputProof".
Proof.
  induction rest as [|e rest IH]; intros i g a Hdrop Hlen.
  - simpl. rewrite Nat.add_0_r, take_drop, app_nil_r, genotype_eta.
    reflexivity.
  - assert (encryptedSnps !! i = Some e) as He.
    { rewrite <- (Nat.add_0_r i), <- lookup_drop, Hdrop. reflexivity. }
    assert (drop (S i) encryptedSnps = rest) as Hdrop'.
    { rewrite (drop_S _ _ _ He) in Hdrop. now injection Hdrop. }
    simpl length in *.
    match goal with
    | |- for_loop _ _ ?b _ _ = _ => set (body := b) in *
    end.
    simpl for_loop. unfold body at 2. cbv beta.
    rewrite !tx_bind_assoc.
    rewrite (tx_bind_index _ _ e) by (now rewrite Nat2N.id).
    unfold FHE_fromExternal, store_snp.
    rewrite !tx_bind_assoc, tx_bind_require. simpl forallb.
    destruct (input_verified ctx e inputProof); [|reflexivity].
    cbn [andb]. rewrite tx_bind_ret, !tx_bind_assoc, tx_bind_read.
    rewrite genotype_at_insert.
    destruct (lookup_lt_is_Some_2 (snps g) i) as [old Hold]; [lia|].
    rewrite ?tx_bind_assoc.
    rewrite (tx_bind_index _ _ old) by (now rewrite Nat2N.id).
    unfold update_genotype. rewrite ?tx_bind_assoc, tx_bind_write. cbv beta.
    cbn [effectSizes genotypeData acl emitted].
    rewrite genotype_at_insert, insert_insert_eq.
    rewrite ?tx_bind_assoc, tx_bind_read, genotype_at_insert.
    assert (snps (set_snp (N.of_nat i) (E32_input e inputProof) g) !! i
            = Some (E32_input e inputProof)) as Hnew.
    { cbn [snps set_snp]. rewrite Nat2N.id.
      apply list_lookup_insert_eq. lia. }
    rewrite ?tx_bind_assoc.
    rewrite (tx_bind_index _ _ (E32_input e inputProof))
      by (now rewrite Nat2N.id).
    unfold FHE_allowThis32, FHE_allow32, grant.
    rewrite ?tx_bind_assoc, tx_bind_write. cbv beta.
    cbn [effectSizes genotypeData acl emitted].
    rewrite ?tx_bind_assoc.
    rewrite (tx_bind_index _ _ (E32_input e inputProof))
      by (now rewrite Nat2N.id).
    rewrite ?tx_bind_assoc, tx_bind_write. cbv beta.
    cbn [effectSizes genotypeData acl emitted].
    rewrite <- Nat2N.inj_succ.
    rewrite (IH (S i)); [|exact Hdrop'|cbn [snps set_snp];
                                        rewrite length_insert; lia].
    destruct (forallb _ rest); [|reflexivity].
    cbn [snps set_snp owner timestamp riskComputed prsScore isHighRisk].
    rewrite Nat2N.id.
    rewrite (take_S_r _ _ (E32_input e inputProof))
      by (apply list_lookup_insert_eq; lia).
    rewrite take_insert_ge by lia.
    rewrite drop_insert_lt by lia.
    replace (S i + length rest)%nat with (i + S (length rest))%nat by lia.
    simpl map. unfold upload_grants. simpl concat.
    rewrite <- !app_assoc. reflexivity.
Qed.

Lemma tx_bind_eq {A B} (m : Tx A) (k : A -> Tx B) (s : PRSState) :
  (m ≫= k) s = match m s with
               | Success a s' => k a s'
               | Revert reason => Revert reason
               end.
Proof. reflexivity. Qed.

(** An upload, on a state in which the individual's record has its 20
    SNP slots. *)
Lemma uploadEncryptedGenotype_run (ctx : TxContext)
    (individualId : N) (encryptedSnps : list N) (inputProof : Bytes)
    (s : PRSState) :
  length (snps (genotype_at individualId s)) = N.to_nat NUM_SNPS ->
  uploadEncryptedGenotype ctx individualId encryptedSnps inputProof s
  = upload_outcome ctx individualId encryptedSnps inputProof s.
Proof.
  intros Hsnps.
  unfold uploadEncryptedGenotype, upload_outcome. tx_steps.
  destruct (N.of_nat (length encryptedSnps) =? NUM_SNPS)%N eqn:Hlen;
    [|reflexivity].
  apply N.eqb_eq in Hlen.
  assert (length encryptedSnps = N.to_nat NUM_SNPS) as Hlen' by lia.
  cbn [negb].
  destruct (owner (genotype_at individualId s) =? 0)%N; [|reflexivity].
  cbn [negb]. unfold update_genotype. tx_steps.
  rewrite !insert_insert_eq, tx_bind_eq.
  rewrite <- Hlen'. change 0%N with (N.of_nat 0).
  rewrite (upload_loop ctx individualId encryptedSnps inputProof)
    by (cbn [snps set_riskComputed set_timestamp set_owner];
        rewrite ?drop_0; first [reflexivity | lia]).
  destruct (forallb _ encryptedSnps); [|reflexivity].
  unfold emit_event, write.
  cbn [effectSizes genotypeData acl emitted snps owner timestamp
       riskComputed prsScore isHighRisk set_riskComputed set_timestamp
       set_owner].
  rewrite take_0, drop_ge, app_nil_r by lia.
  reflexivity.
Qed.

(** X1: what an upload comes to. On a well-formed state it reverts with
    "Invalid number of SNPs" unless exactly 20 handles are given, with
    "Individual already exists" when the individual has an owner, and
    when the verifier refuses one of the handles; otherwise it succeeds,
    and the individual's record then holds the 20 verified inputs in
    order, the sender as owner, the block time, and no computed risk;
    every SNP is granted to the contract and to the sender, one
    GenotypeUploaded event is logged, and the effect sizes and all other
    records are as before. *)
Theorem uploadEncryptedGenotype_closed_form (ctx : TxContext)
    (individualId : N) (encryptedSnps : list N) (inputProof : Bytes)
    (s : PRSState) :
  well_formed s ->
  uploadEncryptedGenotype ctx individualId encryptedSnps inputProof s
  = upload_outcome ctx individualId encryptedSnps inputProof s.
Proof.
  intros Hwf. apply uploadEncryptedGenotype_run.
  exact (genotype_at_length individualId s Hwf).
Qed.

Lemma uploadEncryptedGenotype_closed_form_witness :
  uploadEncryptedGenotype sample_ctx 7 sample_externals sample_proof
    initial_state
  = upload_outcome sample_ctx 7 sample_externals sample_proof initial_state.
Proof.
  apply (uploadEncryptedGenotype_closed_form sample_ctx 7 sample_externals
           sample_proof initial_state).
  exact initial_state_well_formed.
Defined.

(** A risk computation, on a state with 20 effect sizes in which the
    individual's record has its 20 SNP slots. *)
Lemma computePRS_run (ctx : TxContext) (individualId : N)
    (s : PRSState) :
  length (effectSizes s) = N.to_nat NUM_SNPS ->
  length (snps (genotype_at individualId s)) = N.to_nat NUM_SNPS ->
  computePRS ctx individualId s = computePRS_outcome ctx individualId s.
Proof.
  intros Hsizes Hsnps.
  unfold computePRS, computePRS_outcome. tx_steps. cbv zeta.
  destruct (owner (genotype_at individualId s) =? 0)%N; [reflexivity|].
  cbn [negb].
  destruct (riskComputed (genotype_at individualId s)); [reflexivity|].
  cbn [negb]. change 0%N with (N.of_nat 0).
  erewrite tx_bind_success by (apply computePRS_loop; lia).
  rewrite drop_0, take_ge by (rewrite length_zip; lia).
  fold (prs_handle (snps (genotype_at individualId s)) (effectSizes s)).
  unfold update_genotype, FHE_allowThisBool, FHE_allowBool,
    FHE_allowThis32, FHE_allow32, grant, emit_event.
  tx_steps. unfold write. cbv beta.
  cbn [effectSizes genotypeData acl emitted].
  rewrite !insert_insert_eq.
  unfold computePRS_grants, computed_genotype.
  cbn [isHighRisk prsScore owner set_riskComputed set_isHighRisk
       set_prsScore snps timestamp riskComputed].
  rewrite <- !app_assoc. reflexivity.
Qed.

(** X2: what a risk computation comes to. On a well-formed state it
    reverts with "Individual not found" for an individual without owner
    and with "Risk already computed" when the risk is computed;
    otherwise it succeeds for whoever sends it: the record gets score and
    classification computed from the effect sizes of that moment, the
    sender, like the contract and the owner, is granted both handles,
    the two events are logged, and the effect sizes and all other
    records are as before. *)
Theorem computePRS_closed_form (ctx : TxContext) (individualId : N)
    (s : PRSState) :
  well_formed s ->
  computePRS ctx individualId s = computePRS_outcome ctx individualId s.
Proof.
  intros Hwf. apply computePRS_run.
  - exact (proj1 Hwf).
  - exact (genotype_at_length individualId s Hwf).
Qed.

Lemma computePRS_closed_form_witness :
  computePRS sample_ctx 7 sample_state
  = computePRS_outcome sample_ctx 7 sample_state.
Proof.
  apply (computePRS_closed_form sample_ctx 7 sample_state).
  exact sample_state_well_formed.
Defined.

Lemma updateEffectSize_closed_form (ctx : TxContext) (snpIndex : N)
    (newValue : Z) (s : PRSState) :
  updateEffectSize ctx snpIndex newValue s
  = if (snpIndex <? NUM_SNPS)%N
    then Success tt
           {| effectSizes := <[N.to_nat snpIndex := newValue]> (effectSizes s);
              genotypeData := genotypeData s; acl := acl s;
              emitted := emitted s ++ [EffectSizeUpdated snpIndex newValue] |}
    else Revert "Invalid SNP index".
Proof.
  unfold updateEffectSize, emit_event. tx_steps.
  now destruct (snpIndex <? NUM_SNPS)%N.
Qed.

Lemma execute_well_formed (c : Call) (s : PRSState) :
  well_formed s -> well_formed (fst (execute (run_call c) s)).
Proof.
  intros Hwf. unfold execute.
  destruct (run_call c s) as [a s'|reason] eqn:Hrun; [|exact Hwf].
  simpl. destruct c; simpl in Hrun.
  - eapply uploadEncryptedGenotype_well_formed; eassumption.
  - eapply computePRS_well_formed; eassumption.
  - eapply updateEffectSize_well_formed; eassumption.
Qed.

Lemma genotype_at_insert_ne (individualId other : N) (x : EncryptedGenotype)
    (sizes : list Z) (m : gmap N EncryptedGenotype) (a : list Grant)
    (e : list ContractEvent) :
  other <> individualId ->
  genotype_at individualId
    {| effectSizes := sizes; genotypeData := <[other := x]> m;
       acl := a; emitted := e |}
  = default empty_genotype (m !! individualId).
Proof.
  intros Hne. unfold genotype_at. cbn [genotypeData].
  now rewrite lookup_insert_ne.
Qed.

(** The state after one transaction, case by case. *)
Lemma execute_upload (ctx : TxContext) (individualId : N)
    (encryptedSnps : list N) (inputProof : Bytes) (s : PRSState) :
  well_formed s ->
  fst (execute (run_call (CallUpload ctx individualId encryptedSnps
                            inputProof)) s)
  = match upload_outcome ctx individualId encryptedSnps inputProof s with
    | Success _ s' => s'
    | Revert _ => s
    end.
Proof.
  intros Hwf. unfold execute. simpl run_call.
  rewrite uploadEncryptedGenotype_run
    by exact (genotype_at_length individualId s Hwf).
  now destruct (upload_outcome _ _ _ _ _).
Qed.

Lemma execute_computePRS (ctx : TxContext) (individualId : N)
    (s : PRSState) :
  well_formed s ->
  fst (execute (run_call (CallComputePRS ctx individualId)) s)
  = match computePRS_outcome ctx individualId s with
    | Success _ s' => s'
    | Revert _ => s
    end.
Proof.
  intros Hwf. unfold execute. simpl run_call.
  rewrite computePRS_run
    by (exact (proj1 Hwf) || exact (genotype_at_length individualId s Hwf)).
  now destruct (computePRS_outcome _ _ _).
Qed.

(** One transaction leaves the SNPs, the owner and the upload time of an
    individual that has an owner, and does not take a computed risk
    back. *)
Lemma genotype_step (individualId : N) (c : Call) (s : PRSState) :
  well_formed s ->
  owner (genotype_at individualId s) <> 0%N ->
  let g := genotype_at individualId s in
  let g' := genotype_at individualId (fst (execute (run_call c) s)) in
  snps g' = snps g /\ owner g' = owner g /\ timestamp g' = timestamp g
  /\ (riskComputed g = true -> riskComputed g' = true).
Proof.
  intros Hwf Howner g g'. subst g g'.
  apply N.eqb_neq in Howner as Hob.
  destruct c as [ctx other encryptedSnps inputProof | ctx other
                 | ctx snpIndex newValue].
  - rewrite execute_upload by exact Hwf. unfold upload_outcome.
    destruct (negb (N.of_nat (length encryptedSnps) =? NUM_SNPS)%N); [auto|].
    destruct (negb (owner (genotype_at other s) =? 0)%N) eqn:Hother; [auto|].
    destruct (forallb _ encryptedSnps); [|auto].
    assert (other <> individualId) as Hne.
    { intros ->. rewrite Hob in Hother. discriminate Hother. }
    rewrite genotype_at_insert_ne by exact Hne. auto.
  - rewrite execute_computePRS by exact Hwf. unfold computePRS_outcome.
    cbv zeta.
    destruct (owner (genotype_at other s) =? 0)%N; [auto|].
    destruct (riskComputed (genotype_at other s)) eqn:Hrisk; [auto|].
    destruct (decide (other = individualId)) as [-> | Hne].
    + rewrite genotype_at_insert. cbn. rewrite Hrisk. auto.
    + rewrite genotype_at_insert_ne by exact Hne. auto.
  - unfold execute. simpl run_call. rewrite updateEffectSize_closed_form.
    destruct (snpIndex <? NUM_SNPS)%N; auto.
Qed.

(** X3: a genotype is written once. Whatever transactions follow, the
    SNPs, the owner and the upload time of an individual that has an
    owner stay what they are, and a computed risk stays computed. *)
Theorem genotype_written_once (individualId : N) (calls : list Call)
    (s : PRSState) :
  well_formed s ->
  owner (genotype_at individualId s) <> 0%N ->
  let g := genotype_at individualId s in
  let g' := genotype_at individualId (apply_calls calls s) in
  snps g' = snps g /\ owner g' = owner g /\ timestamp g' = timestamp g
  /\ (riskComputed g = true -> riskComputed g' = true).
Proof.
  revert s. induction calls as [|c calls IH]; intros s Hwf Howner; [auto|].
  destruct (genotype_step individualId c s Hwf Howner)
    as (Hsnps & Hown & Htime & Hrisk).
  simpl apply_calls. cbv zeta.
  destruct (IH (fst (execute (run_call c) s)))
    as (Hsnps' & Hown' & Htime' & Hrisk').
  - now apply execute_well_formed.
  - now rewrite Hown.
  - repeat split; [congruence | congruence | congruence | auto].
Qed.

Lemma genotype_written_once_witness :
  snps (genotype_at 7
          (apply_calls [CallUpload sample_ctx 7 sample_externals sample_proof;
                        CallComputePRS sample_ctx 7;
                        CallUpdateEffectSize sample_ctx 0 40]
             sample_state))
  = snps sample_genotype.
Proof.
  apply (genotype_written_once 7
           [CallUpload sample_ctx 7 sample_externals sample_proof;
            CallComputePRS sample_ctx 7;
            CallUpdateEffectSize sample_ctx 0 40] sample_state).
  - exact sample_state_well_formed.
  - discriminate.
Defined.

Lemma apply_calls_snoc (calls : list Call) (c : Call) (s : PRSState) :
  apply_calls (calls ++ [c]) s
  = fst (execute (run_call c) (apply_calls calls s)).
Proof. unfold apply_calls. now rewrite fold_left_app. Qed.

Lemma risk_consistent_step (c : Call) (s : PRSState) :
  well_formed s -> risk_consistent s ->
  risk_consistent (fst (execute (run_call c) s)).
Proof.
  intros Hwf Hinv.
  destruct c as [ctx other encryptedSnps inputProof | ctx other
                 | ctx snpIndex newValue].
  - rewrite execute_upload by exact Hwf. unfold upload_outcome.
    destruct (negb (N.of_nat (length encryptedSnps) =? NUM_SNPS)%N); [auto|].
    destruct (negb (owner (genotype_at other s) =? 0)%N); [auto|].
    destruct (forallb _ encryptedSnps); [|auto].
    intros individualId.
    destruct (decide (other = individualId)) as [-> | Hne].
    + rewrite genotype_at_insert. cbn. discriminate.
    + rewrite genotype_at_insert_ne by exact Hne. apply Hinv.
  - rewrite execute_computePRS by exact Hwf. unfold computePRS_outcome.
    cbv zeta.
    destruct (owner (genotype_at other s) =? 0)%N eqn:Hob; [auto|].
    destruct (riskComputed (genotype_at other s)); [auto|].
    intros individualId.
    destruct (decide (other = individualId)) as [-> | Hne].
    + rewrite genotype_at_insert. cbn. intros _.
      split; [now apply N.eqb_neq|]. split; [reflexivity|].
      exists (effectSizes s). split; [apply Hwf | reflexivity].
    + rewrite genotype_at_insert_ne by exact Hne. apply Hinv.
  - unfold execute. simpl run_call. rewrite updateEffectSize_closed_form.
    destruct (snpIndex <? NUM_SNPS)%N; apply Hinv.
Qed.

Lemma initial_state_risk_consistent : risk_consistent initial_state.
Proof. intros individualId. cbn. discriminate. Qed.

(** Induction over the states the contract can reach. *)
Lemma reachable_invariant (P : PRSState -> Prop) :
  P initial_state ->
  (forall c s, well_formed s -> P s -> P (fst (execute (run_call c) s))) ->
  forall s, reachable s -> P s.
Proof.
  intros Hinit Hstep s [calls ->].
  induction calls as [|c calls IH] using rev_ind; [exact Hinit|].
  rewrite apply_calls_snoc. apply Hstep; [apply reachable_well_formed|].
  exact IH.
Qed.

(** X4: in every state the contract can reach, a record whose risk is
    computed has an owner, its stored classification is the encrypted
    comparison of its stored score with the threshold 50, and the score
    is the encrypted dot product of its 20 SNPs with 20 effect sizes. *)
Theorem reachable_risk_consistent (s : PRSState) :
  reachable s -> well_formed s /\ risk_consistent s.
Proof.
  intros [calls ->]. induction calls as [|c calls IH] using rev_ind.
  - split; [exact initial_state_well_formed|].
    intros individualId. cbn. discriminate.
  - rewrite apply_calls_snoc. destruct IH as [Hwf Hinv].
    split; [now apply execute_well_formed | now apply risk_consistent_step].
Qed.

Lemma reachable_risk_consistent_witness :
  risk_consistent
    (apply_calls [CallUpload sample_ctx 7 sample_externals sample_proof;
                  CallComputePRS sample_ctx 7] initial_state).
Proof.
  apply (reachable_risk_consistent
           (apply_calls [CallUpload sample_ctx 7 sample_externals sample_proof;
                         CallComputePRS sample_ctx 7] initial_state)).
  eexists. reflexivity.
Defined.

(** X5: the views follow [isRiskComputed]. In every reachable state,
    when the risk of an individual is computed, [getRiskResult] and
    [getEncryptedPRS] return the stored classification and score; when
    it is not, both revert, with "Individual not found" for an
    individual without owner and "Risk not yet computed" otherwise. No
    view changes the state. *)
Theorem views_follow_isRiskComputed (individualId : N) (s : PRSState) :
  reachable s ->
  let g := genotype_at individualId s in
  isRiskComputed individualId s = Success (riskComputed g) s
  /\ getGenotypeOwner individualId s = Success (owner g) s
  /\ (riskComputed g = true ->
      getRiskResult individualId s = Success (isHighRisk g) s
      /\ getEncryptedPRS individualId s = Success (prsScore g) s)
  /\ (riskComputed g = false ->
      let reason := if (owner g =? 0)%N then "Individual not found"
                    else "Risk not yet computed" in
      getRiskResult individualId s = Revert reason
      /\ getEncryptedPRS individualId s = Revert reason).
Proof.
  intros Hreach g.
  assert (Hinv : risk_consistent s).
  { clear g. revert s Hreach. apply reachable_invariant.
    - exact initial_state_risk_consistent.
    - intros c s. apply risk_consistent_step. }
  split; [reflexivity|]. split; [reflexivity|].
  unfold getRiskResult, getEncryptedPRS. tx_steps. fold g. split.
  - intros Hrisk. destruct (Hinv individualId Hrisk) as [Howner _].
    fold g in Howner. apply N.eqb_neq in Howner.
    rewrite Howner, Hrisk. split; reflexivity.
  - intros Hrisk. rewrite Hrisk. cbv zeta.
    destruct (owner g =? 0)%N; split; reflexivity.
Qed.

Lemma views_follow_isRiskComputed_witness :
  isRiskComputed 7
    (apply_calls [CallUpload sample_ctx 7 sample_externals sample_proof]
       initial_state)
  = Success false
      (apply_calls [CallUpload sample_ctx 7 sample_externals sample_proof]
         initial_state).
Proof.
  apply (views_follow_isRiskComputed 7
           (apply_calls [CallUpload sample_ctx 7 sample_externals
                           sample_proof] initial_state)).
  eexists. reflexivity.
Defined.

Lemma weighted_sum_bounds (inputs : N -> Z) (genotypes : list euint32)
    (sizes : list Z) :
  Forall (fun g => 0 <= cleartext32 inputs g <= 2) genotypes ->
  Forall (fun beta => 0 <= beta) sizes ->
  0 <= weighted_sum inputs genotypes sizes <= 2 * foldr Z.add 0 sizes.
Proof.
  unfold weighted_sum. revert sizes.
  induction genotypes as [|g genotypes IH]; intros sizes Hg Hsizes.
  - simpl. induction Hsizes; simpl; lia.
  - destruct sizes as [|beta sizes]; [simpl; lia|].
    apply Forall_cons in Hg as [Hg0 Hg]. apply Forall_cons in Hsizes as [Hb Hs].
    specialize (IH sizes Hg Hs). simpl. nia.
Qed.

(** X6: no wrap-around for genotypes as documented. When every SNP's
    cleartext is 0, 1 or 2, the effect sizes are non-negative and twice
    their sum stays below 2^32, the cleartext of the score is exactly the
    sum of snps[i] * effectSizes[i], and the classification says exactly
    whether that sum exceeds 50. *)
Theorem prs_score_exact (inputs : N -> Z) (genotypes : list euint32)
    (sizes : list Z) :
  Forall (fun g => 0 <= cleartext32 inputs g <= 2) genotypes ->
  Forall (fun beta => 0 <= beta) sizes ->
  2 * foldr Z.add 0 sizes < 2 ^ 32 ->
  cleartext32 inputs (prs_handle genotypes sizes)
  = weighted_sum inputs genotypes sizes
  /\ cleartext_bool inputs
       (FHE_gt (prs_handle genotypes sizes) (FHE_asEuint32 RISK_THRESHOLD))
     = (50 <? weighted_sum inputs genotypes sizes).
Proof.
  intros Hg Hsizes Hsmall.
  pose proof (weighted_sum_bounds inputs genotypes sizes Hg Hsizes) as Hb.
  assert (cleartext32 inputs (prs_handle genotypes sizes)
          = weighted_sum inputs genotypes sizes) as Hexact.
  { rewrite cleartext32_prs_handle. unfold uint32_wrap.
    apply Z.mod_small. lia. }
  split; [exact Hexact|].
  cbn [cleartext_bool FHE_gt]. rewrite Hexact. reflexivity.
Qed.

Lemma prs_score_exact_witness :
  cleartext32 (fun _ => 2)
    (prs_handle (snps sample_genotype) (effectSizes initial_state))
  = weighted_sum (fun _ => 2) (snps sample_genotype)
      (effectSizes initial_state)
  /\ cleartext_bool (fun _ => 2)
       (FHE_gt (prs_handle (snps sample_genotype) (effectSizes initial_state))
               (FHE_asEuint32 RISK_THRESHOLD))
     = (50 <? weighted_sum (fun _ => 2) (snps sample_genotype)
               (effectSizes initial_state)).
Proof.
  apply (prs_score_exact (fun _ => 2) (snps sample_genotype)
           (effectSizes initial_state)).
  - repeat constructor; vm_compute; discriminate.
  - repeat constructor; vm_compute; discriminate.
  - vm_compute. reflexivity.
Defined.

(** With the effect sizes as deployed, all 0s is low risk and all 2s is
    high risk. *)
Example deployed_sizes_classify :
  weighted_sum (fun _ => 0) (snps sample_genotype) (effectSizes initial_state)
  = 0
  /\ weighted_sum (fun _ => 2) (snps sample_genotype)
       (effectSizes initial_state) = 106.
Proof. split; reflexivity. Qed.

(** X7: upload, compute, read. From a well-formed state in which the
    individual has no owner, an upload of 20 verified handles by a
    sender other than the zero address, then a [computePRS] by anyone,
    make [getRiskResult] return the comparison with 50 of the dot product
    of the uploaded inputs with the effect sizes; on cleartexts, whether
    the 32-bit sum of input times effect size exceeds 50. *)
Theorem upload_compute_read (ctx ctx' : TxContext) (individualId : N)
    (encryptedSnps : list N) (inputProof : Bytes) (s : PRSState)
    (inputs : N -> Z) :
  well_formed s ->
  owner (genotype_at individualId s) = 0%N ->
  length encryptedSnps = N.to_nat NUM_SNPS ->
  forallb (fun e => input_verified ctx e inputProof) encryptedSnps = true ->
  msg_sender ctx <> 0%N ->
  let s' := apply_calls
              [CallUpload ctx individualId encryptedSnps inputProof;
               CallComputePRS ctx' individualId] s in
  let score := prs_handle (map (fun e => E32_input e inputProof) encryptedSnps)
                          (effectSizes s) in
  getRiskResult individualId s'
    = Success (FHE_gt score (FHE_asEuint32 RISK_THRESHOLD)) s'
  /\ getEncryptedPRS individualId s' = Success score s'
  /\ cleartext_bool inputs (FHE_gt score (FHE_asEuint32 RISK_THRESHOLD))
     = (50 <? uint32_wrap
                (foldr (fun p acc => uint32_wrap (inputs p.1) * p.2 + acc) 0
                       (zip encryptedSnps (effectSizes s)))).
Proof.
  intros Hwf Hfresh Hlen Hver Hsender s' score.
  assert (Hs' : exists s1 a ev,
            s' = {| effectSizes := effectSizes s;
                    genotypeData :=
                      <[individualId :=
                          computed_genotype (effectSizes s)
                            (uploaded_genotype ctx encryptedSnps inputProof
                               (genotype_at individualId s))]> s1;
                    acl := a; emitted := ev |}).
  { subst s'. unfold apply_calls. cbn [fold_left].
    rewrite execute_upload by exact Hwf. unfold upload_outcome.
    rewrite Hlen, N2Nat.id, N.eqb_refl, Hfresh, Hver. cbn [negb N.eqb].
    rewrite execute_computePRS.
    2:{ pose proof (execute_well_formed
                      (CallUpload ctx individualId encryptedSnps inputProof)
                      s Hwf) as Hwf1.
        rewrite execute_upload in Hwf1 by exact Hwf.
        unfold upload_outcome in Hwf1.
        rewrite Hlen, N2Nat.id, N.eqb_refl, Hfresh, Hver in Hwf1.
        exact Hwf1. }
    unfold computePRS_outcome. cbv zeta. rewrite genotype_at_insert.
    cbn [owner riskComputed uploaded_genotype effectSizes genotypeData
         acl emitted].
    apply N.eqb_neq in Hsender. rewrite Hsender.
    rewrite insert_insert_eq. eauto. }
  destruct Hs' as (s1 & a & ev & Hs'). clearbody s'. subst s'.
  unfold getRiskResult, getEncryptedPRS. tx_steps.
  cbn [owner riskComputed isHighRisk prsScore computed_genotype
       uploaded_genotype snps].
  apply N.eqb_neq in Hsender. rewrite Hsender. cbn [negb].
  split; [reflexivity|]. split; [reflexivity|].
  cbn [cleartext_bool FHE_gt]. subst score.
  rewrite cleartext32_prs_handle. unfold weighted_sum.
  rewrite zip_with_fmap_l.
  do 2 f_equal.
  generalize (effectSizes s). clear. intros sizes. revert sizes.
  induction encryptedSnps as [|e rest IH]; intros [|beta sizes]; simpl;
    try reflexivity.
  now rewrite IH.
Qed.

Lemma upload_compute_read_witness :
  let s' := apply_calls
              [CallUpload sample_ctx 7 sample_externals sample_proof;
               CallComputePRS sample_ctx 7] initial_state in
  getEncryptedPRS 7 s'
  = Success (prs_handle
               (map (fun e => E32_input e sample_proof) sample_externals)
               (effectSizes initial_state)) s'.
Proof.
  intros s'.
  apply (upload_compute_read sample_ctx sample_ctx 7 sample_externals
           sample_proof initial_state (fun _ => 1)
           initial_state_well_formed).
  - reflexivity.
  - reflexivity.
  - reflexivity.
  - discriminate.
Defined.

(** X8: a new effect size counts for the scores computed after it, not
    for those computed before. After a successful [updateEffectSize] of
    entry i to v, a [computePRS] for an uploaded individual without
    computed risk stores the dot product with the updated sizes, while
    the score of any individual computed earlier is still the one
    stored. *)
Theorem effect_size_counts_from_update_on (ctx ctx' : TxContext)
    (individualId earlier : N) (snpIndex : N) (newValue : Z)
    (s : PRSState) :
  well_formed s ->
  (snpIndex < NUM_SNPS)%N ->
  owner (genotype_at individualId s) <> 0%N ->
  riskComputed (genotype_at individualId s) = false ->
  owner (genotype_at earlier s) <> 0%N ->
  riskComputed (genotype_at earlier s) = true ->
  let s' := apply_calls [CallUpdateEffectSize ctx snpIndex newValue;
                         CallComputePRS ctx' individualId] s in
  prsScore (genotype_at individualId s')
  = prs_handle (snps (genotype_at individualId s))
               (<[N.to_nat snpIndex := newValue]> (effectSizes s))
  /\ riskComputed (genotype_at individualId s') = true
  /\ genotype_at earlier s' = genotype_at earlier s.
Proof.
  intros Hwf Hlt Howner Hrisk Howner' Hrisk' s'.
  split; [|split; [|subst s'; now apply computed_genotype_stable_calls]].
  all: subst s'; unfold apply_calls; cbn [fold_left].
  all: set (s1 := fst (execute (run_call (CallUpdateEffectSize ctx snpIndex
                                           newValue)) s)).
  all: assert (well_formed s1) as Hwf1 by now apply execute_well_formed.
  all: assert (s1 = {| effectSizes :=
                         <[N.to_nat snpIndex := newValue]> (effectSizes s);
                       genotypeData := genotypeData s; acl := acl s;
                       emitted := emitted s
                                  ++ [EffectSizeUpdated snpIndex newValue] |})
         as Hs1
         by (subst s1; unfold execute; simpl run_call;
             rewrite updateEffectSize_closed_form;
             apply N.ltb_lt in Hlt; now rewrite Hlt).
  all: assert (genotype_at individualId s1 = genotype_at individualId s)
         as Hat by now rewrite Hs1.
  all: rewrite execute_computePRS by exact Hwf1.
  all: unfold computePRS_outcome; cbv zeta; rewrite Hat.
  all: apply N.eqb_neq in Howner; rewrite Howner, Hrisk.
  all: rewrite genotype_at_insert; cbn [prsScore riskComputed
                                        computed_genotype].
  - now rewrite Hs1.
  - reflexivity.
Qed.

Lemma two_individuals_well_formed : well_formed two_individuals_state.
Proof.
  apply (execute_well_formed (CallComputePRS sample_ctx 8)).
  apply (execute_well_formed
           (CallUpload sample_ctx 8 sample_externals sample_proof)).
  exact sample_state_well_formed.
Qed.

Lemma effect_size_counts_from_update_on_witness :
  prsScore
    (genotype_at 7
       (apply_calls [CallUpdateEffectSize sample_ctx 0 40;
                     CallComputePRS sample_ctx 7] two_individuals_state))
  = prs_handle (snps (genotype_at 7 two_individuals_state))
      (<[0%nat := 40]> (effectSizes two_individuals_state)).
Proof.
  apply (effect_size_counts_from_update_on sample_ctx sample_ctx 7 8 0 40
           two_individuals_state two_individuals_well_formed).
  - reflexivity.
  - vm_compute. discriminate.
  - reflexivity.
  - vm_compute. discriminate.
  - reflexivity.
Defined.

Lemma preserves_write_logs (a0 : list Grant) (e0 : list ContractEvent)
    (f : PRSState -> PRSState) :
  (forall s, acl s `prefix_of` acl (f s)
             /\ emitted s `prefix_of` emitted (f s)) ->
  preserves (fun s => a0 `prefix_of` acl s /\ e0 `prefix_of` emitted s)
            (write f).
Proof.
  intros Hf. apply preserves_write. intros s [Ha He].
  destruct (Hf s) as [Ha' He']. split; etrans; eassumption.
Qed.

Ltac logs_leaf _ :=
  lazymatch goal with
  | |- preserves _ (write _) =>
      apply preserves_write_logs; intros ?; cbn [acl emitted];
      split; first [reflexivity | apply prefix_app_r; reflexivity]
  end.

Lemma logs_grow_step (c : Call) (s : PRSState) :
  acl s `prefix_of` acl (fst (execute (run_call c) s))
  /\ emitted s `prefix_of` emitted (fst (execute (run_call c) s)).
Proof.
  assert (Hkeep : forall tx : Tx unit,
            preserves (fun s' => acl s `prefix_of` acl s'
                                 /\ emitted s `prefix_of` emitted s') tx ->
            acl s `prefix_of` acl (fst (execute tx s))
            /\ emitted s `prefix_of` emitted (fst (execute tx s))).
  { intros tx Htx. unfold execute.
    destruct (tx s) as [a s'|reason] eqn:Hrun; [|split; reflexivity].
    exact (Htx s a s' (conj (reflexivity _) (reflexivity _)) Hrun). }
  apply Hkeep. destruct c; simpl run_call.
  - unfold uploadEncryptedGenotype, store_snp, FHE_fromExternal,
      FHE_allowThis32, FHE_allow32, update_genotype, grant, emit_event.
    repeat preserves_step logs_leaf.
  - unfold computePRS, prs_round, FHE_allowThis32, FHE_allow32,
      FHE_allowThisBool, FHE_allowBool, update_genotype, grant, emit_event.
    repeat preserves_step logs_leaf.
  - unfold updateEffectSize, emit_event.
    repeat preserves_step logs_leaf.
Qed.

(** X9: nothing is ever revoked or forgotten. Through any sequence of
    transactions, reverted ones included, the grants made so far and the
    events logged so far stay, in order, at the head of the later lists:
    the contract only ever adds grants and events. *)
Theorem grants_and_events_only_grow (calls : list Call) (s : PRSState) :
  acl s `prefix_of` acl (apply_calls calls s)
  /\ emitted s `prefix_of` emitted (apply_calls calls s).
Proof.
  revert s. induction calls as [|c calls IH]; intros s.
  - split; reflexivity.
  - simpl apply_calls.
    destruct (logs_grow_step c s) as [Ha He].
    destruct (IH (fst (execute (run_call c) s))) as [Ha' He'].
    split; etrans; eassumption.
Qed.

(** X10: an all-zero genotype is low risk whatever the effect sizes
    are: when every SNP's cleartext is 0, the cleartext of the score is 0
    and the classification is false, for any list of effect sizes. *)
Theorem zero_genotype_low_risk (inputs : N -> Z) (genotypes : list euint32)
    (sizes : list Z) :
  Forall (fun g => cleartext32 inputs g = 0) genotypes ->
  cleartext32 inputs (prs_handle genotypes sizes) = 0
  /\ cleartext_bool inputs
       (FHE_gt (prs_handle genotypes sizes) (FHE_asEuint32 RISK_THRESHOLD))
     = false.
Proof.
  intros Hzero.
  assert (weighted_sum inputs genotypes sizes = 0) as Hsum.
  { unfold weighted_sum. revert sizes.
    induction Hzero as [|g genotypes Hg _ IH]; intros [|beta sizes]; simpl;
      try reflexivity.
    rewrite Hg, IH. reflexivity. }
  assert (cleartext32 inputs (prs_handle genotypes sizes) = 0) as Hscore.
  { now rewrite cleartext32_prs_handle, Hsum. }
  split; [exact Hscore|].
  cbn [cleartext_bool FHE_gt]. now rewrite Hscore.
Qed.

Lemma zero_genotype_low_risk_witness :
  cleartext_bool (fun _ => 0)
    (FHE_gt (prs_handle (snps sample_genotype) [4000000000; 7])
            (FHE_asEuint32 RISK_THRESHOLD))
  = false.
Proof.
  apply (zero_genotype_low_risk (fun _ => 0) (snps sample_genotype)
           [4000000000; 7]).
  repeat constructor.
Defined.

(* --------------------------------------------------------------------- *)
(** ** FHEDecryptButton: what a click reports                             *)
(* --------------------------------------------------------------------- *)

(** The click past its guard, with the result of [loadOrSign] at hand. *)
Lemma FHEDecryptButton_onClick_run (loadOrSign : LoadOrSign)
    (props : DecryptButtonProps) (instance : FhevmInstance) (signer : Signer)
    (requests : list DecryptRequest) (u : DecryptUi) :
  props_instance props = Some instance ->
  props_signer props = Some signer ->
  props_requests props = Some requests ->
  requests <> [] ->
  let ua := array_from_set (map contractAddress requests) in
  let evs := events u ++ [EvLoadOrSign ua] in
  FHEDecryptButton_onClick loadOrSign props u =
  (Return tt,
   match loadOrSign instance ua signer (props_storage props) with
   | Throw e => decrypt_failed e evs
   | Return None =>
       {| isDecrypting := false;
          message := "Unable to build FHEVM decryption signature";
          error := Some "SIGNATURE_ERROR: Failed to create decryption signature";
          events := evs |}
   | Return (Some sig) =>
       let call := CallUserDecrypt requests (privateKey sig) (publicKey sig)
                     (signature sig) (contractAddresses sig)
                     (userAddress sig) (startTimestamp sig)
                     (durationDays sig) in
       match relay_userDecrypt instance requests (privateKey sig)
               (publicKey sig) (signature sig) (contractAddresses sig)
               (userAddress sig) (startTimestamp sig) (durationDays sig) with
       | Throw e => decrypt_failed e (evs ++ [EvRelay call])
       | Return res =>
           let done evs' :=
             {| isDecrypting := false;
                message := "FHEVM userDecrypt completed!";
                error := None; events := evs' |} in
           match props_onResults props with
           | None => done (evs ++ [EvRelay call])
           | Some cb =>
               match cb res with
               | Return _ => done (evs ++ [EvRelay call; EvOnResults res])
               | Throw e =>
                   decrypt_failed e (evs ++ [EvRelay call; EvOnResults res])
               end
           end
       end
   end).
Proof.
  intros Hi Hs Hr Hne ua evs.
  unfold FHEDecryptButton_onClick. rewrite Hi, Hs, Hr.
  destruct requests as [|r0 rs]; [contradiction|].
  change (length (r0 :: rs) =? 0)%nat with false. cbv iota.
  fold ua. step_ui.
  destruct (loadOrSign instance ua signer (props_storage props))
    as [[sig|]|e]; step_ui; try reflexivity.
  rewrite userDecryptWithSignature_run.
  cbn [privateKey publicKey signature contractAddresses userAddress
       startTimestamp durationDays].
  match goal with
  | |- context [relay_userDecrypt ?i ?a ?b ?c ?d ?e ?f ?g ?h] =>
      destruct (relay_userDecrypt i a b c d e f g h) as [res|e']
  end; step_ui; [|reflexivity].
  destruct (props_onResults props) as [cb|]; step_ui;
    [destruct (cb res); step_ui|];
    subst evs; unfold decrypt_failed; rewrite <- !app_assoc; reflexivity.
Qed.

(** X11: a click on the decrypt button never throws. Whatever
    [loadOrSign], the relay or the [onResults] callback do, throwing
    included, the click returns; and it leaves the button not
    decrypting whenever it found it so. *)
Theorem FHEDecryptButton_onClick_never_throws (loadOrSign : LoadOrSign)
    (props : DecryptButtonProps) (u : DecryptUi) :
  fst (FHEDecryptButton_onClick loadOrSign props u) = Return tt
  /\ (isDecrypting u = false ->
      isDecrypting (snd (FHEDecryptButton_onClick loadOrSign props u))
      = false).
Proof.
  split; [|apply FHEDecryptButton_onClick_idle].
  destruct (props_instance props) as [instance|] eqn:Hi;
    [|unfold FHEDecryptButton_onClick; now rewrite Hi].
  destruct (props_signer props) as [signer|] eqn:Hs;
    [|unfold FHEDecryptButton_onClick; now rewrite Hi, Hs].
  destruct (props_requests props) as [requests|] eqn:Hr;
    [|unfold FHEDecryptButton_onClick; now rewrite Hi, Hs, Hr].
  destruct requests as [|r0 rs];
    [unfold FHEDecryptButton_onClick; now rewrite Hi, Hs, Hr|].
  now rewrite (FHEDecryptButton_onClick_run loadOrSign props instance signer
                 (r0 :: rs) u Hi Hs Hr).
Qed.

Lemma FHEDecryptButton_onClick_never_throws_witness :
  fst (FHEDecryptButton_onClick granting_loadOrSign refused_props idle_ui)
    = Return tt
  /\ isDecrypting
       (snd (FHEDecryptButton_onClick granting_loadOrSign refused_props
               idle_ui)) = false.
Proof.
  destruct (FHEDecryptButton_onClick_never_throws granting_loadOrSign
              refused_props idle_ui) as [Hret Hidle].
  split; [exact Hret | apply Hidle; reflexivity].
Defined.

(** X12: the click does something exactly when the button can run.
    Without instance, signer or requests, or with an empty request list,
    the click changes nothing and calls nothing; otherwise it does make
    the [loadOrSign] call. *)
Theorem FHEDecryptButton_onClick_guard (loadOrSign : LoadOrSign)
    (props : DecryptButtonProps) (u : DecryptUi) :
  (FHEDecryptButton_canRun props = false ->
   FHEDecryptButton_onClick loadOrSign props u = (Return tt, u))
  /\ (FHEDecryptButton_canRun props = true ->
      (length (events u)
       < length (events (snd (FHEDecryptButton_onClick loadOrSign props u))))
      %nat).
Proof.
  unfold FHEDecryptButton_canRun.
  destruct (props_instance props) as [instance|] eqn:Hi;
    [|split; [intros _|discriminate];
      unfold FHEDecryptButton_onClick; now rewrite Hi].
  destruct (props_signer props) as [signer|] eqn:Hs;
    [|split; [intros _|discriminate];
      unfold FHEDecryptButton_onClick; now rewrite Hi, Hs].
  destruct (props_requests props) as [requests|] eqn:Hr;
    [|split; [intros _|discriminate];
      unfold FHEDecryptButton_onClick; now rewrite Hi, Hs, Hr].
  destruct requests as [|r0 rs].
  - split; [intros _|discriminate].
    unfold FHEDecryptButton_onClick. now rewrite Hi, Hs, Hr.
  - split; [discriminate|intros _].
    rewrite (FHEDecryptButton_onClick_run loadOrSign props instance signer
               (r0 :: rs) u Hi Hs Hr) by discriminate.
    cbv zeta. cbn [snd].
    repeat match goal with
           | |- context [match ?x with _ => _ end] => destruct x
           end; cbn [events decrypt_failed]; rewrite ?length_app; simpl; lia.
Qed.

Lemma FHEDecryptButton_onClick_guard_witness :
  FHEDecryptButton_onClick granting_loadOrSign
    {| props_instance := Some lenient_instance;
       props_signer := Some sample_signer;
       props_storage := ∅;
       props_requests := Some [];
       props_onResults := None |} idle_ui
  = (Return tt, idle_ui).
Proof.
  apply (proj1 (FHEDecryptButton_onClick_guard granting_loadOrSign
                  {| props_instance := Some lenient_instance;
                     props_signer := Some sample_signer;
                     props_storage := ∅;
                     props_requests := Some [];
                     props_onResults := None |} idle_ui)).
  reflexivity.
Defined.

(** X13: failures of a decrypt click are reported, not thrown. With
    instance, signer and a non-empty request list: when [loadOrSign]
    throws, or answers null, no relay call is made, and the error reads
    "name: message" of what was thrown (with "DECRYPT_ERROR" and
    "Decryption failed" standing in for a missing name or message), or
    "SIGNATURE_ERROR: Failed to create decryption signature" for null;
    when the relay throws, the error is reported the same way and
    [onResults] is not called. *)
Theorem FHEDecryptButton_reports_failures (loadOrSign : LoadOrSign)
    (props : DecryptButtonProps) (instance : FhevmInstance) (signer : Signer)
    (requests : list DecryptRequest) (u : DecryptUi) :
  props_instance props = Some instance ->
  props_signer props = Some signer ->
  props_requests props = Some requests ->
  requests <> [] ->
  let ua := array_from_set (map contractAddress requests) in
  let evs := events u ++ [EvLoadOrSign ua] in
  let u' := snd (FHEDecryptButton_onClick loadOrSign props u) in
  (forall e,
     loadOrSign instance ua signer (props_storage props) = Throw e ->
     u' = decrypt_failed e evs)
  /\ (loadOrSign instance ua signer (props_storage props) = Return None ->
      u' = {| isDecrypting := false;
              message := "Unable to build FHEVM decryption signature";
              error := Some "SIGNATURE_ERROR: Failed to create decryption signature";
              events := evs |})
  /\ (forall sig e,
        loadOrSign instance ua signer (props_storage props)
          = Return (Some sig) ->
        relay_userDecrypt instance requests (privateKey sig) (publicKey sig)
          (signature sig) (contractAddresses sig) (userAddress sig)
          (startTimestamp sig) (durationDays sig) = Throw e ->
        u' = decrypt_failed e
               (evs ++ [EvRelay (CallUserDecrypt requests (privateKey sig)
                                   (publicKey sig) (signature sig)
                                   (contractAddresses sig) (userAddress sig)
                                   (startTimestamp sig) (durationDays sig))])).
Proof.
  intros Hi Hs Hr Hne ua evs u'. subst u'.
  rewrite (FHEDecryptButton_onClick_run loadOrSign props instance signer
             requests u Hi Hs Hr Hne).
  cbv zeta. cbn [snd]. fold ua. fold evs.
  split; [|split].
  - intros e He. now rewrite He.
  - intros Hnull. now rewrite Hnull.
  - intros sig e Hsig Hrelay. now rewrite Hsig, Hrelay.
Qed.

Lemma FHEDecryptButton_reports_failures_witness :
  snd (FHEDecryptButton_onClick granting_loadOrSign refused_props idle_ui)
  = {| isDecrypting := false;
       message := "FHEVM userDecrypt failed";
       error := Some "AccessDenied: not allowed";
       events := [EvLoadOrSign ["0xaa"; "0xcc"];
                  EvRelay (CallUserDecrypt sample_requests "priv" "pub"
                             "0xsig" ["0xaa"; "0xcc"] "0xu5e7"
                             1700000000 365)] |}.
Proof.
  apply (proj2 (proj2 (FHEDecryptButton_reports_failures granting_loadOrSign
                         refused_props refusing_instance sample_signer
                         sample_requests idle_ui eq_refl eq_refl eq_refl
                         ltac:(discriminate)))
           (signature_for ["0xaa"; "0xcc"])
           (ThrownObject (Some "AccessDenied") (Some "not allowed"))).
  - reflexivity.
  - reflexivity.
Defined.

(** X14: a successful decrypt click hands the relay's mapping to
    [onResults] exactly once. When [loadOrSign] gives a signature and the
    relay answers, the outside calls of the click are, in order,
    [loadOrSign], the relay's userDecrypt and one [onResults] with the
    relay's answer (none without callback); the click ends with the
    completed message and no error, unless the callback itself throws,
    which is then reported as a failed decryption. *)
Theorem FHEDecryptButton_delivers_results (loadOrSign : LoadOrSign)
    (props : DecryptButtonProps) (instance : FhevmInstance) (signer : Signer)
    (requests : list DecryptRequest) (u : DecryptUi)
    (sig : UserDecryptSignature) (res : Cleartexts) :
  props_instance props = Some instance ->
  props_signer props = Some signer ->
  props_requests props = Some requests ->
  requests <> [] ->
  let ua := array_from_set (map contractAddress requests) in
  loadOrSign instance ua signer (props_storage props) = Return (Some sig) ->
  relay_userDecrypt instance requests (privateKey sig) (publicKey sig)
    (signature sig) (contractAddresses sig) (userAddress sig)
    (startTimestamp sig) (durationDays sig) = Return res ->
  let call := CallUserDecrypt requests (privateKey sig) (publicKey sig)
                (signature sig) (contractAddresses sig) (userAddress sig)
                (startTimestamp sig) (durationDays sig) in
  let u' := snd (FHEDecryptButton_onClick loadOrSign props u) in
  events u' = events u ++ [EvLoadOrSign ua; EvRelay call]
              ++ match props_onResults props with
                 | Some _ => [EvOnResults res]
                 | None => []
                 end
  /\ isDecrypting u' = false
  /\ match props_onResults props with
     | Some cb =>
         match cb res with
         | Return _ => message u' = "FHEVM userDecrypt completed!"
                       /\ error u' = None
         | Throw e => message u' = "FHEVM userDecrypt failed"
                      /\ error u'
                         = Some (error_code e +:+ ": " +:+ error_msg e)
         end
     | None => message u' = "FHEVM userDecrypt completed!" /\ error u' = None
     end.
Proof.
  intros Hi Hs Hr Hne ua Hsig Hrelay call u'. subst u'.
  rewrite (FHEDecryptButton_onClick_run loadOrSign props instance signer
             requests u Hi Hs Hr Hne).
  cbv zeta. cbn [snd]. fold ua. rewrite Hsig, Hrelay. fold call.
  destruct (props_onResults props) as [cb|];
    [destruct (cb res)|];
    cbn [events isDecrypting message error decrypt_failed];
    rewrite <- ?app_assoc; auto.
Qed.

Lemma FHEDecryptButton_delivers_results_witness :
  events (snd (FHEDecryptButton_onClick granting_loadOrSign listening_props
                 idle_ui))
  = [EvLoadOrSign ["0xaa"; "0xcc"];
     EvRelay (CallUserDecrypt sample_requests "priv" "pub" "0xsig"
                ["0xaa"; "0xcc"] "0xu5e7" 1700000000 365);
     EvOnResults ∅].
Proof.
  apply (FHEDecryptButton_delivers_results granting_loadOrSign
           listening_props lenient_instance sample_signer sample_requests
           idle_ui (signature_for ["0xaa"; "0xcc"]) ∅
           eq_refl eq_refl eq_refl ltac:(discriminate) eq_refl eq_refl).
Defined.

(* --------------------------------------------------------------------- *)
(** ** useFHEEncryption and FHEEncryptWithAbi: when encryption happens    *)
(* --------------------------------------------------------------------- *)

(** X15: [encryptWith] encrypts once or not at all, and swallows
    nothing. It answers [undefined], without asking the signer or the
    engine, exactly when instance, signer or contract address is
    missing. Otherwise a throw of [getAddress] or of the build callback
    is rethrown as it is, before any encryption; and when both return,
    the outcome is that of the one [encrypt()] made on the builder as
    the callback left it: its encrypted input, or its throw. *)
Theorem encryptWith_encrypts_once (params : EncryptionParams)
    (buildFn : M Builder unit) (seed : N) :
  let out := encryptWith params buildFn seed in
  (fst out = Return None <-> canEncrypt params = false)
  /\ (canEncrypt params = false -> out = (Return None, seed))
  /\ (forall instance signer contractAddress,
        params_instance params = Some instance ->
        params_ethersSigner params = Some signer ->
        params_contractAddress params = Some contractAddress ->
        match getAddress signer with
        | Throw e => out = (Throw e, seed)
        | Return userAddress =>
            match buildFn (createEncryptedInput instance contractAddress
                             userAddress) with
            | (Throw e, _) => out = (Throw e, seed)
            | (Return _, built) =>
                out = match Builder_encrypt built seed with
                      | (Return enc, seed') => (Return (Some enc), seed')
                      | (Throw e, seed') => (Throw e, seed')
                      end
            end
        end).
Proof.
  cbv zeta. unfold canEncrypt, encryptWith.
  destruct (params_instance params) as [instance|];
    [|repeat split; auto; discriminate].
  destruct (params_ethersSigner params) as [signer|];
    [|repeat split; auto; discriminate].
  destruct (params_contractAddress params) as [contractAddress|];
    [|repeat split; auto; discriminate].
  unfold mbind, M_bind, bind, settle, with_object, mret, M_ret, ret.
  split; [|split; [discriminate|]].
  - split; [|discriminate]. intros Hnone. exfalso.
    destruct (getAddress signer) as [userAddress|e]; [|discriminate Hnone].
    destruct (buildFn (createEncryptedInput instance contractAddress
                         userAddress)) as [[[]|e] built];
      [|discriminate Hnone].
    cbn [snd] in Hnone.
    destruct (Builder_encrypt built seed) as [[enc|e] seed'];
      discriminate Hnone.
  - intros ? ? ? [= <-] [= <-] [= <-].
    destruct (getAddress signer) as [userAddress|e]; [|reflexivity].
    destruct (buildFn (createEncryptedInput instance contractAddress
                         userAddress)) as [[[]|e] built]; [|reflexivity].
    cbn [snd]. destruct (Builder_encrypt built seed) as [[enc|e] seed'];
      reflexivity.
Qed.

(** X16: a click on the encrypt button does nothing unless instance,
    signer and contract address are all there; when it runs, it ends
    with the button idle on every exit, a throw included, and it calls
    [onEncrypted] at most once. *)
Theorem FHEEncryptWithAbi_onClick_guard {Abi Params : Type}
    (buildParamsFromAbi : EncryptedInput -> Abi -> string -> Outcome Params)
    (props : EncryptButtonProps Abi Params) (u : EncryptUi Params) :
  let out := FHEEncryptWithAbi_onClick buildParamsFromAbi props u in
  (FHEEncryptWithAbi_canRun props = false -> out = (Return tt, u))
  /\ (FHEEncryptWithAbi_canRun props = true ->
      isEncrypting (snd out) = false
      /\ (encrypted (snd out) = encrypted u
          \/ exists params, encrypted (snd out) = encrypted u ++ [params])).
Proof.
  cbv zeta. unfold FHEEncryptWithAbi_canRun, FHEEncryptWithAbi_onClick.
  destruct (eprops_instance props) as [instance|];
    [|split; [reflexivity | discriminate]].
  destruct (eprops_signer props) as [signer|];
    [|split; [reflexivity | discriminate]].
  destruct (eprops_contractAddress props) as [contractAddress|];
    [|split; [reflexivity | discriminate]].
  split; [discriminate|intros _].
  unfold mbind, M_bind, bind, setIsEncrypting, modify, try_finally,
    await_encryption, settle, call_onEncrypted, ret.
  cbv beta iota. cbn [entropy isEncrypting encrypted].
  destruct (createEncryptedInputAndEncrypt instance signer contractAddress
              (add_values (eprops_values props)) (entropy u))
    as [[enc|e] n]; cbn [snd isEncrypting encrypted]; [|auto].
  destruct (buildParamsFromAbi enc (eprops_abi props) (eprops_fn props))
    as [params|e]; cbn [snd isEncrypting encrypted]; [|auto].
  destruct (eprops_onEncrypted props) as [cb|];
    cbn [snd isEncrypting encrypted]; eauto.
Qed.


Lemma encryptWith_encrypts_once_witness :
  fst (encryptWith no_params (add_values scenario_values) 7%N) = Return None.
Proof.
  apply (proj2 (proj1 (encryptWith_encrypts_once no_params
                         (add_values scenario_values) 7%N))).
  reflexivity.
Defined.

Lemma FHEEncryptWithAbi_onClick_guard_witness :
  FHEEncryptWithAbi_onClick (fun _ _ _ => Return tt) unready_button
    {| isEncrypting := false; entropy := 7%N; encrypted := [] |}
  = (Return tt, {| isEncrypting := false; entropy := 7%N; encrypted := [] |}).
Proof.
  apply (proj1 (FHEEncryptWithAbi_onClick_guard (fun _ _ _ => Return tt)
                  unready_button
                  {| isEncrypting := false; entropy := 7%N;
                     encrypted := [] |})).
  reflexivity.
Defined.

(* --------------------------------------------------------------------- *)
(** ** The genotype form: onSetSnp, the quick fills, the file import      *)
(* --------------------------------------------------------------------- *)

Lemma clamp_genotype_finite (n : Z) (d : positive) :
  clamp_genotype (Finite n d)
  = int_number (Z.max 0 (Z.min 2 (n / Z.pos d))).
Proof.
  unfold clamp_genotype, Math_floor, Math_min, Math_max, int_number, num_leb.
  destruct (Z.leb_spec (2 * 1) (n / Z.pos d * 1)).
  - destruct (Z.leb_spec (0 * 1) (2 * 1)); [|lia].
    f_equal. lia.
  - destruct (Z.leb_spec (0 * 1) (n / Z.pos d * 1)); f_equal; lia.
Qed.

Lemma clamp_genotype_is_genotype (val : JsNumber) :
  val <> NaN -> is_genotype (clamp_genotype val).
Proof.
  intros Hval. destruct val as [n d| |[]]; [|done|now left|now right; right].
  rewrite clamp_genotype_finite. unfold is_genotype, int_number.
  assert (H : Z.max 0 (Z.min 2 (n / Z.pos d)) = 0
              \/ Z.max 0 (Z.min 2 (n / Z.pos d)) = 1
              \/ Z.max 0 (Z.min 2 (n / Z.pos d)) = 2) by lia.
  destruct H as [->|[->| ->]]; auto.
Qed.

Lemma clamp_genotype_idempotent (val : JsNumber) :
  clamp_genotype (clamp_genotype val) = clamp_genotype val.
Proof.
  destruct val as [n d| |[]]; try reflexivity.
  rewrite clamp_genotype_finite. unfold int_number at 1.
  rewrite clamp_genotype_finite, Z.div_1_r. f_equal. lia.
Qed.

Lemma same_number_index (i j : nat) :
  same_number (int_number (Z.of_nat i)) (int_number (Z.of_nat j))
  = (i =? j)%nat.
Proof.
  unfold same_number, int_number.
  destruct (Nat.eqb_spec i j), (Z.eqb_spec (Z.of_nat i * 1) (Z.of_nat j * 1));
    auto; lia.
Qed.

Lemma onSetSnp_lookup (i : nat) (val : JsNumber) (prev : list JsNumber)
    (j : nat) :
  onSetSnp (int_number (Z.of_nat i)) val prev !! j
  = (fun v => if (j =? i)%nat then clamp_genotype val else v) <$> prev !! j.
Proof.
  unfold onSetSnp. rewrite list_lookup_imap.
  destruct (prev !! j); cbn [fmap option_fmap option_map]; [|reflexivity].
  now rewrite same_number_index.
Qed.

Lemma set_snps_range (value : nat -> JsNumber) (n a : nat)
    (snps : list JsNumber) :
  fold_left (fun acc i => onSetSnp (int_number (Z.of_nat i)) (value i) acc)
            (seq a n) snps
  = imap (fun j v => if ((a <=? j) && (j <? a + n))%nat
                     then clamp_genotype (value j) else v) snps.
Proof.
  revert a snps. induction n as [|n IH]; intros a snps; cbn [seq fold_left].
  - apply list_eq. intros j. rewrite list_lookup_imap.
    destruct (snps !! j); cbn [fmap option_fmap option_map]; [|reflexivity].
    destruct (Nat.leb_spec a j), (Nat.ltb_spec j (a + 0)); cbn;
      auto; lia.
  - rewrite IH. apply list_eq. intros j.
    rewrite !list_lookup_imap, onSetSnp_lookup.
    destruct (snps !! j); cbn [fmap option_fmap option_map]; [|reflexivity].
    destruct (Nat.eqb_spec j a), (Nat.leb_spec (S a) j),
      (Nat.ltb_spec j (S a + n)), (Nat.leb_spec a j),
      (Nat.ltb_spec j (a + S n)); cbn; subst; auto; lia.
Qed.

Lemma set_all_snps_full (value : nat -> JsNumber) (snps : list JsNumber) :
  length snps = HOOK_NUM_SNPS ->
  set_all_snps value snps
  = map (fun j => clamp_genotype (value j)) (seq 0 HOOK_NUM_SNPS).
Proof.
  intros Hlen. unfold set_all_snps. rewrite set_snps_range.
  apply list_eq. intros j. rewrite list_lookup_imap, list_lookup_fmap.
  destruct (Nat.lt_ge_cases j HOOK_NUM_SNPS) as [Hj|Hj].
  - rewrite (lookup_seq_lt _ _ _ Hj).
    destruct (lookup_lt_is_Some_2 snps j ltac:(lia)) as [v ->].
    cbn [fmap option_fmap option_map].
    change (0 + HOOK_NUM_SNPS)%nat with HOOK_NUM_SNPS.
    change (0 <=? j)%nat with true. cbn [andb].
    destruct (Nat.ltb_spec j HOOK_NUM_SNPS); [reflexivity|lia].
  - rewrite (lookup_ge_None_2 snps j) by lia.
    now rewrite (lookup_seq_ge _ _ _ Hj).
Qed.

(** X17: [onSetSnp] keeps the genotype a genotype. For a value that is a
    number (not NaN) it keeps the array's length, writes one of 0, 1, 2
    at position [idx] and touches no other entry, so an array of
    genotype values stays one; an index that is no position of the array
    (negative, fractional, too large, NaN) changes nothing. The clamp does
    not stop NaN: [onSetSnp(i, NaN)] stores NaN at position [i]. *)
Theorem onSetSnp_keeps_genotype (idx val : JsNumber)
    (prev : list JsNumber) :
  val <> NaN ->
  Forall is_genotype prev ->
  length (onSetSnp idx val prev) = length prev
  /\ Forall is_genotype (onSetSnp idx val prev)
  /\ (forall i : nat, idx = int_number (Z.of_nat i) ->
        onSetSnp idx val prev = <[i := clamp_genotype val]> prev
        /\ onSetSnp idx NaN prev = <[i := NaN]> prev)
  /\ ((forall i : nat, (i < length prev)%nat ->
         same_number (int_number (Z.of_nat i)) idx = false) ->
      onSetSnp idx val prev = prev).
Proof.
  intros Hval Hprev. unfold onSetSnp. repeat split.
  - apply length_imap.
  - apply Forall_lookup. intros j x. rewrite list_lookup_imap.
    destruct (prev !! j) as [v|] eqn:Hj;
      cbn [fmap option_fmap option_map]; [|discriminate].
    destruct (same_number (int_number (Z.of_nat j)) idx); intros [= <-];
      [now apply clamp_genotype_is_genotype|].
    exact (proj1 (Forall_lookup _ _) Hprev j v Hj).
  - subst idx. apply list_eq. intros j. rewrite list_lookup_imap.
    destruct (Nat.eq_dec j i) as [->|Hne].
    + destruct (prev !! i) as [v|] eqn:Hi; cbn [fmap option_fmap option_map].
      * rewrite same_number_index, Nat.eqb_refl.
        symmetry. apply list_lookup_insert_eq.
        now apply lookup_lt_Some in Hi.
      * symmetry. rewrite lookup_ge_None, length_insert.
        now apply lookup_ge_None.
    + rewrite list_lookup_insert_ne by auto.
      destruct (prev !! j); cbn [fmap option_fmap option_map]; [|reflexivity].
      rewrite same_number_index.
      destruct (Nat.eqb_spec j i); [contradiction|reflexivity].
  - subst idx. apply list_eq. intros j. rewrite list_lookup_imap.
    destruct (Nat.eq_dec j i) as [->|Hne].
    + destruct (prev !! i) as [v|] eqn:Hi; cbn [fmap option_fmap option_map].
      * rewrite same_number_index, Nat.eqb_refl.
        symmetry. apply list_lookup_insert_eq.
        now apply lookup_lt_Some in Hi.
      * symmetry. rewrite lookup_ge_None, length_insert.
        now apply lookup_ge_None.
    + rewrite list_lookup_insert_ne by auto.
      destruct (prev !! j); cbn [fmap option_fmap option_map]; [|reflexivity].
      rewrite same_number_index.
      destruct (Nat.eqb_spec j i); [contradiction|reflexivity].
  - intros Hidx. apply list_eq. intros j. rewrite list_lookup_imap.
    destruct (prev !! j) as [v|] eqn:Hj; cbn [fmap option_fmap option_map]; [|reflexivity].
    now rewrite (Hidx j (lookup_lt_Some _ _ _ Hj)).
Qed.

Lemma onSetSnp_keeps_genotype_witness :
  onSetSnp (int_number 1) (Finite 7 2)
    [int_number 0; int_number 1; int_number 0]
  = [int_number 0; int_number 2; int_number 0]
  /\ onSetSnp (Finite 1 2) (Finite 7 2)
       [int_number 0; int_number 1; int_number 0]
     = [int_number 0; int_number 1; int_number 0].
Proof.
  assert (Hprev : Forall is_genotype
                    [int_number 0; int_number 1; int_number 0])
    by (repeat constructor; unfold is_genotype; auto).
  split.
  - apply (proj1 (proj1 (proj2 (proj2
             (onSetSnp_keeps_genotype (int_number 1) (Finite 7 2) _
                ltac:(discriminate) Hprev))) 1%nat eq_refl)).
  - apply (proj2 (proj2 (proj2
             (onSetSnp_keeps_genotype (Finite 1 2) (Finite 7 2) _
                ltac:(discriminate) Hprev)))).
    intros i _. unfold same_number, int_number.
    apply Z.eqb_neq. lia.
Defined.

(** X18: the quick fills overwrite the whole genotype, whatever it held:
    on the hook's 20-entry array [fillLowRisk] leaves twenty 0s, which is
    the array [reset] restores, and [fillHighRisk] leaves twenty 2s. *)
Theorem quick_fills_overwrite (snps : list JsNumber) :
  length snps = HOOK_NUM_SNPS ->
  fillLowRisk snps = blank_snps
  /\ fillHighRisk snps = replicate HOOK_NUM_SNPS (int_number 2).
Proof.
  intros Hlen. unfold fillLowRisk, fillHighRisk.
  rewrite !set_all_snps_full by exact Hlen. split; reflexivity.
Qed.

Lemma quick_fills_overwrite_witness :
  fillLowRisk (replicate 20 NaN) = blank_snps
  /\ fillHighRisk (replicate 20 NaN) = replicate HOOK_NUM_SNPS (int_number 2).
Proof.
  apply (quick_fills_overwrite (replicate 20 NaN)). reflexivity.
Defined.

Lemma js_split_nonempty (sep : N) (t : JsText) : js_split sep t <> [].
Proof.
  destruct t as [|c rest]; cbn; [discriminate|].
  destruct (c =? sep)%N; [discriminate|].
  destruct (js_split sep rest); discriminate.
Qed.

Lemma js_split_app (sep : N) (a b : JsText) :
  js_split sep (a ++ sep :: b) = js_split sep a ++ js_split sep b.
Proof.
  induction a as [|c a IH]; cbn [app js_split].
  - now rewrite N.eqb_refl.
  - destruct (c =? sep)%N; [now rewrite IH|].
    rewrite IH. pose proof (js_split_nonempty sep a) as Hne.
    destruct (js_split sep a); [contradiction|reflexivity].
Qed.

Lemma js_split_one_piece (sep : N) (t : JsText) :
  Forall (fun c => c <> sep) t -> js_split sep t = [t].
Proof.
  induction 1 as [|c t Hc _ IH]; [reflexivity|].
  cbn [js_split]. apply N.eqb_neq in Hc. now rewrite Hc, IH.
Qed.

(** X19: the CSV reading of a text, entry by entry. A text without
    comma, line feed or carriage return is one entry: it is trimmed and
    read as a number, unless nothing is left of it, in which case it
    gives no number (so the empty text gives none). Commas, line feeds
    and carriage returns all separate entries: the numbers of a text
    [a], one separator, [b] are the numbers of [a] followed by those of
    [b]. So a trailing newline, a CRLF line end or a doubled comma adds
    no entry. *)
Theorem csv_numbers_separators (env : FileReading) :
  (forall entry : JsText,
     Forall (fun c => c <> 44%N /\ c <> 10%N /\ c <> 13%N) entry ->
     csv_numbers env entry
     = if decide (js_trim entry = [])
       then []
       else [Number_of_text env (js_trim entry)])
  /\ (forall (a b : JsText) (c : N),
        c = 44%N \/ c = 10%N \/ c = 13%N ->
        csv_numbers env (a ++ c :: b)
        = csv_numbers env a ++ csv_numbers env b).
Proof.
  split.
  - intros entry Hentry. unfold csv_numbers. cbv zeta.
    assert (Hclean : map (fun c => if (c =? 10)%N || (c =? 13)%N
                                   then 44%N else c) entry = entry).
    { induction Hentry as [|c t (_ & Hlf & Hcr) _ IH]; [reflexivity|].
      cbn [map]. apply N.eqb_neq in Hlf, Hcr.
      now rewrite Hlf, Hcr, IH. }
    rewrite Hclean, js_split_one_piece
      by (eapply Forall_impl; [exact Hentry | now intros c (H & _)]).
    cbn [map]. rewrite filter_cons, filter_nil.
    destruct (decide (js_trim entry = [])) as [Hblank|Hfull];
      destruct (decide (js_trim entry <> [])) as [Hfull'|Hblank'];
      try reflexivity; contradiction.
  - intros a b c Hc. unfold csv_numbers. cbv zeta.
    rewrite map_app. cbn [map].
    assert (Hsep : (if (c =? 10)%N || (c =? 13)%N then 44%N else c) = 44%N)
      by (destruct Hc as [->|[->| ->]]; reflexivity).
    rewrite Hsep, js_split_app, map_app, filter_app, map_app.
    reflexivity.
Qed.

Lemma csv_numbers_separators_witness :
  csv_numbers deaf_reading ([32; 49; 32] ++ 10 :: [])%N = [NaN].
Proof.
  rewrite (proj2 (csv_numbers_separators deaf_reading) [32; 49; 32]%N []
             10%N) by (right; left; reflexivity).
  rewrite !(proj1 (csv_numbers_separators deaf_reading))
    by (repeat constructor; discriminate).
  reflexivity.
Defined.

Lemma file_check_passes (arr : list JsNumber) :
  negb (length arr =? HOOK_NUM_SNPS)%nat
  || existsb (fun n => negb (Number_isFinite n)) arr = false
  <-> length arr = HOOK_NUM_SNPS
      /\ Forall (fun n => Number_isFinite n = true) arr.
Proof.
  rewrite orb_false_iff, negb_false_iff, Nat.eqb_eq.
  apply and_iff_compat_l. rewrite Forall_forall. split.
  - intros H n Hn. destruct (Number_isFinite n) eqn:Hfin; [reflexivity|].
    assert (Hex : existsb (fun n => negb (Number_isFinite n)) arr = true).
    { apply existsb_exists. exists n. rewrite Hfin.
      split; [now apply list_elem_of_In|reflexivity]. }
    congruence.
  - intros H. apply not_true_is_false. intros Hex.
    apply existsb_exists in Hex as (n & Hn & Hneg).
    apply list_elem_of_In in Hn. rewrite (H n Hn) in Hneg. discriminate.
Qed.

(** X20: a file that holds exactly 20 finite numbers replaces the whole
    genotype by their clamped floors, every entry one of 0, 1, 2, and
    leaves no error message. *)
Theorem onFileSelected_imports (env : FileReading) (text : JsText)
    (st : DemoState) :
  length (demo_snps st) = HOOK_NUM_SNPS ->
  length (file_numbers env text) = HOOK_NUM_SNPS ->
  Forall (fun n => Number_isFinite n = true) (file_numbers env text) ->
  let st' := onFileSelected env (Some (Return text)) st in
  demo_snps st' = map clamp_genotype (file_numbers env text)
  /\ Forall is_genotype (demo_snps st')
  /\ fileError st' = "".
Proof.
  intros Hst Hlen Hfin. cbv zeta. unfold onFileSelected. cbv zeta.
  cbn [demo_snps fileError fileInputValue].
  rewrite (proj2 (file_check_passes _) (conj Hlen Hfin)).
  cbn [demo_snps fileError fileInputValue].
  rewrite set_all_snps_full by exact Hst.
  assert (Heq : map (fun j => clamp_genotype
                        (clamp_genotype
                           (default NaN (file_numbers env text !! j))))
                    (seq 0 HOOK_NUM_SNPS)
                = map clamp_genotype (file_numbers env text)).
  { apply list_eq. intros j. rewrite !list_lookup_fmap.
    destruct (Nat.lt_ge_cases j HOOK_NUM_SNPS) as [Hj|Hj].
    - rewrite (lookup_seq_lt _ _ _ Hj).
      destruct (lookup_lt_is_Some_2 (file_numbers env text) j ltac:(lia))
        as [v Hv].
      cbn [fmap option_fmap option_map]. change (0 + j)%nat with j.
      rewrite Hv. cbn [fmap option_fmap option_map from_option].
      now rewrite clamp_genotype_idempotent.
    - rewrite (lookup_seq_ge _ _ _ Hj).
      now rewrite (lookup_ge_None_2 (file_numbers env text) j) by lia. }
  rewrite Heq. repeat split.
  apply Forall_fmap. eapply Forall_impl; [exact Hfin|].
  intros n Hn. apply clamp_genotype_is_genotype.
  intros ->. discriminate Hn.
Qed.

Lemma onFileSelected_imports_witness :
  demo_snps (onFileSelected fives_reading (Some (Return [])) blank_demo)
  = replicate 20 (int_number 2).
Proof.
  apply (onFileSelected_imports fives_reading [] blank_demo eq_refl eq_refl).
  repeat constructor.
Defined.

(** X21: the import is all or nothing and never leaves the file chosen.
    When the file cannot be read, or does not hold exactly 20 finite
    numbers, the genotype stays as it was, and in the second case the
    message is [Expected exactly 20 numeric entries]; nothing is imported
    in part. Whenever a file was given, the file input is cleared, on
    success and on failure alike. *)
Theorem onFileSelected_all_or_nothing (env : FileReading)
    (file : option (Outcome JsText)) (st : DemoState) :
  let st' := onFileSelected env file st in
  (forall text,
      file = Some (Return text) ->
      ~ (length (file_numbers env text) = HOOK_NUM_SNPS
         /\ Forall (fun n => Number_isFinite n = true)
                   (file_numbers env text)) ->
      demo_snps st' = demo_snps st
      /\ fileError st' = "Expected exactly 20 numeric entries")
  /\ (forall e, file = Some (Throw e) ->
        demo_snps st' = demo_snps st /\ fileError st' = thrown_text env e)
  /\ (file = None ->
        demo_snps st' = demo_snps st /\ fileError st' = ""
        /\ fileInputValue st' = fileInputValue st)
  /\ (file <> None -> fileInputValue st' = (fun _ => "") <$> fileInputValue st).
Proof.
  cbv zeta. repeat split.
  - subst file. unfold onFileSelected. cbv zeta.
    cbn [demo_snps fileError fileInputValue].
    destruct (negb _ || existsb _ _) eqn:Hcheck; [reflexivity|].
    now apply file_check_passes in Hcheck.
  - subst file. unfold onFileSelected. cbv zeta.
    cbn [demo_snps fileError fileInputValue].
    destruct (negb _ || existsb _ _) eqn:Hcheck; [reflexivity|].
    now apply file_check_passes in Hcheck.
  - now subst file.
  - now subst file.
  - now subst file.
  - now subst file.
  - now subst file.
  - destruct file as [[text|e]|]; [| |contradiction];
      unfold onFileSelected; cbv zeta;
      cbn [demo_snps fileError fileInputValue].
    + destruct (negb _ || existsb _ _);
        cbn [demo_snps fileError fileInputValue];
        now destruct (fileInputValue st).
    + now destruct (fileInputValue st).
Qed.

Lemma onFileSelected_all_or_nothing_witness :
  demo_snps (onFileSelected deaf_reading (Some (Return [49; 44; 50]%N))
               blank_demo) = blank_snps
  /\ fileError (onFileSelected deaf_reading (Some (Return [49; 44; 50]%N))
                  blank_demo) = "Expected exactly 20 numeric entries".
Proof.
  apply (proj1 (onFileSelected_all_or_nothing deaf_reading
                  (Some (Return [49; 44; 50]%N)) blank_demo)
               [49; 44; 50]%N eq_refl).
  intros [Hlen _]. vm_compute in Hlen. discriminate Hlen.
Defined.

(* --------------------------------------------------------------------- *)
(** ** scripts/updateSubmodule                                            *)
(* --------------------------------------------------------------------- *)

Lemma starts_with_app (pat a b : JsText) :
  starts_with pat a = true -> starts_with pat (a ++ b) = true.
Proof.
  revert a. induction pat as [|p pat IH]; intros a H; [reflexivity|].
  destruct a as [|c a]; [discriminate|]. cbn in *.
  apply andb_true_iff in H as [-> H]. now rewrite IH.
Qed.

Lemma includes_cons (pat : JsText) (c : N) (t : JsText) :
  includes pat (c :: t) = starts_with pat (c :: t) || includes pat t.
Proof. reflexivity. Qed.

Lemma includes_app_l (pat a b : JsText) :
  includes pat a = true -> includes pat (a ++ b) = true.
Proof.
  induction a as [|c a IH]; intros H.
  - cbn in H. rewrite orb_false_r in H.
    destruct pat; [|discriminate]. now destruct b.
  - rewrite includes_cons in H. change ((c :: a) ++ b) with (c :: (a ++ b)).
    rewrite includes_cons.
    apply orb_true_iff in H as [H|H].
    + change (c :: (a ++ b)) with ((c :: a) ++ b).
      now rewrite starts_with_app.
    + rewrite IH by exact H. apply orb_true_r.
Qed.

Lemma includes_app_r (pat a b : JsText) :
  includes pat b = true -> includes pat (a ++ b) = true.
Proof.
  intros H. induction a as [|c a IH]; [exact H|].
  change ((c :: a) ++ b) with (c :: (a ++ b)).
  rewrite includes_cons, IH. apply orb_true_r.
Qed.

Lemma includes_starts_with (pat t : JsText) :
  starts_with pat t = true -> includes pat t = true.
Proof. intros H. destruct t; cbn in *; now rewrite H. Qed.

Lemma includes_trim_start (pat t : JsText) :
  starts_with pat (js_trim_start t) = true -> includes pat t = true.
Proof.
  induction t as [|c t IH]; intros H.
  - now apply includes_starts_with.
  - cbn [js_trim_start] in H. destruct (is_js_space c).
    + rewrite includes_cons, IH by exact H. apply orb_true_r.
    + now apply includes_starts_with.
Qed.

Lemma replace_first_cases (try_match : JsText -> option (JsText * JsText))
    (subst : JsText -> JsText) (t : JsText) :
  replace_first try_match subst t = t
  \/ exists before matched rest,
       replace_first try_match subst t = before ++ subst matched ++ rest.
Proof.
  induction t as [|c t IH]; cbn [replace_first].
  - destruct (try_match []) as [[matched rest]|]; [|now left].
    right. now exists [], matched, rest.
  - destruct (try_match (c :: t)) as [[matched rest]|].
    + right. now exists [], matched, rest.
    + destruct IH as [->|(before & matched & rest & ->)]; [now left|].
      right. now exists (c :: before), matched, rest.
Qed.

Lemma replace_first_no_match (try_match : JsText -> option (JsText * JsText))
    (subst : JsText -> JsText) (lit t : JsText) :
  (forall u, includes lit u = false -> try_match u = None) ->
  includes lit t = false ->
  replace_first try_match subst t = t.
Proof.
  intros Hmatch. induction t as [|c t IH]; intros H;
    cbn [replace_first]; rewrite (Hmatch _ H); [reflexivity|].
  rewrite includes_cons in H. apply orb_false_iff in H as [_ H].
  now rewrite IH.
Qed.

Lemma match_spaces_then_needs (lit u : JsText) :
  includes lit u = false -> match_spaces_then lit u = None.
Proof.
  intros H. unfold match_spaces_then. cbv zeta.
  destruct (starts_with lit (js_trim_start u)) eqn:Hs.
  - apply includes_trim_start in Hs. congruence.
  - now rewrite andb_false_r.
Qed.

Lemma match_then_semicolon_needs (lit u : JsText) :
  includes lit u = false -> match_then_semicolon lit u = None.
Proof.
  intros H. unfold match_then_semicolon.
  destruct (starts_with lit u) eqn:Hs; [|reflexivity].
  apply includes_starts_with in Hs. congruence.
Qed.

Lemma add_prs_deployment_cases (deployContent : JsText) :
  add_prs_deployment deployContent = deployContent
  \/ includes (text_of "PRSCompute") (add_prs_deployment deployContent)
     = true.
Proof.
  unfold add_prs_deployment. cbv zeta.
  destruct (replace_first_cases (match_then_semicolon counter_tags)
              (fun _ => both_tags)
              (replace_first (match_spaces_then counter_log_statement)
                 (fun matched => matched ++ prs_deployment) deployContent))
    as [->|(before & matched & rest & ->)].
  - destruct (replace_first_cases (match_spaces_then counter_log_statement)
                (fun matched => matched ++ prs_deployment) deployContent)
      as [->|(before & matched & rest & ->)]; [now left|right].
    apply includes_app_r, includes_app_l, includes_app_r.
    now vm_compute.
  - right. apply includes_app_r, includes_app_l. now vm_compute.
Qed.

Ltac fs_paths :=
  unfold DEPLOY_SCRIPT_PATH, submodule_contract, backup_of, SUBMODULE_DIR,
    CUSTOM_CONTRACTS_DIR, CUSTOM_CONTRACTS in *;
  cbn [node_at dirname length Nat.sub take app DEPLOY_SCRIPT_PATH
       SUBMODULE_DIR CUSTOM_CONTRACTS_DIR submodule_contract backup_of
       CUSTOM_CONTRACTS ancestors seq map existsb fold_left
       script_for_of files console negb orb andb fst snd] in *.

Ltac script_unfold :=
  unfold mbind, Script_bind, mret, Script_ret, console_print, existsSync,
    copyFileSync, readFileSync, writeFileSync, write_at,
    mkdirSync_recursive, set_files, script_try_catch, process_exit;
  fs_paths.

Lemma updateDeployScript_files (w : ScriptWorld) :
  files (snd (updateDeployScript w))
  = match files w !! DEPLOY_SCRIPT_PATH with
    | Some (FsFile deployContent) =>
        if includes (text_of "PRSCompute") deployContent then files w
        else match files w !! dirname DEPLOY_SCRIPT_PATH with
             | Some FsDir =>
                 <[DEPLOY_SCRIPT_PATH := FsFile (add_prs_deployment
                                                   deployContent)]> (files w)
             | _ => files w
             end
    | _ => files w
    end.
Proof.
  unfold updateDeployScript. script_unfold.
  destruct (files w !! ["packages"; "hardhat"; "deploy"; "deploy.ts"])
    as [[deployContent|]|] eqn:Hfile; fs_paths; rewrite ?Hfile; fs_paths;
    try reflexivity.
  destruct (includes (text_of "PRSCompute") deployContent); fs_paths;
    [reflexivity|].
  destruct (files w !! ["packages"; "hardhat"; "deploy"]) as [[|]|];
    fs_paths; rewrite ?Hfile; fs_paths; reflexivity.
Qed.

(** X22: [updateDeployScript] can be run again safely, and touches one
    file. Running it a second time leaves the files as the first run
    left them (a deploy script that got the deployment or the tag is
    recognised by its mention of PRSCompute and not written again), and
    no path other than [packages/hardhat/deploy/deploy.ts] ever
    changes. *)
Theorem updateDeployScript_idempotent (w : ScriptWorld) :
  let w1 := snd (updateDeployScript w) in
  files (snd (updateDeployScript w1)) = files w1
  /\ (forall p, p <> DEPLOY_SCRIPT_PATH -> files w1 !! p = files w !! p).
Proof.
  cbv zeta. rewrite (updateDeployScript_files (snd (updateDeployScript w))).
  rewrite !(updateDeployScript_files w).
  assert (Hdir : dirname DEPLOY_SCRIPT_PATH <> DEPLOY_SCRIPT_PATH)
    by discriminate.
  destruct (files w !! DEPLOY_SCRIPT_PATH) as [[c|]|] eqn:Hfile;
    [|split; [now rewrite Hfile|reflexivity]..].
  destruct (includes (text_of "PRSCompute") c) eqn:Hinc;
    [split; [now rewrite Hfile, Hinc|reflexivity]|].
  destruct (files w !! dirname DEPLOY_SCRIPT_PATH) as [[|]|] eqn:Hparent;
    [split; [now rewrite Hfile, Hinc, Hparent|reflexivity]| |
     split; [now rewrite Hfile, Hinc, Hparent|reflexivity]].
  split; [|intros p Hp; now rewrite lookup_insert_ne].
  rewrite lookup_insert_eq.
  destruct (add_prs_deployment_cases c) as [Hsame|Hnow].
  - rewrite Hsame, Hinc, lookup_insert_ne, Hparent by auto.
    now rewrite Hsame, insert_insert_eq.
  - now rewrite Hnow.
Qed.

(** X23: the success message of [updateDeployScript] does not mean the
    deployment was added. On a deploy script that mentions neither
    PRSCompute nor the FHECounter log statement nor the FHECounter tags,
    both replacements find nothing: the file is written back unchanged,
    the function completes, and it still prints that the deploy script
    was updated with PRSCompute. *)
Theorem updateDeployScript_reports_update_without_change
    (w : ScriptWorld) (deployContent : JsText) :
  files w !! DEPLOY_SCRIPT_PATH = Some (FsFile deployContent) ->
  files w !! dirname DEPLOY_SCRIPT_PATH = Some FsDir ->
  includes (text_of "PRSCompute") deployContent = false ->
  includes counter_log_statement deployContent = false ->
  includes counter_tags deployContent = false ->
  updateDeployScript w
  = (Completed tt,
     {| files := files w;
        console := console w ++ [LogUpdatingDeployScript;
                                 LogDeployScriptUpdated] |}).
Proof.
  intros Hfile Hparent Hprs Hlog Htags.
  assert (Hsame : add_prs_deployment deployContent = deployContent).
  { unfold add_prs_deployment. cbv zeta.
    rewrite (replace_first_no_match
               (match_spaces_then counter_log_statement) _
               counter_log_statement)
      by (exact Hlog || apply match_spaces_then_needs).
    apply (replace_first_no_match _ _ counter_tags);
      [apply match_then_semicolon_needs|exact Htags]. }
  unfold updateDeployScript. script_unfold.
  repeat (progress (fs_paths; rewrite ?Hfile, ?Hprs, ?Hparent, ?Hsame)).
  rewrite (insert_id _ _ _ Hfile), <- app_assoc. reflexivity.
Qed.

Lemma updateDeployScript_reports_update_without_change_witness :
  updateDeployScript
    (fresh_world (<[DEPLOY_SCRIPT_PATH := FsFile foreign_deploy_script]>
                    sample_checkout))
  = (Completed tt,
     {| files := <[DEPLOY_SCRIPT_PATH := FsFile foreign_deploy_script]>
                   sample_checkout;
        console := [LogUpdatingDeployScript; LogDeployScriptUpdated] |}).
Proof.
  change (updateDeployScript
            (fresh_world
               (<[DEPLOY_SCRIPT_PATH := FsFile foreign_deploy_script]>
                  sample_checkout))
          = (Completed tt,
             {| files := files (fresh_world
                  (<[DEPLOY_SCRIPT_PATH := FsFile foreign_deploy_script]>
                     sample_checkout));
                console := console (fresh_world
                  (<[DEPLOY_SCRIPT_PATH := FsFile foreign_deploy_script]>
                     sample_checkout))
                  ++ [LogUpdatingDeployScript; LogDeployScriptUpdated] |})).
  apply (updateDeployScript_reports_update_without_change
           (fresh_world (<[DEPLOY_SCRIPT_PATH := FsFile foreign_deploy_script]>
                           sample_checkout))
           foreign_deploy_script);
    vm_compute; reflexivity.
Defined.

Lemma updateDeployScript_other_paths (w : ScriptWorld) (p : Path) :
  p <> DEPLOY_SCRIPT_PATH ->
  files (snd (updateDeployScript w)) !! p = files w !! p.
Proof.
  intros Hp. rewrite updateDeployScript_files.
  destruct (files w !! DEPLOY_SCRIPT_PATH) as [[c|]|]; try reflexivity.
  destruct (includes (text_of "PRSCompute") c); [reflexivity|].
  destruct (files w !! dirname DEPLOY_SCRIPT_PATH) as [[|]|];
    try reflexivity.
  now rewrite lookup_insert_ne.
Qed.

Lemma ensureCustomContractsBackup_run (w : ScriptWorld) (c : JsText) :
  files w !! submodule_contract "PRSCompute.sol" = Some (FsFile c)
  \/ (files w !! submodule_contract "PRSCompute.sol" = None
      /\ files w !! backup_of "PRSCompute.sol" = Some (FsFile c)
      /\ files w !! CUSTOM_CONTRACTS_DIR = Some FsDir) ->
  (forall t, files w !! CUSTOM_CONTRACTS_DIR <> Some (FsFile t)) ->
  files w !! backup_of "PRSCompute.sol" <> Some FsDir ->
  exists lines,
    ensureCustomContractsBackup w
    = (Completed tt, {| files := with_backup c (files w);
                        console := console w ++ lines |}).
Proof.
  intros Hsrc Hcustom Hbackup.
  unfold ensureCustomContractsBackup, with_backup. script_unfold.
  destruct Hsrc as [Hsrc|(Hsrc & Hbk & Hdir)].
  - destruct (files w !! ["custom-contracts"; "PRSCompute.sol"])
      as [[t|]|] eqn:Hbk; [|contradiction|];
      (destruct (files w !! ["custom-contracts"]) as [[t'|]|] eqn:Hdir;
       [now destruct (Hcustom t')| |]);
      repeat (progress (script_unfold;
                        rewrite ?Hdir, ?lookup_insert_eq,
                          ?lookup_insert_ne, ?Hsrc, ?Hbk by discriminate));
      rewrite ?(insert_id _ _ _ Hdir), <- ?app_assoc; eauto.
  - repeat (progress (script_unfold; rewrite ?Hsrc, ?Hdir)).
    rewrite (insert_id _ _ _ Hdir), (insert_id _ _ _ Hbk). eauto.
Qed.

Lemma restoreCustomContracts_run (w : ScriptWorld) (c : JsText) :
  files w !! backup_of "PRSCompute.sol" = Some (FsFile c) ->
  files w !! (SUBMODULE_DIR ++ ["contracts"]) = Some FsDir ->
  files w !! submodule_contract "PRSCompute.sol" <> Some FsDir ->
  restoreCustomContracts w
  = (Completed tt,
     {| files := <[submodule_contract "PRSCompute.sol" := FsFile c]>
                   (files w);
        console := console w ++ [LogRestoring;
                                 LogRestored "PRSCompute.sol"] |}).
Proof.
  intros Hbk Hdir Htarget.
  unfold restoreCustomContracts. script_unfold.
  destruct (files w !! ["packages"; "hardhat"; "contracts";
                        "PRSCompute.sol"])
    as [[t|]|] eqn:Ht; [|contradiction|];
    repeat (progress (script_unfold; rewrite ?Hbk, ?Hdir, ?Ht));
    rewrite <- ?app_assoc; reflexivity.
Qed.

Lemma script_bind_completed {A B} (m : Script A) (k : A -> Script B)
    (w w' : ScriptWorld) (a : A) :
  m w = (Completed a, w') -> (m ≫= k) w = k a w'.
Proof. unfold mbind, Script_bind. now intros ->. Qed.



(** X25: a failed update stops the script. When the backup step
    completes and the update command then fails, the process exits with
    code 1 right after printing the failure: the files are as the failed
    command left them, and neither the restore step nor the
    deploy-script step runs. *)
Theorem main_stops_when_update_fails
    (git : FileSystem -> bool * FileSystem) (w : ScriptWorld) :
  let backed_up :=
    ensureCustomContractsBackup (snd (console_print LogStarting w)) in
  fst backed_up = Completed tt ->
  fst (git (files (snd backed_up))) = false ->
  run_main git w
  = (Exited 1,
     {| files := snd (git (files (snd backed_up)));
        console := console (snd backed_up)
                   ++ [LogUpdatingSubmodule;
                       ErrorFailedToUpdateSubmodule
                         (fs_error "Command failed")] |}).
Proof.
  cbv zeta. intros Hensure Hgit.
  destruct (ensureCustomContractsBackup (snd (console_print LogStarting w)))
    as [ending w1] eqn:Hrun.
  cbn [fst snd] in *. subst ending.
  unfold run_main, main, script_try_catch.
  rewrite (script_bind_completed _ _ w (snd (console_print LogStarting w)) tt)
    by reflexivity.
  rewrite (script_bind_completed _ _ _ _ tt Hrun).
  unfold updateSubmodule, execSync_git. script_unfold.
  destruct (git (files w1)) as [ok fs]. cbn [fst snd] in *. subst ok.
  fs_paths. now rewrite <- ?app_assoc.
Qed.

Lemma main_stops_when_update_fails_witness :
  fst (run_main failing_update (fresh_world sample_checkout)) = Exited 1.
Proof.
  rewrite (main_stops_when_update_fails failing_update
             (fresh_world sample_checkout)); reflexivity.
Defined.

(* --------------------------------------------------------------------- *)
(** ** usePRSComputeWagmi: what the hook sends to the contract            *)
(* --------------------------------------------------------------------- *)

Lemma hook_getContract_write (env : Hook.HookEnv) :
  Hook.hasContract env = true -> Hook.hasSigner env = true ->
  exists info, Hook.getContract_write env = Some info.
Proof.
  unfold Hook.getContract_write, Hook.hasSigner, Hook.hasContract.
  destruct (Hook.prsContract env) as [info|]; [|discriminate].
  intros ->. destruct (Hook.ethersSigner env); [|discriminate].
  intros _. now exists info.
Qed.

Ltac hook_unfold :=
  unfold mbind, M_bind, bind, Hook.setIsProcessing, Hook.setMessage, modify,
    try_finally, try_catch, Hook.await_encryption, Hook.send, settle, throw,
    ret;
  cbv beta iota;
  cbn [Hook.isProcessing Hook.message Hook.entropy Hook.writes fst snd].

(** X26: the hook uploads a genotype of exactly 20 handles or nothing. A
    call of [uploadEncryptedGenotype] never throws; it does nothing
    unless [canUpload] holds; when it runs it ends with [isProcessing]
    false, it makes at most one contract write, an upload for the chosen
    individual carrying exactly 20 handles, and it shows the success
    message only when that write was sent and mined. *)
Theorem hook_upload_sends_twenty_handles (env : Hook.HookEnv)
    (st : Hook.HookState) :
  let out := Hook.uploadEncryptedGenotype env st in
  fst out = Return tt
  /\ (Hook.canUpload env st = false -> snd out = st)
  /\ (Hook.canUpload env st = true ->
      Hook.isProcessing (snd out) = false
      /\ (Hook.writes (snd out) = Hook.writes st
          \/ exists hexHandles inputProof,
               length hexHandles = HOOK_NUM_SNPS
               /\ Hook.writes (snd out)
                  = Hook.writes st
                    ++ [Hook.WriteUpload (Hook.individualIdHash env)
                          hexHandles inputProof])
      /\ (Hook.message (snd out) = "Genotype uploaded successfully" ->
          exists hexHandles inputProof,
            length hexHandles = HOOK_NUM_SNPS
            /\ Hook.write env (Hook.WriteUpload (Hook.individualIdHash env)
                                 hexHandles inputProof)
               = Return (Return tt)
            /\ Hook.writes (snd out)
               = Hook.writes st
                 ++ [Hook.WriteUpload (Hook.individualIdHash env)
                       hexHandles inputProof])).
Proof.
  cbv zeta. unfold Hook.uploadEncryptedGenotype.
  destruct (Hook.canUpload env st) eqn:Hcan; cbn [negb];
    [|repeat split; discriminate].
  assert (Hwrite : exists info, Hook.getContract_write env = Some info).
  { unfold Hook.canUpload in Hcan.
    repeat (apply andb_true_iff in Hcan as [Hcan ?]).
    now apply hook_getContract_write. }
  destruct Hwrite as [info ->].
  split; [|split; [discriminate|intros _]]; hook_unfold;
    destruct (encryptWith (Hook.encryption_params env)
                (for_of (Hook.snps env) (Hook.add env)) (Hook.entropy st))
      as [[[enc|]|e] n]; hook_unfold; try reflexivity;
    try (repeat split; [now left|discriminate]).
  - destruct ((length (handles enc) =? 0)%nat
              || negb (length (handles enc) =? HOOK_NUM_SNPS)%nat);
      hook_unfold; [reflexivity|].
    destruct (Hook.write env _) as [[[]|e]|e]; reflexivity.
  - destruct ((length (handles enc) =? 0)%nat
              || negb (length (handles enc) =? HOOK_NUM_SNPS)%nat)
      eqn:Hlen; hook_unfold;
      [repeat split; [now left|discriminate]|].
    apply orb_false_iff in Hlen as [_ Hlen].
    apply negb_false_iff, Nat.eqb_eq in Hlen.
    destruct (Hook.write env _) as [[[]|e]|e] eqn:Hw; hook_unfold;
      (repeat split;
       [right; eexists _, _; split; [|reflexivity]; now rewrite length_map
       |try discriminate]).
    intros _. eexists _, _. split; [|split; [exact Hw|reflexivity]].
    now rewrite length_map.
Qed.

Lemma hook_upload_sends_twenty_handles_witness :
  Hook.isProcessing (snd (Hook.uploadEncryptedGenotype ready_hook idle_hook))
  = false.
Proof.
  apply (proj2 (proj2 (hook_upload_sends_twenty_handles ready_hook
                         idle_hook))).
  reflexivity.
Defined.

(** X27: the hook's [computePRS] makes one contract write or none. A
    call never throws and does nothing unless [canCompute] holds; when it
    runs it ends with [isProcessing] false after exactly one write, a
    [computePRS] for the chosen individual, and it shows the success
    message only when that write was sent and mined and the refetch that
    follows succeeded. *)
Theorem hook_computePRS_one_write (env : Hook.HookEnv)
    (st : Hook.HookState) :
  let out := Hook.computePRS env st in
  fst out = Return tt
  /\ (Hook.canCompute env st = false -> snd out = st)
  /\ (Hook.canCompute env st = true ->
      Hook.isProcessing (snd out) = false
      /\ Hook.writes (snd out)
         = Hook.writes st
           ++ [Hook.WriteComputePRS (Hook.individualIdHash env)]
      /\ (Hook.message (snd out)
          = "PRS computed. You can now decrypt the risk result." ->
          Hook.write env (Hook.WriteComputePRS (Hook.individualIdHash env))
          = Return (Return tt)
          /\ Hook.refetch env = Return tt)).
Proof.
  cbv zeta. unfold Hook.computePRS.
  destruct (Hook.canCompute env st) eqn:Hcan; cbn [negb];
    [|repeat split; discriminate].
  assert (Hwrite : exists info, Hook.getContract_write env = Some info).
  { unfold Hook.canCompute in Hcan.
    repeat (apply andb_true_iff in Hcan as [Hcan ?]).
    now apply hook_getContract_write. }
  destruct Hwrite as [info ->].
  split; [|split; [discriminate|intros _]]; hook_unfold;
    destruct (Hook.write env _) as [[[]|e]|e]; hook_unfold;
    try reflexivity; try (repeat split; discriminate);
    destruct (Hook.refetch env) as [[]|e]; hook_unfold;
    try reflexivity; repeat split; discriminate.
Qed.

Lemma hook_computePRS_one_write_witness :
  Hook.writes (snd (Hook.computePRS ready_hook idle_hook))
  = [Hook.WriteComputePRS (Some "0x1d")].
Proof.
  apply (proj2 (proj2 (hook_computePRS_one_write ready_hook idle_hook))).
  reflexivity.
Defined.

(** X28: a failure message after [computePRS] does not mean the
    computation failed. When the write is sent and mined but the refetch
    of [isRiskComputed] that follows throws, the hook ends with the
    message [Compute failed: ...], although the contract has computed
    the score. *)
Theorem hook_computePRS_failure_message_after_success
    (env : Hook.HookEnv) (st : Hook.HookState) (e : JsThrown) :
  Hook.canCompute env st = true ->
  Hook.write env (Hook.WriteComputePRS (Hook.individualIdHash env))
  = Return (Return tt) ->
  Hook.refetch env = Throw e ->
  Hook.computePRS env st
  = (Return tt,
     {| Hook.isProcessing := false;
        Hook.message := "Compute failed: " +:+ Hook.thrown_message env e;
        Hook.entropy := Hook.entropy st;
        Hook.writes := Hook.writes st
                       ++ [Hook.WriteComputePRS
                             (Hook.individualIdHash env)] |}).
Proof.
  intros Hcan Hw Hrefetch. unfold Hook.computePRS. rewrite Hcan. cbn [negb].
  assert (Hwrite : exists info, Hook.getContract_write env = Some info).
  { unfold Hook.canCompute in Hcan.
    repeat (apply andb_true_iff in Hcan as [Hcan ?]).
    now apply hook_getContract_write. }
  destruct Hwrite as [info ->].
  hook_unfold. rewrite Hw. hook_unfold. rewrite Hrefetch. reflexivity.
Qed.

Lemma hook_computePRS_failure_message_after_success_witness :
  Hook.message (snd (Hook.computePRS ready_hook idle_hook))
  = "Compute failed: network error".
Proof.
  rewrite (hook_computePRS_failure_message_after_success ready_hook
             idle_hook ThrownPrimitive); reflexivity.
Defined.
